(** * A segregated free-list allocator (mm.c): shallow embedding and properties

    The allocator of [mm.c] manages one contiguous heap obtained from an
    sbrk-like provider.  Every block starts with a one-word header
    (size | prev_alloc<<1 | alloc); free blocks end with a footer and carry
    the two link words of a circular doubly-linked list in their payload.

    The embedding keeps the C code's shape: memory is a finite map from byte
    addresses to bytes, [size_t] values are integers reduced modulo 2^64,
    and every C function is a computation in a state-and-error monad whose
    loads and stores fault outside the provider's region. *)

From Stdlib Require Import ZArith Lia List Bool.
From stdpp Require Import base option list gmap.

Local Open Scope Z_scope.

(** ** Machine words *)

Module Word.

Definition modulus : Z := 2 ^ 64.

(** Conversion of an integer to [size_t]. *)
Definition wrap (z : Z) : Z := z mod modulus.

(** [~x] on an [int] constant, converted to [size_t]. *)
Definition mask_not (x : Z) : Z := wrap (Z.lnot x).

End Word.

Import Word.

(** ** Constants of the source *)

Definition ALIGNMENT : Z := 16.
Definition w : Z := 8.
Definition maxindex : Z := 16.

(** ** Size classes *)

(** [get_index]: the cascade of comparisons of the source, first match wins. *)
Definition get_index (size : Z) : Z :=
  if size <=? 32 then 0 else
  if size <=? 48 then 1 else
  if size <=? 64 then 2 else
  if size <=? 96 then 3 else
  if size <=? 128 then 4 else
  if size <=? 256 then 5 else
  if size <=? 512 then 6 else
  if size <=? 1024 then 7 else
  if size <=? 2048 then 8 else
  if size <=? 4096 then 9 else
  if size <=? 8192 then 10 else
  if size <=? 16384 then 11 else
  if size <=? 65536 then 12 else
  if size <=? 131072 then 13 else
  if size <=? 262144 then 14 else
  15.

(** The step table of the data model: upper bounds of classes 0..14; class 15
    is unbounded.  [table_index] is the first-match lookup the table
    describes, written independently of [get_index]. *)
Definition class_bounds : list Z :=
  [32; 48; 64; 96; 128; 256; 512; 1024; 2048; 4096; 8192; 16384;
   65536; 131072; 262144].

Fixpoint first_match (bounds : list Z) (i : Z) (size : Z) : Z :=
  match bounds with
  | [] => i
  | b :: rest => if size <=? b then i else first_match rest (i + 1) size
  end.

Definition table_index (size : Z) : Z := first_match class_bounds 0 size.

(** ** Alignment and request normalisation *)

(** [align]: [ALIGNMENT * ((x+ALIGNMENT-1)/ALIGNMENT)] in [size_t]. *)
Definition align (x : Z) : Z :=
  wrap (ALIGNMENT * (wrap (x + ALIGNMENT - 1) / ALIGNMENT)).

(** The first two statements of [malloc] on its [size] argument. *)
Definition normalize (size : Z) : Z :=
  let size := align (wrap (size + w)) in
  if size <? 32 then 32 else size.

(** Rounding up in unbounded integers, as the data model words it. *)
Definition align_up (x a : Z) : Z := a * ((x + a - 1) / a).

(** ** Memory: bytes, little-endian words *)

(** A byte read from the store; addresses never written read as 0. *)
Definition byte_at (m : gmap Z Z) (a : Z) : Z := default 0 (m !! a) mod 256.

Fixpoint load_bytes (m : gmap Z Z) (a : Z) (n : nat) : Z :=
  match n with
  | O => 0
  | S k => byte_at m a + 256 * load_bytes m (a + 1) k
  end.

Fixpoint store_bytes (m : gmap Z Z) (a : Z) (n : nat) (v : Z) : gmap Z Z :=
  match n with
  | O => m
  | S k => store_bytes (<[a := v mod 256]> m) (a + 1) k (v / 256)
  end.

(** A [size_t] read and written through a pointer: eight bytes. *)
Definition load64 (m : gmap Z Z) (a : Z) : Z := load_bytes m a 8.
Definition store64 (m : gmap Z Z) (a v : Z) : gmap Z Z := store_bytes m a 8 v.

(** [memcpy]: a forward byte copy. *)
Fixpoint copy_bytes (m : gmap Z Z) (dst src : Z) (n : nat) : gmap Z Z :=
  match n with
  | O => m
  | S k => copy_bytes (<[dst := byte_at m src]> m) (dst + 1) (src + 1) k
  end.

(** [memset]: every byte receives [(unsigned char)c]. *)
Fixpoint fill_bytes (m : gmap Z Z) (dst : Z) (c : Z) (n : nat) : gmap Z Z :=
  match n with
  | O => m
  | S k => fill_bytes (<[dst := c mod 256]> m) (dst + 1) c k
  end.

(** ** Allocator state and the monad of the embedding *)

(** The process-wide state: the provider's region [heap_lo, heap_brk), the
    limit [heap_max] the provider can grow to, the bytes of memory and the
    sixteen list heads [head[maxindex]]. *)
Record mstate : Type := MState {
  heap_lo : Z;
  heap_brk : Z;
  heap_max : Z;
  mem : gmap Z Z;
  head : list Z
}.

(** A call returns a value and a state, faults (an access outside the
    region) or exhausts the traversal budget of a list walk. *)
Inductive outcome (A : Type) : Type :=
| Ok (a : A) (s : mstate)
| Fault
| Timeout.
Arguments Ok {A} a s.
Arguments Fault {A}.
Arguments Timeout {A}.

Definition M (A : Type) : Type := mstate -> outcome A.

Definition ret {A} (a : A) : M A := fun s => Ok a s.

Definition bind {A B} (c : M A) (k : A -> M B) : M B :=
  fun s => match c s with
           | Ok a s' => k a s'
           | Fault => Fault
           | Timeout => Timeout
           end.

Declare Scope mm_scope.
Delimit Scope mm_scope with mm.
Notation "'do' x <- c ; k" := (bind c (fun x => k))
  (at level 10, x name, c at level 100, k at level 200,
   format "'[v' 'do'  x  <-  c ; '/' k ']'") : mm_scope.
Notation "c ;; k" := (bind c (fun _ => k))
  (at level 100, k at level 200, right associativity) : mm_scope.
Local Open Scope mm_scope.

Definition in_heap_range (s : mstate) (a len : Z) : bool :=
  (heap_lo s <=? a) && (a + len <=? heap_brk s).

Definition with_mem (s : mstate) (m : gmap Z Z) : mstate :=
  MState (heap_lo s) (heap_brk s) (heap_max s) m (head s).

Definition with_head (s : mstate) (h : list Z) : mstate :=
  MState (heap_lo s) (heap_brk s) (heap_max s) (mem s) h.

Definition load (a : Z) : M Z :=
  fun s => if in_heap_range s a 8 then Ok (load64 (mem s) a) s else Fault.

Definition store (a v : Z) : M unit :=
  fun s => if in_heap_range s a 8
           then Ok tt (with_mem s (store64 (mem s) a v)) else Fault.

(** [head[index]] read and written; [index] is an [int]. *)
Definition get_head (index : Z) : M Z :=
  fun s => if (0 <=? index) && (index <? maxindex)
           then Ok (default 0 (head s !! Z.to_nat index)) s else Fault.

Definition set_head (index : Z) (v : Z) : M unit :=
  fun s => if (0 <=? index) && (index <? maxindex)
           then Ok tt (with_head s (<[Z.to_nat index := v]> (head s)))
           else Fault.

(** ** The heap provider and the libc primitives *)

(** Modelled from the spec: the heap provider of memlib ([mm_sbrk],
    [mm_heap_lo], [mm_heap_hi]) is not part of the sources.  [mm_sbrk delta]
    extends the region by exactly [delta] bytes and returns the base of the
    new segment, or misses (NULL) when the region cannot grow that far;
    [mm_heap_lo] is the inclusive low bound and [mm_heap_hi] the address of
    the last valid byte. *)
Definition mm_sbrk (delta : Z) : M Z :=
  fun s => if heap_brk s + delta <=? heap_max s
           then Ok (heap_brk s)
                   (MState (heap_lo s) (heap_brk s + delta) (heap_max s)
                           (mem s) (head s))
           else Ok 0 s.

Definition mm_heap_lo : M Z := fun s => Ok (heap_lo s) s.
Definition mm_heap_hi : M Z := fun s => Ok (heap_brk s - 1) s.

(** Modelled from the spec: [memcpy] and [memset] are the C library's; a
    call of positive length faults unless the ranges lie in the region. *)
Definition memcpy (dst src n : Z) : M Z :=
  fun s => if n =? 0 then Ok dst s
           else if in_heap_range s dst n && in_heap_range s src n
           then Ok dst (with_mem s (copy_bytes (mem s) dst src (Z.to_nat n)))
           else Fault.

Definition memset (dst c n : Z) : M Z :=
  fun s => if n =? 0 then Ok dst s
           else if in_heap_range s dst n
           then Ok dst (with_mem s (fill_bytes (mem s) dst c (Z.to_nat n)))
           else Fault.

(** ** The functions of mm.c *)

Definition head_init : M unit :=
  fun s => Ok tt (with_head s (replicate (Z.to_nat maxindex) 0)).

(** Pointer stepping, on a flat 64-bit address space. *)
Definition incr (ptr size : Z) : Z := wrap (ptr + size).
Definition decr (ptr size : Z) : Z := wrap (ptr - size).

Definition get_size (ptr : Z) : M Z :=
  do val <- load ptr;
  ret (Z.land val (mask_not 15)).

Definition get_f (ptr : Z) : M Z :=
  do block_size <- get_size ptr;
  ret (incr ptr (wrap (block_size - w))).

Definition get_h (ptr : Z) : M Z :=
  do block_size <- get_size ptr;
  ret (decr ptr (wrap (block_size - w))).

Definition get_prev_alloc (ptr : Z) : M Z :=
  do val <- load ptr;
  ret (Z.land (Z.shiftr val 1) 1).

Definition free_prev_alloc (ptr : Z) : M Z :=
  do val <- load ptr;
  let s := Z.land val (mask_not 2) in
  store ptr s ;;
  ret s.

Definition set_prev_alloc (ptr : Z) : M Z :=
  do val <- load ptr;
  let s := Z.lor val 2 in
  store ptr s ;;
  ret s.

Definition make_h (ptr size prev_alloc alloc : Z) : M Z :=
  let val := Z.lor (Z.lor size alloc) (Z.shiftl prev_alloc 1) in
  store ptr (wrap val) ;;
  ret ptr.

Definition make_f (ptr size alloc : Z) : M Z :=
  let val := Z.lor size alloc in
  store ptr (wrap val) ;;
  ret ptr.

Definition make_hf (ptr size prev_alloc alloc : Z) : M Z :=
  make_h ptr size prev_alloc alloc ;;
  do f <- get_f ptr;
  make_f f size alloc ;;
  ret ptr.

Definition make_epi (ptr : Z) : M Z :=
  make_h ptr 0 1 1 ;;
  ret ptr.

Definition free_h (ptr : Z) : M Z :=
  do v <- load ptr;
  store ptr (Z.land v (mask_not 1)) ;;
  ret ptr.

Definition is_alloc (ptr : Z) : M Z :=
  do val <- load ptr;
  ret (val mod 2).

Definition n2h (ptr : Z) : Z := decr ptr w.
Definition h2n (ptr : Z) : Z := incr ptr w.

(** [struct node { Node prev, next; }]: [prev] at offset 0, [next] at 8. *)
Definition prev_field (x : Z) : Z := x.
Definition next_field (x : Z) : Z := wrap (x + 8).

(** The do-while of [check_presence], with a traversal budget. *)
Fixpoint check_presence_loop (fuel : nat) (ptr index x : Z) : M bool :=
  match fuel with
  | O => fun _ => Timeout
  | S f =>
      if x =? ptr then ret true
      else
        do x' <- load (next_field x);
        do h <- get_head index;
        if x' =? h then ret false
        else check_presence_loop f ptr index x'
  end.

Definition traversal_budget : M nat :=
  fun s => Ok (Z.to_nat (heap_brk s - heap_lo s)) s.

Definition check_presence (ptr index : Z) : M bool :=
  do h <- get_head index;
  if h =? 0 then ret false
  else
    do fuel <- traversal_budget;
    check_presence_loop fuel ptr index h.

Definition addnode (ptr : Z) : M unit :=
  let newnode := ptr in
  do size <- get_size (n2h ptr);
  let index := get_index size in
  do h <- get_head index;
  if h =? 0 then
    set_head index newnode ;;
    store (prev_field newnode) newnode ;;
    store (next_field newnode) newnode
  else
    let first := h in
    do fp <- load (prev_field first);
    store (prev_field newnode) fp ;;
    store (next_field newnode) first ;;
    do fp' <- load (prev_field first);
    store (next_field fp') newnode ;;
    store (prev_field first) newnode.

Definition removenode (ptr index : Z) : M unit :=
  let freeblock := ptr in
  do nx <- load (next_field freeblock);
  do h <- get_head index;
  if (freeblock =? nx) && (h =? freeblock) then
    set_head index 0
  else
    (if h =? freeblock then set_head index nx else ret tt) ;;
    do pv <- load (prev_field freeblock);
    do nx' <- load (next_field freeblock);
    store (next_field pv) nx' ;;
    do nx'' <- load (next_field freeblock);
    do pv' <- load (prev_field freeblock);
    store (prev_field nx'') pv'.

Definition free_hf (ptr : Z) : M Z :=
  let prev_footer := decr ptr w in
  do f <- get_f ptr;
  let next_header := incr f w in
  do prev <- get_prev_alloc ptr;
  do next <- is_alloc next_header;
  do curr_size <- get_size ptr;
  do prev_size <- get_size prev_footer;
  do next_size <- get_size next_header;
  let prev_index := get_index prev_size in
  let next_index := get_index next_size in
  do ptr' <-
    (if (prev =? 0) && (next =? 0) then
       do prev_header <- get_h prev_footer;
       let prev_node := h2n prev_header in
       let next_node := h2n next_header in
       removenode prev_node prev_index ;;
       removenode next_node next_index ;;
       let size := wrap (wrap (curr_size + prev_size) + next_size) in
       do pa <- get_prev_alloc prev_header;
       make_h prev_header size pa 0 ;;
       do nf <- get_f next_header;
       make_f nf size 0 ;;
       get_h prev_footer
     else if (prev =? 0) && (next =? 1) then
       do ph <- get_h prev_footer;
       let prev_node := h2n ph in
       removenode prev_node prev_index ;;
       let size := wrap (curr_size + prev_size) in
       do ph1 <- get_h prev_footer;
       do ph2 <- get_h prev_footer;
       do pa <- get_prev_alloc ph2;
       make_h ph1 size pa 0 ;;
       do cf <- get_f ptr;
       make_f cf size 0 ;;
       free_prev_alloc next_header ;;
       get_h prev_footer
     else if (prev =? 1) && (next =? 0) then
       let next_node := h2n next_header in
       removenode next_node next_index ;;
       let size := wrap (curr_size + next_size) in
       make_h ptr size 1 0 ;;
       do nf <- get_f next_header;
       make_f nf size 0 ;;
       ret ptr
     else
       let size :=
         wrap (curr_size + 0 * next_index + 0 * prev_index * next * prev) in
       make_h ptr size 1 0 ;;
       do cf <- get_f ptr;
       make_f cf size 0 ;;
       do cf' <- get_f ptr;
       free_prev_alloc (incr cf' w) ;;
       ret ptr);
  let node := h2n ptr' in
  addnode node ;;
  ret node.

Definition mm_init : M bool :=
  do ptr <- mm_sbrk (align (4 * w));
  head_init ;;
  make_hf (incr ptr 8) (2 * w) 0 1 ;;
  make_epi (incr ptr (3 * w)) ;;
  if ptr =? 0 then ret false else ret true.

Definition allocate (ptr block_size : Z) : M Z :=
  do total_size <- get_size ptr;
  let newblock_size := wrap (total_size - block_size) in
  (if newblock_size >=? 4 * w then
     let end_hptr := incr ptr block_size in
     do end_fptr <- get_f ptr;
     do pa <- get_prev_alloc ptr;
     make_h ptr block_size pa 1 ;;
     make_h end_hptr newblock_size 1 0 ;;
     make_f end_fptr newblock_size 0 ;;
     addnode (h2n end_hptr)
   else
     do pa <- get_prev_alloc ptr;
     make_h ptr total_size pa 1 ;;
     set_prev_alloc (incr ptr total_size) ;;
     ret tt) ;;
  ret (incr ptr w).

(** The do-while of [get_freeblock] over one list, with a traversal budget:
    [Some x] when a fitting node was found and unlinked. *)
Fixpoint get_freeblock_loop (fuel : nat) (block_size i x : Z)
  : M (option Z) :=
  match fuel with
  | O => fun _ => Timeout
  | S f =>
      let header := n2h x in
      do sz <- get_size header;
      if sz >=? block_size then
        removenode x i ;;
        ret (Some x)
      else
        do x' <- load (next_field x);
        do h <- get_head i;
        if x' =? h then ret None
        else get_freeblock_loop f block_size i x'
  end.

(** The for loop of [get_freeblock]: [n] classes remain, starting at [i]. *)
Fixpoint get_freeblock_from (n : nat) (fuel : nat) (block_size i : Z)
  : M Z :=
  match n with
  | O => ret 0
  | S n' =>
      do h <- get_head i;
      if h =? 0 then get_freeblock_from n' fuel block_size (i + 1)
      else
        do r <- get_freeblock_loop fuel block_size i h;
        match r with
        | Some x => ret x
        | None => get_freeblock_from n' fuel block_size (i + 1)
        end
  end.

Definition get_freeblock (block_size : Z) : M Z :=
  let index := get_index block_size in
  do fuel <- traversal_budget;
  get_freeblock_from (Z.to_nat (maxindex - index)) fuel block_size index.

Definition extend (block_size : Z) : M Z :=
  do hi <- mm_heap_hi;
  do prev_alloc <- get_prev_alloc (decr hi (w - 1));
  do new_ptr <- mm_sbrk block_size;
  (if new_ptr =? 0 then ret tt
   else
     make_h (decr new_ptr w) block_size prev_alloc 1 ;;
     make_epi (incr new_ptr (wrap (block_size - w))) ;;
     ret tt) ;;
  ret new_ptr.

Definition finder (ptr block_size : Z) : M Z :=
  do freeblock <- get_freeblock block_size;
  if freeblock =? 0 then extend block_size
  else
    let ptr := n2h freeblock in
    allocate ptr block_size.

Definition malloc (size : Z) : M Z :=
  do lo <- mm_heap_lo;
  let ptr := incr lo 8 in
  finder ptr (normalize size).

Definition free (ptr : Z) : M unit :=
  if ptr =? 0 then ret tt
  else free_hf (n2h ptr) ;; ret tt.

Definition realloc (oldptr size : Z) : M Z :=
  if oldptr =? 0 then malloc size
  else if size =? 0 then free oldptr ;; ret 0
  else
    do newptr <- malloc size;
    do oldsize <- get_size (decr oldptr w);
    let minsize := if size >? oldsize then oldsize else size in
    memcpy newptr oldptr minsize ;;
    ret newptr.

Definition calloc (nmemb size : Z) : M Z :=
  let size := wrap (size * nmemb) in
  do ptr <- malloc size;
  (if ptr =? 0 then ret tt else memset ptr 0 size ;; ret tt) ;;
  ret ptr.

(** [aligned]: the pointer, as a [size_t], is a fixed point of [align]. *)
Definition aligned (p : Z) : bool := align p =? p.

(** [in_heap]: between the provider's two bounds, both inclusive. *)
Definition in_heap (p : Z) : M bool :=
  do hi <- mm_heap_hi;
  do lo <- mm_heap_lo;
  ret ((p <=? hi) && (p >=? lo)).

(** ** A first scenario, for evaluation *)

(** A provider whose region starts at [lo] and may grow to [lo + room]. *)
Definition fresh (lo room : Z) : mstate :=
  MState lo lo (lo + room) ∅ [].

(** * The heap as a sequence of blocks *)

(** The header word of a block: size in bits 4 and up, [prev_alloc] in
    bit 1, [alloc] in bit 0. *)
Definition hdr (sz : Z) (pa al : bool) : Z := sz + 2 * Z.b2z pa + Z.b2z al.

(** A block of the tiling: its size and whether it is allocated. *)
Definition block : Type := (Z * bool)%type.

Fixpoint total (bs : list block) : Z :=
  match bs with
  | [] => 0
  | b :: r => fst b + total r
  end.

(** The allocation bit the header following [bs] must record. *)
Fixpoint last_alloc (pa : bool) (bs : list block) : bool :=
  match bs with
  | [] => pa
  | b :: r => last_alloc (snd b) r
  end.

(** [seg m a pa bs]: the blocks [bs] are laid out in [m] from address [a],
    the first one recording [pa] as its predecessor's allocation bit; sizes
    are multiples of 16, at least 32, and free blocks end with a footer. *)
Fixpoint seg (m : gmap Z Z) (a : Z) (pa : bool) (bs : list block) : Prop :=
  match bs with
  | [] => True
  | (sz, al) :: r =>
      load64 m a = hdr sz pa al /\
      32 <= sz /\ sz mod 16 = 0 /\
      (al = false -> load64 m (a + sz - 8) = sz) /\
      seg m (a + sz) al r
  end.

(** [block_at a bs h sz al]: in the layout of [bs] from [a], a block of
    size [sz] and allocation bit [al] starts at [h]. *)
Fixpoint block_at (a : Z) (bs : list block) (h sz : Z) (al : bool) : Prop :=
  match bs with
  | [] => False
  | (s0, a0) :: r =>
      (h = a /\ sz = s0 /\ al = a0) \/ block_at (a + s0) r h sz al
  end.

(** The addresses of the blocks laid out from [a]. *)
Fixpoint block_addrs (a : Z) (bs : list block) : list Z :=
  match bs with
  | [] => []
  | b :: r => a :: block_addrs (a + fst b) r
  end.

(** Sizes are multiples of 16, at least 32. *)
Definition sized (bs : list block) : Prop :=
  Forall (fun b => 32 <= fst b /\ fst b mod 16 = 0) bs.

(** The header word that starts the layout of [bs]: that of its first
    block, or the epilogue's when [bs] is empty. *)
Definition first_hdr (pa : bool) (bs : list block) : Z :=
  match bs with
  | [] => hdr 0 pa true
  | (sz, al) :: _ => hdr sz pa al
  end.

(** Size and allocation bit of that header. *)
Definition next_size (bs : list block) : Z :=
  match bs with
  | [] => 0
  | (sz, _) :: _ => sz
  end.

Definition next_alloc (bs : list block) : bool :=
  match bs with
  | [] => true
  | (_, al) :: _ => al
  end.

(** [tail m a pa bs e]: [bs] is laid out from [a] and ends at the epilogue
    header, at [e]. *)
Definition tail (m : gmap Z Z) (a : Z) (pa : bool) (bs : list block) (e : Z)
  : Prop :=
  seg m a pa bs /\ a + total bs = e /\
  load64 m e = hdr 0 (last_alloc pa bs) true.

(** No two neighbours are both free ([prev]: the bit of the block before),
    as the walk of [mm_checkheap] checks it. *)
Fixpoint no_adjacent_free (prev : bool) (bs : list block) : bool :=
  match bs with
  | [] => true
  | (_, al) :: r => (prev || al) && no_adjacent_free al r
  end.

(** ** The state *)

Definition valid (s : mstate) (a : Z) : Prop :=
  heap_lo s <= a /\ a + 8 <= heap_brk s.

Definition head_at (s : mstate) (c : Z) : Z :=
  default 0 (head s !! Z.to_nat c).

(** The first block follows the padding word and the prologue. *)
Definition first_block (s : mstate) : Z := heap_lo s + 24.

(** The region is tiled by [bs] up to the epilogue. *)
Record Tiled (s : mstate) (bs : list block) : Prop := {
  t_lo : 0 < heap_lo s;
  t_max : heap_brk s <= heap_max s /\ heap_max s <= modulus;
  t_heads : length (head s) = 16%nat;
  t_seg : seg (mem s) (first_block s) true bs;
  t_end : first_block s + total bs = heap_brk s - 8;
  t_epi : load64 (mem s) (heap_brk s - 8) = hdr 0 (last_alloc true bs) true
}.

(** ** Circular doubly-linked lists *)

Definition nxt (m : gmap Z Z) (x : Z) : Z := load64 m (x + 8).
Definition prv (m : gmap Z Z) (x : Z) : Z := load64 m x.

(** [chain m x l]: following [next] from [x] visits [l], and [prev] leads
    back. *)
Fixpoint chain (m : gmap Z Z) (x : Z) (l : list Z) : Prop :=
  match l with
  | [] => True
  | y :: r => nxt m x = y /\ prv m y = x /\ chain m y r
  end.

Definition cyc (m : gmap Z Z) (l : list Z) : Prop :=
  match l with
  | [] => True
  | x :: r => chain m x (r ++ [x])
  end.

(** A list head: null for the empty list, else the first node of a cycle. *)
Definition dll (m : gmap Z Z) (h : Z) (l : list Z) : Prop :=
  match l with
  | [] => h = 0
  | x :: _ => h = x
  end /\ cyc m l.

(** Two nodes are the same or their link words do not overlap. *)
Definition apart (x y : Z) : Prop := x = y \/ x + 16 <= y \/ y + 16 <= x.

(** The lists after one class was replaced. *)
Definition upd (L : Z -> list Z) (c : Z) (l : list Z) : Z -> list Z :=
  fun c' => if Z.eq_dec c' c then l else L c'.

(** The sixteen lists hold free blocks of the tiling, each in the class of
    its size, none twice. *)
Record Lists (s : mstate) (bs : list block) (L : Z -> list Z) : Prop := {
  l_dll : forall c, 0 <= c < 16 -> dll (mem s) (head_at s c) (L c);
  l_nodup : forall c, 0 <= c < 16 -> NoDup (L c);
  l_sound : forall c x, 0 <= c < 16 -> x ∈ L c ->
      exists sz, block_at (first_block s) bs (x - 8) sz false /\
                 get_index sz = c
}.

(** Every free block is a node of the list of its class. *)
Definition Complete (s : mstate) (bs : list block) (L : Z -> list Z) : Prop :=
  forall h sz, block_at (first_block s) bs h sz false ->
               (h + 8) ∈ L (get_index sz).

(** The invariants of the data model, with the block sequence and the node
    sequences they speak of. *)
Record InvAt (s : mstate) (bs : list block) (L : Z -> list Z) : Prop := {
  inv_tiled : Tiled s bs;
  inv_coalesced : no_adjacent_free true bs = true;
  inv_lists : Lists s bs L;
  inv_complete : Complete s bs L
}.

Definition Inv (s : mstate) : Prop := exists bs L, InvAt s bs L.

(** The walk of [mm_checkheap] over the blocks, from the first block after
    the prologue to the epilogue (size 0): sizes and alloc bits as the
    headers give them, read with the accessors of the source. *)
Fixpoint heap_walk (fuel : nat) (ptr : Z) : M (list block) :=
  match fuel with
  | O => fun _ => Timeout
  | S f =>
      do block_size <- get_size ptr;
      if block_size =? 0 then ret []
      else
        do al <- is_alloc ptr;
        do rest <- heap_walk f (incr ptr block_size);
        ret ((block_size, al =? 1) :: rest)
  end.

Definition walk (s : mstate) : outcome (list block) :=
  (do fuel <- traversal_budget; heap_walk fuel (first_block s)) s.

(** The heap has no two neighbouring free blocks between the prologue and
    the epilogue. *)
Definition fully_coalesced (s : mstate) : Prop :=
  exists bs, walk s = Ok bs s /\ no_adjacent_free true bs = true.

(** ** Single operations *)

(** The state [extend] leaves when the provider granted [n] bytes. *)
Definition extended (s : mstate) (n : Z) : mstate :=
  let Q := Z.testbit (load64 (mem s) (heap_brk s - 8)) 1 in
  MState (heap_lo s) (heap_brk s + n) (heap_max s)
    (store64 (store64 (mem s) (heap_brk s - 8) (hdr n Q true))
             (heap_brk s + n - 8) (hdr 0 true true))
    (head s).

(** What one application of a bit mutation [f] to the header at [ptr] does,
    and that a second application changes nothing. *)
Definition idempotent_on_header (f : Z -> M Z) (s : mstate) (ptr : Z) : Prop :=
  exists r s1,
    f ptr s = Ok r s1 /\
    load64 (mem s1) ptr = r /\
    f ptr s1 = Ok r s1 /\
    (forall i, 4 <= i -> Z.testbit r i = Z.testbit (load64 (mem s) ptr) i) /\
    Z.testbit r 0 = Z.testbit (load64 (mem s) ptr) 0.

(** What a successful search leaves: a node of a fitting free block was
    taken out of its list, and nothing else changed. *)
Definition unlinked (s : mstate) (bs : list block) (L : Z -> list Z)
    (n x : Z) (s' : mstate) : Prop :=
  exists c sz L',
    0 <= c < 16 /\ x ∈ L c /\
    block_at (first_block s) bs (x - 8) sz false /\ n <= sz /\
    heap_lo s' = heap_lo s /\ heap_brk s' = heap_brk s /\
    heap_max s' = heap_max s /\
    Tiled s' bs /\ Lists s' bs L' /\
    (forall c' y, 0 <= c' < 16 -> (y ∈ L' c' <-> y ∈ L c' /\ y <> x)).

(** What a successful [malloc] leaves. *)
Definition allocated (s : mstate) (bs : list block) (size r : Z) (s' : mstate)
  : Prop :=
  exists bs' L' szr,
    InvAt s' bs' L' /\
    heap_lo s' = heap_lo s /\
    block_at (first_block s') bs' (r - 8) szr true /\
    normalize size <= szr /\
    (forall h sz, block_at (first_block s) bs h sz true ->
                  block_at (first_block s') bs' h sz true).

(** What [allocate] leaves of the block at [h], of size [S], that was chosen
    for a request [n]; [pa] is the prev_alloc bit of its header and [b2] the
    blocks after it. *)
Definition placed (s' : mstate) (L' : Z -> list Z)
    (h S n : Z) (pa : bool) (b2 : list block) : Prop :=
  if 32 <=? S - n then
    load64 (mem s') h = hdr n pa true /\
    load64 (mem s') (h + n) = hdr (S - n) true false /\
    load64 (mem s') (h + S - 8) = S - n /\
    (h + n + 8) ∈ L' (get_index (S - n)) /\
    check_presence (h + n + 8) (get_index (S - n)) s' = Ok true s'
  else
    load64 (mem s') h = hdr S pa true /\
    load64 (mem s') (h + S) = first_hdr true b2.

(** ** Public calls *)

Inductive call : Type :=
| Malloc (size : Z)
| Free (ptr : Z)
| Realloc (oldptr size : Z)
| Calloc (nmemb size : Z).

Definition run (c : call) : M Z :=
  match c with
  | Malloc size => malloc size
  | Free ptr => free ptr ;; ret 0
  | Realloc oldptr size => realloc oldptr size
  | Calloc nmemb size => calloc nmemb size
  end.

(** [ptr] is the payload of an allocated block. *)
Definition live (s : mstate) (bs : list block) (ptr : Z) : Prop :=
  exists sz, block_at (first_block s) bs (ptr - 8) sz true.

(** What the C contract asks of the caller: [size_t] arguments, and
    pointers that are null or live. *)
Definition valid_call (s : mstate) (bs : list block) (c : call) : Prop :=
  match c with
  | Malloc size => 0 <= size < modulus
  | Free ptr => ptr = 0 \/ live s bs ptr
  | Realloc oldptr size =>
      0 <= size < modulus /\ (oldptr = 0 \/ live s bs oldptr)
  | Calloc nmemb size => 0 <= nmemb < modulus /\ 0 <= size < modulus
  end.

(** The request of a copying [realloc] is small enough for [size + 8] and
    the rounding to stay below 2^64. *)
Definition no_wrap (c : call) : Prop :=
  match c with
  | Realloc oldptr size => oldptr <> 0 -> size + 24 <= modulus
  | _ => True
  end.

(** The two ways a call on a heap in order can fault: [realloc] copies to
    the null pointer a missed [malloc] returned, and [calloc] clears more
    bytes than the block it got for a wrapped request has. *)
Definition defect_fault (c : call) (s : mstate) : Prop :=
  match c with
  | Realloc oldptr size =>
      oldptr <> 0 /\ size <> 0 /\ malloc size s = Ok 0 s
  | Calloc nmemb size => modulus < wrap (size * nmemb) + 24
  | _ => False
  end.

(** ** Payloads *)

(** [kept a bs m m']: in the layout of [bs] from [a], the payload bytes of
    the allocated blocks are in [m'] what they were in [m]. *)
Definition kept (a : Z) (bs : list block) (m m' : gmap Z Z) : Prop :=
  forall h sz x, block_at a bs h sz true -> h + 8 <= x < h + sz ->
                 byte_at m' x = byte_at m x.

(** * Scenarios *)

(** The state a computation leaves ([s] itself if it does not return). *)
Definition after {A} (c : M A) (s : mstate) : mstate :=
  match c s with
  | Ok _ s' => s'
  | _ => s
  end.

(** An initialised heap at 4096 with room for 4096 bytes. *)
Definition s_init : mstate := after mm_init (fresh 4096 4096).

(** One 32-byte block allocated; its payload is at 4128. *)
Definition s_one : mstate := after (malloc 24) s_init.

(** The same on a provider that is exhausted after that block. *)
Definition s_full : mstate := after (malloc 24) (after mm_init (fresh 4096 64)).

(** Blocks a (48 bytes), f, c, d (32 bytes each) allocated, then f and d
    freed, and the word 32 stored by the caller at offset 24 of a's payload. *)
Definition s_four : mstate :=
  after (malloc 40 ;; malloc 24 ;; malloc 24 ;; malloc 24 ;;
         free 4176 ;; free 4240 ;; store (4128 + 24) 32) s_init.

(** A 112-byte block allocated and freed, then found again by the search
    for 32 bytes, which takes its node off the list: the state in which
    [allocate] is called on it. *)
Definition s_unlinked : mstate :=
  after (malloc 100 ;; free 4128 ;; get_freeblock 32) s_init.

(** The block sequences of those heaps. *)
Definition bs_one : list block := [(32, true)].
Definition bs_four : list block :=
  [(48, true); (32, false); (32, true); (32, false)].

(** The node sequences of their free lists: none in [s_one]; in [s_four]
    the two free 32-byte blocks are on the list of class 0. *)
Definition no_nodes : Z -> list Z := fun _ => [].
Definition nodes_four : Z -> list Z :=
  fun c => if c =? 0 then [4176; 4240] else [].

(** The words of the region, for inspection. *)
Definition words (s : mstate) : list Z :=
  map (fun i => load64 (mem s) (heap_lo s + 8 * Z.of_nat i))
      (seq 0 (Z.to_nat ((heap_brk s - heap_lo s) / 8))).

(** A heap of one word at 4096 holding [0x35]: both mutations apply. *)
Definition one_word_heap : mstate :=
  MState 4096 4104 4104 (store64 ∅ 4096 53) [].

(** * Properties *)

(** ** Words and bit masks *)

Lemma wrap_range z : 0 <= wrap z < modulus.
Proof. unfold wrap, modulus. apply Z.mod_pos_bound. lia. Qed.

Lemma wrap_small z : 0 <= z < modulus -> wrap z = z.
Proof. intros H. unfold wrap. apply Z.mod_small. exact H. Qed.

Lemma wrap_idem z : wrap (wrap z) = wrap z.
Proof. apply wrap_small, wrap_range. Qed.

Lemma modulus_eq : modulus = 18446744073709551616.
Proof. reflexivity. Qed.

(** A multiple of [2^n] and a value below [2^n] share no bit. *)
Lemma land_high_low n q r :
  0 <= n -> 0 <= r < 2 ^ n -> Z.land (2 ^ n * q) r = 0.
Proof.
  intros Hn Hr. apply Z.bits_inj_0. intros i.
  rewrite Z.land_spec.
  destruct (Z_lt_dec i 0) as [Hi | Hi].
  - rewrite (Z.testbit_neg_r _ i Hi). reflexivity.
  - destruct (Z_lt_dec i n) as [Hlt | Hge].
    + rewrite Z.mul_comm, Z.mul_pow2_bits_low by lia. reflexivity.
    + assert (Hrb : Z.testbit r i = false).
      { destruct (Z.eq_dec r 0) as [-> | Hr0]; [apply Z.bits_0 |].
        apply Z.bits_above_log2; [lia |].
        apply Z.log2_lt_pow2; [lia |].
        assert (2 ^ n <= 2 ^ i) by (apply Z.pow_le_mono_r; lia). lia. }
      rewrite Hrb. apply andb_false_r.
Qed.

Lemma lor_high_low n q r :
  0 <= n -> 0 <= r < 2 ^ n -> Z.lor (2 ^ n * q) r = 2 ^ n * q + r.
Proof.
  intros Hn Hr. pose proof (land_high_low n q r Hn Hr) as H0.
  rewrite (Z.add_nocarry_lxor _ _ H0). symmetry. apply Z.lxor_lor, H0.
Qed.

(** The size mask [~0xf] clears the four low bits of a word. *)
Lemma land_mask15 v :
  0 <= v < modulus -> Z.land v (mask_not 15) = 16 * (v / 16).
Proof.
  intros Hv.
  replace (mask_not 15) with (Z.land (Z.ones 64) (Z.lnot (Z.ones 4)))
    by reflexivity.
  rewrite Z.land_assoc, Z.land_ones by lia.
  change (2 ^ 64) with modulus. rewrite Z.mod_small by lia.
  rewrite <- Z.ldiff_land.
  rewrite Z.ldiff_ones_r by lia.
  rewrite Z.shiftl_mul_pow2, Z.shiftr_div_pow2 by lia.
  change (2 ^ 4) with 16. lia.
Qed.

Lemma land_shiftr1 v : Z.land (Z.shiftr v 1) 1 = (v / 2) mod 2.
Proof.
  change 1 with (Z.ones 1) at 2. rewrite Z.land_ones by lia.
  rewrite Z.shiftr_div_pow2 by lia. reflexivity.
Qed.

(** Decomposition of a word into its part above bit 1 and its two low bits. *)
Lemma low2_cases v :
  exists q r, v = 2 ^ 2 * q + r /\ (r = 0 \/ r = 1 \/ r = 2 \/ r = 3).
Proof.
  exists (v / 4), (v mod 4). change (2 ^ 2) with 4.
  pose proof (Z.div_mod v 4 ltac:(lia)).
  pose proof (Z.mod_pos_bound v 4 ltac:(lia)). lia.
Qed.

Lemma lor_2 v : Z.lor v 2 = v + 2 - 2 * ((v / 2) mod 2).
Proof.
  destruct (low2_cases v) as (q & r & -> & Hr).
  rewrite <- (lor_high_low 2 q r) by (change (2 ^ 2) with 4; lia).
  rewrite <- Z.lor_assoc.
  destruct Hr as [-> | [-> | [-> | ->]]];
    match goal with
    | |- context [Z.lor ?a 2] =>
        let c := eval vm_compute in (Z.lor a 2) in
        change (Z.lor a 2) with c
    end;
    rewrite !lor_high_low by (change (2 ^ 2) with 4; lia);
    change (2 ^ 2) with 4; Z.div_mod_to_equations; lia.
Qed.

Lemma land_mask2 v :
  0 <= v < modulus -> Z.land v (mask_not 2) = v - 2 * ((v / 2) mod 2).
Proof.
  intros Hv.
  replace (mask_not 2) with (Z.land (Z.ones 64) (Z.lnot 2)) by reflexivity.
  rewrite Z.land_assoc, Z.land_ones by lia.
  change (2 ^ 64) with modulus. rewrite Z.mod_small by lia.
  rewrite <- Z.ldiff_land.
  assert (H2 : Z.land (Z.ldiff v 2) (Z.land v 2) = 0).
  { apply Z.bits_inj_0. intros i.
    rewrite !Z.land_spec, Z.ldiff_spec.
    destruct (Z.testbit v i), (Z.testbit 2 i); reflexivity. }
  assert (H3 : Z.ldiff v 2 + Z.land v 2 = v).
  { rewrite (Z.add_nocarry_lxor (Z.ldiff v 2) (Z.land v 2) H2).
    rewrite (Z.lxor_lor (Z.ldiff v 2) (Z.land v 2) H2).
    apply Z.lor_ldiff_and. }
  assert (H4 : Z.land v 2 = 2 * ((v / 2) mod 2)).
  { pose proof (Z.add_lxor_2land v 2) as Ha.
    pose proof (Z.sub_2lor_lxor v 2) as Hb.
    pose proof (lor_2 v). lia. }
  lia.
Qed.

(** ** Bytes and words in memory *)

Lemma byte_at_range m a : 0 <= byte_at m a < 256.
Proof. unfold byte_at. apply Z.mod_pos_bound. lia. Qed.

Lemma byte_at_insert m a b x :
  byte_at (<[a := b]> m) x = if decide (a = x) then b mod 256 else byte_at m x.
Proof.
  unfold byte_at. destruct (decide (a = x)) as [-> | Hne].
  - rewrite lookup_insert_eq. reflexivity.
  - rewrite lookup_insert_ne by exact Hne. reflexivity.
Qed.

Lemma byte_at_store_bytes_out n : forall m a v x,
  x < a \/ a + Z.of_nat n <= x ->
  byte_at (store_bytes m a n v) x = byte_at m x.
Proof.
  induction n as [| k IH]; intros m a v x Hx; simpl; [reflexivity |].
  rewrite IH by lia. rewrite byte_at_insert.
  destruct (decide (a = x)); [lia | reflexivity].
Qed.

Lemma load_bytes_ext n : forall m m' a,
  (forall x, a <= x < a + Z.of_nat n -> byte_at m' x = byte_at m x) ->
  load_bytes m' a n = load_bytes m a n.
Proof.
  induction n as [| k IH]; intros m m' a H; simpl; [reflexivity |].
  rewrite (H a) by lia. rewrite (IH m m' (a + 1)); [reflexivity |].
  intros x Hx. apply H. lia.
Qed.

Lemma load_bytes_range n : forall m a, 0 <= load_bytes m a n < 256 ^ Z.of_nat n.
Proof.
  induction n as [| k IH]; intros m a.
  - simpl. lia.
  - simpl load_bytes. rewrite Nat2Z.inj_succ, Z.pow_succ_r by lia.
    pose proof (byte_at_range m a). pose proof (IH m (a + 1)). lia.
Qed.

Lemma load_store_bytes n : forall m a v,
  load_bytes (store_bytes m a n v) a n = v mod 256 ^ Z.of_nat n.
Proof.
  induction n as [| k IH]; intros m a v.
  - simpl. rewrite Z.mod_1_r. reflexivity.
  - simpl. rewrite IH. rewrite byte_at_store_bytes_out by lia.
    rewrite byte_at_insert. destruct (decide (a = a)); [| congruence].
    rewrite Z.mod_mod by lia.
    change (256 ^ Z.pos (Pos.of_succ_nat k)) with (256 ^ Z.of_nat (S k)).
    rewrite Nat2Z.inj_succ, Z.pow_succ_r by lia.
    rewrite Z.rem_mul_r by lia. reflexivity.
Qed.

Lemma load64_range m a : 0 <= load64 m a < modulus.
Proof. apply (load_bytes_range 8). Qed.

Lemma load64_store64_eq m a v : load64 (store64 m a v) a = wrap v.
Proof. apply (load_store_bytes 8). Qed.

Lemma byte_at_store64_out m a v x :
  x < a \/ a + 8 <= x -> byte_at (store64 m a v) x = byte_at m x.
Proof. intros H. apply byte_at_store_bytes_out. simpl. lia. Qed.

Lemma load64_ext m m' a :
  (forall x, a <= x < a + 8 -> byte_at m' x = byte_at m x) ->
  load64 m' a = load64 m a.
Proof. intros H. apply load_bytes_ext. simpl. exact H. Qed.

Lemma load64_store64_ne m a v b :
  b + 8 <= a \/ a + 8 <= b -> load64 (store64 m a v) b = load64 m b.
Proof.
  intros H. apply load64_ext. intros x Hx.
  apply byte_at_store64_out. lia.
Qed.

Lemma byte_at_copy_out n : forall m dst src x,
  x < dst \/ dst + Z.of_nat n <= x ->
  byte_at (copy_bytes m dst src n) x = byte_at m x.
Proof.
  induction n as [| k IH]; intros m dst src x Hx; simpl; [reflexivity |].
  rewrite IH by lia. rewrite byte_at_insert.
  destruct (decide (dst = x)); [lia | reflexivity].
Qed.

Lemma byte_at_fill_out n : forall m dst c x,
  x < dst \/ dst + Z.of_nat n <= x ->
  byte_at (fill_bytes m dst c n) x = byte_at m x.
Proof.
  induction n as [| k IH]; intros m dst c x Hx; simpl; [reflexivity |].
  rewrite IH by lia. rewrite byte_at_insert.
  destruct (decide (dst = x)); [lia | reflexivity].
Qed.

Lemma byte_at_fill_in n : forall m dst c x,
  dst <= x < dst + Z.of_nat n ->
  byte_at (fill_bytes m dst c n) x = c mod 256.
Proof.
  induction n as [| k IH]; intros m dst c x Hx; simpl; [lia |].
  destruct (Z.eq_dec x dst) as [-> | Hne].
  - rewrite byte_at_fill_out by lia. rewrite byte_at_insert.
    destruct (decide (dst = dst)); [| congruence]. apply Z.mod_mod. lia.
  - apply IH. lia.
Qed.

Lemma store_bytes_insert_comm k : forall m a v b c,
  b < a -> store_bytes (<[b := c]> m) a k v = <[b := c]> (store_bytes m a k v).
Proof.
  induction k as [| k IH]; intros m a v b c Hb; simpl; [reflexivity |].
  rewrite <- IH by lia. f_equal. apply insert_insert_ne. lia.
Qed.

(** Writing a word twice is writing it once. *)
Lemma store_bytes_idem n : forall m a v,
  store_bytes (store_bytes m a n v) a n v = store_bytes m a n v.
Proof.
  induction n as [| k IH]; intros m a v; simpl; [reflexivity |].
  rewrite (store_bytes_insert_comm k m) by lia.
  rewrite insert_insert_eq.
  rewrite (store_bytes_insert_comm k (store_bytes _ _ _ _)) by lia.
  rewrite IH. reflexivity.
Qed.

Lemma store64_idem m a v : store64 (store64 m a v) a v = store64 m a v.
Proof. apply store_bytes_idem. Qed.

(** ** The header codec *)

Ltac zlia := Z.div_mod_to_equations; lia.

Lemma hdr_range sz pa al :
  0 <= sz -> sz + 3 < modulus -> 0 <= hdr sz pa al < modulus.
Proof. unfold hdr. destruct pa, al; simpl Z.b2z; lia. Qed.

Lemma hdr_size sz pa al :
  sz mod 16 = 0 -> 16 * (hdr sz pa al / 16) = sz.
Proof. unfold hdr. destruct pa, al; simpl Z.b2z; zlia. Qed.

Lemma hdr_prev sz pa al :
  sz mod 16 = 0 -> (hdr sz pa al / 2) mod 2 = Z.b2z pa.
Proof. unfold hdr. destruct pa, al; simpl Z.b2z; zlia. Qed.

Lemma hdr_alloc sz pa al :
  sz mod 16 = 0 -> hdr sz pa al mod 2 = Z.b2z al.
Proof. unfold hdr. destruct pa, al; simpl Z.b2z; zlia. Qed.

Lemma hdr_encode sz pa al :
  sz mod 16 = 0 ->
  Z.lor (Z.lor sz (Z.b2z al)) (Z.shiftl (Z.b2z pa) 1) = hdr sz pa al.
Proof.
  intros Hsz. unfold hdr.
  assert (Hk : sz = 2 ^ 4 * (sz / 16)) by (change (2 ^ 4) with 16; zlia).
  rewrite Hk at 1. rewrite <- Z.lor_assoc.
  rewrite lor_high_low; [| lia | destruct pa, al; vm_compute; intuition congruence].
  rewrite <- Hk. destruct pa, al; vm_compute Z.lor; simpl Z.b2z; lia.
Qed.

Lemma hdr_set_prev sz pa al :
  sz mod 16 = 0 -> Z.lor (hdr sz pa al) 2 = hdr sz true al.
Proof.
  intros Hsz. rewrite lor_2, hdr_prev by exact Hsz.
  unfold hdr. destruct pa, al; simpl Z.b2z; lia.
Qed.

Lemma hdr_clear_prev sz pa al :
  sz mod 16 = 0 -> 0 <= sz -> sz + 3 < modulus ->
  Z.land (hdr sz pa al) (mask_not 2) = hdr sz false al.
Proof.
  intros Hsz H0 H1. rewrite land_mask2 by (apply hdr_range; lia).
  rewrite hdr_prev by exact Hsz.
  unfold hdr. destruct pa, al; simpl Z.b2z; lia.
Qed.

Lemma hdr_get_size sz pa al :
  sz mod 16 = 0 -> 0 <= sz -> sz + 3 < modulus ->
  Z.land (hdr sz pa al) (mask_not 15) = sz.
Proof.
  intros Hsz H0 H1. rewrite land_mask15 by (apply hdr_range; lia).
  apply hdr_size, Hsz.
Qed.

Lemma footer_encode sz : Z.lor sz 0 = sz.
Proof. apply Z.lor_0_r. Qed.

Lemma hdr_footer sz : hdr sz false false = sz.
Proof. unfold hdr. simpl. lia. Qed.

(** ** Running the primitives *)

Lemma bind_ok {A B} (c : M A) (k : A -> M B) s a s' :
  c s = Ok a s' -> bind c k s = k a s'.
Proof. intros H. unfold bind. rewrite H. reflexivity. Qed.

Lemma bind_assoc {A B C} (c : M A) (k1 : A -> M B) (k2 : B -> M C) s :
  bind (bind c k1) k2 s = bind c (fun x => bind (k1 x) k2) s.
Proof. unfold bind. destruct (c s); reflexivity. Qed.

Lemma valid_range s a : valid s a -> in_heap_range s a 8 = true.
Proof.
  intros [H1 H2]. unfold in_heap_range.
  apply andb_true_intro. split; apply Z.leb_le; assumption.
Qed.

Lemma load_run s a : valid s a -> load a s = Ok (load64 (mem s) a) s.
Proof. intros H. unfold load. rewrite (valid_range s a H). reflexivity. Qed.

Lemma store_run s a v :
  valid s a -> store a v s = Ok tt (with_mem s (store64 (mem s) a v)).
Proof. intros H. unfold store. rewrite (valid_range s a H). reflexivity. Qed.

Lemma get_head_run s c :
  0 <= c < 16 -> get_head c s = Ok (head_at s c) s.
Proof.
  intros H. unfold get_head, maxindex.
  replace ((0 <=? c) && (c <? 16)) with true; [reflexivity |].
  symmetry. apply andb_true_intro. split; [apply Z.leb_le | apply Z.ltb_lt]; lia.
Qed.

Lemma set_head_run s c v :
  0 <= c < 16 ->
  set_head c v s = Ok tt (with_head s (<[Z.to_nat c := v]> (head s))).
Proof.
  intros H. unfold set_head, maxindex.
  replace ((0 <=? c) && (c <? 16)) with true; [reflexivity |].
  symmetry. apply andb_true_intro. split; [apply Z.leb_le | apply Z.ltb_lt]; lia.
Qed.

Lemma head_at_set s c v c' :
  0 <= c < 16 -> 0 <= c' < 16 -> length (head s) = 16%nat ->
  head_at (with_head s (<[Z.to_nat c := v]> (head s))) c' =
  if Z.eq_dec c c' then v else head_at s c'.
Proof.
  intros Hc Hc' Hlen. unfold head_at, with_head. simpl.
  destruct (Z.eq_dec c c') as [-> | Hne].
  - rewrite list_lookup_insert_eq by lia. reflexivity.
  - rewrite list_lookup_insert_ne by lia. reflexivity.
Qed.

Lemma get_size_run s p :
  valid s p -> get_size p s = Ok (16 * (load64 (mem s) p / 16)) s.
Proof.
  intros H. unfold get_size. rewrite (bind_ok _ _ _ _ _ (load_run s p H)).
  unfold ret. rewrite land_mask15 by apply load64_range. reflexivity.
Qed.

Lemma get_prev_alloc_run s p :
  valid s p -> get_prev_alloc p s = Ok ((load64 (mem s) p / 2) mod 2) s.
Proof.
  intros H. unfold get_prev_alloc.
  rewrite (bind_ok _ _ _ _ _ (load_run s p H)).
  unfold ret. rewrite land_shiftr1. reflexivity.
Qed.

Lemma is_alloc_run s p :
  valid s p -> is_alloc p s = Ok (load64 (mem s) p mod 2) s.
Proof.
  intros H. unfold is_alloc. rewrite (bind_ok _ _ _ _ _ (load_run s p H)).
  reflexivity.
Qed.

Lemma make_h_run s p sz pa al :
  valid s p -> sz mod 16 = 0 -> 0 <= sz -> sz + 3 < modulus ->
  make_h p sz (Z.b2z pa) (Z.b2z al) s =
  Ok p (with_mem s (store64 (mem s) p (hdr sz pa al))).
Proof.
  intros H Hsz H0 H1. unfold make_h. rewrite hdr_encode by exact Hsz.
  rewrite wrap_small by (apply hdr_range; lia).
  rewrite (bind_ok _ _ _ _ _ (store_run s p _ H)). reflexivity.
Qed.

Lemma make_f_run s p sz :
  valid s p -> 0 <= sz < modulus ->
  make_f p sz 0 s = Ok p (with_mem s (store64 (mem s) p sz)).
Proof.
  intros H Hsz. unfold make_f. rewrite footer_encode, wrap_small by exact Hsz.
  rewrite (bind_ok _ _ _ _ _ (store_run s p _ H)). reflexivity.
Qed.

Lemma set_prev_alloc_run s p sz pa al :
  valid s p -> load64 (mem s) p = hdr sz pa al -> sz mod 16 = 0 ->
  set_prev_alloc p s =
  Ok (hdr sz true al) (with_mem s (store64 (mem s) p (hdr sz true al))).
Proof.
  intros H Hld Hsz. unfold set_prev_alloc.
  rewrite (bind_ok _ _ _ _ _ (load_run s p H)). rewrite Hld.
  rewrite hdr_set_prev by exact Hsz.
  rewrite (bind_ok _ _ _ _ _ (store_run s p _ H)). reflexivity.
Qed.

Lemma free_prev_alloc_run s p sz pa al :
  valid s p -> load64 (mem s) p = hdr sz pa al ->
  sz mod 16 = 0 -> 0 <= sz -> sz + 3 < modulus ->
  free_prev_alloc p s =
  Ok (hdr sz false al) (with_mem s (store64 (mem s) p (hdr sz false al))).
Proof.
  intros H Hld Hsz H0 H1. unfold free_prev_alloc.
  rewrite (bind_ok _ _ _ _ _ (load_run s p H)). rewrite Hld.
  rewrite hdr_clear_prev by assumption.
  rewrite (bind_ok _ _ _ _ _ (store_run s p _ H)). reflexivity.
Qed.

(** ** Size classes *)

Lemma get_index_table size : get_index size = table_index size.
Proof.
  unfold get_index, table_index, class_bounds. simpl first_match.
  repeat match goal with
         | |- context [?a <=? ?b] => destruct (a <=? b); [reflexivity |]
         end.
  reflexivity.
Qed.

Lemma get_index_range size : 0 <= get_index size <= 15.
Proof.
  unfold get_index.
  repeat match goal with
         | |- context [?a <=? ?b] => destruct (a <=? b); [lia |]
         end.
  lia.
Qed.

Lemma get_index_mono a b : a <= b -> get_index a <= get_index b.
Proof.
  intros Hab. unfold get_index.
  repeat match goal with
         | |- context [a <=? ?c] => destruct (Z.leb_spec a c)
         end;
  repeat match goal with
         | |- context [b <=? ?c] => destruct (Z.leb_spec b c); try lia
         end.
Qed.

(** C8: [get_index] is the first-match lookup in the sixteen-entry step
    table, it is monotone in the size, and its results lie in 0..15. *)
Theorem get_index_table_monotone :
  (forall size, get_index size = table_index size) /\
  (forall a b, a <= b -> get_index a <= get_index b) /\
  (forall size, 0 <= get_index size <= 15).
Proof.
  split; [exact get_index_table |].
  split; [exact get_index_mono | exact get_index_range].
Qed.

Lemma get_index_table_monotone_witness :
  40 <= 100 /\ get_index 40 <= get_index 100.
Proof.
  split; [lia |].
  apply (proj1 (proj2 get_index_table_monotone)). lia.
Defined.

(** ** Request normalisation *)

Lemma align_no_wrap x :
  0 <= x -> x + 15 < modulus -> align x = align_up x 16.
Proof.
  intros H0 H1. unfold align, align_up, ALIGNMENT.
  replace (x + 16 - 1) with (x + 15) by lia.
  rewrite (wrap_small (x + 15)) by lia.
  apply wrap_small. rewrite modulus_eq in *. zlia.
Qed.

Lemma normalize_no_wrap n :
  0 <= n -> n + 24 <= modulus ->
  normalize n = Z.max 32 (align_up (n + 8) 16).
Proof.
  intros H0 H1. unfold normalize, w.
  rewrite (wrap_small (n + 8)) by lia.
  rewrite align_no_wrap by lia.
  destruct (Z.ltb_spec (align_up (n + 8) 16) 32); lia.
Qed.

Lemma normalize_wrapped n :
  modulus - 24 < n < modulus -> normalize n = 32.
Proof.
  intros H. unfold normalize, w, align, ALIGNMENT, wrap.
  rewrite modulus_eq in *.
  match goal with
  | |- (if ?c <? 32 then _ else _) = _ => destruct (Z.ltb_spec c 32) as [Hc|Hc]
  end; [reflexivity |].
  exfalso. revert Hc. zlia.
Qed.

(** The normalised size is a multiple of 16, at least 32, and a [size_t]. *)
Lemma normalize_shape n :
  32 <= normalize n /\ normalize n mod 16 = 0 /\ normalize n + 15 < modulus.
Proof.
  unfold normalize, align, ALIGNMENT, wrap. rewrite modulus_eq.
  match goal with
  | |- context [if ?c <? 32 then _ else _] => destruct (Z.ltb_spec c 32)
  end; zlia.
Qed.

(** C7, as amended: for every request size [n] of at most [2^64 - 24],
    [malloc] normalises it to [max(32, align_up(n + 8, 16))]; for the larger
    sizes the [size_t] sums wrap around and the result is 32. *)
Theorem normalize_amended n :
  0 <= n < modulus ->
  normalize n =
  if n + 24 <=? modulus then Z.max 32 (align_up (n + w) ALIGNMENT) else 32.
Proof.
  intros Hn. destruct (Z.leb_spec (n + 24) modulus).
  - apply normalize_no_wrap; lia.
  - apply normalize_wrapped; lia.
Qed.

Lemma normalize_amended_witness :
  0 <= 100 < modulus /\ normalize 100 = 112.
Proof.
  split; [rewrite modulus_eq; lia |].
  rewrite (normalize_amended 100); [reflexivity |].
  rewrite modulus_eq. lia.
Defined.

(** C7, as stated, fails at [n = 2^64 - 8]: the sum [n + 8] wraps to 0 and
    the request is normalised to 32, not to [max(32, align_up(n + 8, 16))]. *)
Lemma normalize_wraps_counterexample :
  normalize (modulus - 8) <>
  Z.max 32 (align_up (modulus - 8 + w) ALIGNMENT).
Proof. vm_compute. discriminate. Qed.

(** ** The prev_alloc bit *)

Lemma testbit_2 i : i <> 1 -> Z.testbit 2 i = false.
Proof. intros H. apply (Z.pow2_bits_false 1 i). lia. Qed.

Lemma testbit_mask2 i : 0 <= i < 64 -> i <> 1 -> Z.testbit (mask_not 2) i = true.
Proof.
  intros Hi Hne.
  replace (mask_not 2) with (Z.land (Z.ones 64) (Z.lnot 2)) by reflexivity.
  rewrite Z.land_spec, Z.ones_spec_low by lia.
  rewrite Z.lnot_spec by lia. rewrite testbit_2 by exact Hne. reflexivity.
Qed.

Lemma testbit_word_high v i : 0 <= v < modulus -> 64 <= i -> Z.testbit v i = false.
Proof.
  intros Hv Hi. rewrite <- (Z.mod_small v (2 ^ 64)) by exact Hv.
  apply Z.mod_pow2_bits_high. lia.
Qed.

Lemma lor_2_range v : 0 <= v < modulus -> 0 <= Z.lor v 2 < modulus.
Proof. intros Hv. rewrite lor_2. rewrite modulus_eq in *. zlia. Qed.

Lemma land_mask2_range v :
  0 <= v < modulus -> 0 <= Z.land v (mask_not 2) < modulus.
Proof. intros Hv. rewrite land_mask2 by exact Hv. rewrite modulus_eq in *. zlia. Qed.

Lemma lor_2_bits v i : i <> 1 -> Z.testbit (Z.lor v 2) i = Z.testbit v i.
Proof.
  intros Hi. rewrite Z.lor_spec, testbit_2 by exact Hi. apply orb_false_r.
Qed.

Lemma land_mask2_bits v i :
  0 <= v < modulus -> 0 <= i -> i <> 1 ->
  Z.testbit (Z.land v (mask_not 2)) i = Z.testbit v i.
Proof.
  intros Hv Hi Hne. rewrite Z.land_spec.
  destruct (Z_lt_dec i 64) as [Hlt | Hge].
  - rewrite testbit_mask2 by lia. apply andb_true_r.
  - rewrite (testbit_word_high v i) by lia. reflexivity.
Qed.

Lemma with_mem_twice s m1 m2 : with_mem (with_mem s m1) m2 = with_mem s m2.
Proof. reflexivity. Qed.

Lemma set_prev_alloc_word s ptr :
  valid s ptr ->
  set_prev_alloc ptr s =
  Ok (Z.lor (load64 (mem s) ptr) 2)
     (with_mem s (store64 (mem s) ptr (Z.lor (load64 (mem s) ptr) 2))).
Proof.
  intros Hv. unfold set_prev_alloc.
  rewrite (bind_ok _ _ _ _ _ (load_run s ptr Hv)).
  rewrite (bind_ok _ _ _ _ _ (store_run s ptr _ Hv)). reflexivity.
Qed.

Lemma free_prev_alloc_word s ptr :
  valid s ptr ->
  free_prev_alloc ptr s =
  Ok (Z.land (load64 (mem s) ptr) (mask_not 2))
     (with_mem s (store64 (mem s) ptr (Z.land (load64 (mem s) ptr) (mask_not 2)))).
Proof.
  intros Hv. unfold free_prev_alloc.
  rewrite (bind_ok _ _ _ _ _ (load_run s ptr Hv)).
  rewrite (bind_ok _ _ _ _ _ (store_run s ptr _ Hv)). reflexivity.
Qed.


(** C9: on every header word, [set_prev_alloc] and [free_prev_alloc] are
    idempotent (a second application returns the same word and leaves the
    same state) and keep the size bits, bits 4 and up, and the alloc bit,
    bit 0, of the word. *)
Theorem prev_alloc_mutations_idempotent s ptr :
  valid s ptr ->
  idempotent_on_header set_prev_alloc s ptr /\
  idempotent_on_header free_prev_alloc s ptr.
Proof.
  intros Hv. pose proof (load64_range (mem s) ptr) as Hr.
  set (v := load64 (mem s) ptr) in *.
  split.
  - exists (Z.lor v 2), (with_mem s (store64 (mem s) ptr (Z.lor v 2))).
    assert (Hld : load64 (store64 (mem s) ptr (Z.lor v 2)) ptr = Z.lor v 2).
    { rewrite load64_store64_eq. apply wrap_small, lor_2_range, Hr. }
    split; [apply set_prev_alloc_word, Hv |].
    split; [exact Hld |].
    split.
    + rewrite set_prev_alloc_word by exact Hv. simpl mem. rewrite Hld.
      rewrite <- Z.lor_assoc, Z.lor_diag, with_mem_twice, store64_idem.
      reflexivity.
    + split; [intros i Hi | ]; apply lor_2_bits; lia.
  - exists (Z.land v (mask_not 2)),
      (with_mem s (store64 (mem s) ptr (Z.land v (mask_not 2)))).
    assert (Hld : load64 (store64 (mem s) ptr (Z.land v (mask_not 2))) ptr
                  = Z.land v (mask_not 2)).
    { rewrite load64_store64_eq. apply wrap_small, land_mask2_range, Hr. }
    split; [apply free_prev_alloc_word, Hv |].
    split; [exact Hld |].
    split.
    + rewrite free_prev_alloc_word by exact Hv. simpl mem. rewrite Hld.
      rewrite <- Z.land_assoc, Z.land_diag, with_mem_twice, store64_idem.
      reflexivity.
    + split; [intros i Hi | ]; apply land_mask2_bits; lia.
Qed.


Lemma prev_alloc_mutations_idempotent_witness :
  valid one_word_heap 4096 /\
  idempotent_on_header set_prev_alloc one_word_heap 4096 /\
  idempotent_on_header free_prev_alloc one_word_heap 4096.
Proof.
  assert (Hv : valid one_word_heap 4096) by (unfold valid; simpl; lia).
  split; [exact Hv |].
  exact (prev_alloc_mutations_idempotent one_word_heap 4096 Hv).
Defined.

(** ** The heap extender *)

Lemma bit1_b2z v : (v / 2) mod 2 = Z.b2z (Z.testbit v 1).
Proof. rewrite Z.testbit_spec' by lia. reflexivity. Qed.

Lemma mm_sbrk_hit n s B s1 :
  mm_sbrk n s = Ok B s1 -> B <> 0 ->
  B = heap_brk s /\ heap_brk s + n <= heap_max s /\
  s1 = MState (heap_lo s) (heap_brk s + n) (heap_max s) (mem s) (head s).
Proof.
  unfold mm_sbrk. destruct (Z.leb_spec (heap_brk s + n) (heap_max s)).
  - intros [= <- <-] _. auto.
  - intros [= <- <-] HB. congruence.
Qed.

Lemma get_prev_alloc_bit s p :
  valid s p ->
  get_prev_alloc p s = Ok (Z.b2z (Z.testbit (load64 (mem s) p) 1)) s.
Proof. intros H. rewrite get_prev_alloc_run by exact H. rewrite bit1_b2z. reflexivity. Qed.


Lemma extend_run s n :
  0 < heap_lo s -> heap_lo s + 8 <= heap_brk s -> heap_max s <= modulus ->
  32 <= n -> n mod 16 = 0 -> heap_brk s + n <= heap_max s ->
  extend n s = Ok (heap_brk s) (extended s n).
Proof.
  intros Hlo Hbrk Hmax Hn Hn16 Hroom. unfold extend.
  unfold mm_heap_hi at 1. unfold bind at 1.
  assert (Hd : decr (heap_brk s - 1) (w - 1) = heap_brk s - 8).
  { unfold decr, w. rewrite wrap_small by lia. lia. }
  rewrite Hd.
  assert (Hv : valid s (heap_brk s - 8)) by (unfold valid; lia).
  rewrite (bind_ok _ _ _ _ _ (get_prev_alloc_bit s _ Hv)).
  unfold mm_sbrk at 1. unfold bind at 1.
  destruct (Z.leb_spec (heap_brk s + n) (heap_max s)) as [_ | Hc]; [| lia].
  destruct (Z.eqb_spec (heap_brk s) 0) as [H0 | _]; [lia |].
  set (s1 := MState _ _ _ _ _).
  assert (Hd1 : decr (heap_brk s) w = heap_brk s - 8).
  { unfold decr, w. apply wrap_small. lia. }
  assert (Hd2 : incr (heap_brk s) (wrap (n - w)) = heap_brk s + n - 8).
  { unfold incr, w. rewrite (wrap_small (n - 8)) by lia.
    rewrite wrap_small by lia. lia. }
  rewrite Hd1, Hd2.
  assert (Hv1 : valid s1 (heap_brk s - 8)) by (unfold valid, s1; simpl; lia).
  rewrite bind_assoc.
  change 1 with (Z.b2z true).
  rewrite (bind_ok _ _ _ _ _ (make_h_run s1 _ n _ true Hv1 Hn16 ltac:(lia) ltac:(lia))).
  unfold make_epi. rewrite !bind_assoc.
  set (s2 := with_mem s1 _).
  assert (Hv2 : valid s2 (heap_brk s + n - 8)) by (unfold valid, s2, s1; simpl; lia).
  change 0 with (0 : Z).
  rewrite (bind_ok _ _ _ _ _
    (make_h_run s2 _ 0 true true Hv2 eq_refl ltac:(lia) ltac:(rewrite modulus_eq; lia))).
  reflexivity.
Qed.

Lemma extend_miss s n :
  0 < heap_lo s -> heap_lo s + 8 <= heap_brk s -> heap_brk s <= modulus ->
  heap_max s < heap_brk s + n ->
  extend n s = Ok 0 s.
Proof.
  intros Hlo Hbrk Hmax Hroom. unfold extend.
  unfold mm_heap_hi at 1. unfold bind at 1.
  assert (Hd : decr (heap_brk s - 1) (w - 1) = heap_brk s - 8).
  { unfold decr, w. rewrite wrap_small by lia. lia. }
  rewrite Hd.
  assert (Hv : valid s (heap_brk s - 8)) by (unfold valid; lia).
  rewrite (bind_ok _ _ _ _ _ (get_prev_alloc_bit s _ Hv)).
  unfold mm_sbrk at 1. unfold bind at 1.
  destruct (Z.leb_spec (heap_brk s + n) (heap_max s)) as [Hc | _]; [lia |].
  reflexivity.
Qed.

(** C5: when the provider satisfies a request of normalised size [n] with
    base [B], [extend] grows the region by exactly [n] bytes, writes at
    [B - 8] a header of size [n] carrying the old epilogue's prev_alloc bit
    and alloc = 1, writes at [B + n - 8] an epilogue header of size 0 with
    alloc = 1, changes no other byte (so writes no footer), leaves the
    sixteen list heads as they were, and returns [B]. *)
Theorem extend_spec s n B s1 :
  0 < heap_lo s -> heap_lo s + 8 <= heap_brk s -> heap_max s <= modulus ->
  32 <= n -> n mod 16 = 0 ->
  mm_sbrk n s = Ok B s1 -> B <> 0 ->
  let Q := Z.testbit (load64 (mem s) (heap_brk s - 8)) 1 in
  exists s',
    extend n s = Ok B s' /\
    heap_lo s' = heap_lo s /\ heap_brk s' = heap_brk s + n /\
    head s' = head s /\
    load64 (mem s') (B - w) = hdr n Q true /\
    get_size (B - w) s' = Ok n s' /\
    get_prev_alloc (B - w) s' = Ok (Z.b2z Q) s' /\
    is_alloc (B - w) s' = Ok 1 s' /\
    get_size (B + n - w) s' = Ok 0 s' /\
    is_alloc (B + n - w) s' = Ok 1 s' /\
    (forall x, ~ (B - w <= x < B) -> ~ (B + n - w <= x < B + n) ->
               byte_at (mem s') x = byte_at (mem s) x).
Proof.
  intros Hlo Hbrk Hmax Hn Hn16 Hsb HB Q.
  destruct (mm_sbrk_hit n s B s1 Hsb HB) as (-> & Hroom & _).
  exists (extended s n). unfold w.
  assert (Hh : load64 (mem (extended s n)) (heap_brk s - 8) = hdr n Q true).
  { unfold extended. simpl mem.
    rewrite load64_store64_ne by lia. rewrite load64_store64_eq.
    apply wrap_small, hdr_range; lia. }
  assert (He : load64 (mem (extended s n)) (heap_brk s + n - 8) = hdr 0 true true).
  { unfold extended. simpl mem. rewrite load64_store64_eq. reflexivity. }
  assert (Hv1 : valid (extended s n) (heap_brk s - 8))
    by (unfold valid, extended; simpl; lia).
  assert (Hv2 : valid (extended s n) (heap_brk s + n - 8))
    by (unfold valid, extended; simpl; lia).
  split; [apply extend_run; assumption |].
  split; [reflexivity |]. split; [reflexivity |]. split; [reflexivity |].
  split; [exact Hh |].
  split; [rewrite get_size_run, Hh, hdr_size by assumption; reflexivity |].
  split; [rewrite get_prev_alloc_run, Hh, hdr_prev by assumption; reflexivity |].
  split; [rewrite is_alloc_run, Hh, hdr_alloc by assumption; reflexivity |].
  split; [rewrite get_size_run, He by assumption; reflexivity |].
  split; [rewrite is_alloc_run, He by assumption; reflexivity |].
  intros x Hx1 Hx2. unfold extended. simpl mem.
  rewrite !byte_at_store64_out by lia. reflexivity.
Qed.

(** ** realloc *)

Lemma realloc_unfold s p n newptr s1 oldsize :
  p <> 0 -> n <> 0 ->
  malloc n s = Ok newptr s1 ->
  get_size (decr p w) s1 = Ok oldsize s1 ->
  realloc p n s = (memcpy newptr p (Z.min n oldsize) ;; ret newptr) s1.
Proof.
  intros Hp Hn Hm Hg. unfold realloc.
  destruct (Z.eqb_spec p 0) as [| _]; [contradiction |].
  destruct (Z.eqb_spec n 0) as [| _]; [contradiction |].
  rewrite (bind_ok _ _ _ _ _ Hm). rewrite (bind_ok _ _ _ _ _ Hg).
  replace (if n >? oldsize then oldsize else n) with (Z.min n oldsize);
    [reflexivity |].
  rewrite Z.gtb_ltb. destruct (Z.ltb_spec oldsize n); lia.
Qed.






(** C1: the code does not do what the claim says.  On the heap with the one
    allocated block at 4120, [realloc(4128, 24)] returns the new payload
    4160 while the old block still has alloc = 1 and every list head is
    still null: the old block was not released. *)
Theorem realloc_does_not_release :
  exists s',
    realloc 4128 24 s_one = Ok 4160 s' /\
    is_alloc (n2h 4128) s' = Ok 1 s' /\
    get_size (n2h 4128) s' = Ok 32 s' /\
    head s' = replicate 16 0 /\
    check_presence 4128 (get_index 32) s' = Ok false s'.
Proof.
  exists (after (realloc 4128 24) s_one).
  repeat split; vm_compute; reflexivity.
Qed.

(** ** Provider misses *)

(** C3: the code does not do what the claim says.  On the exhausted heap
    the extension that [realloc(4128, 24)] asks for misses; [malloc] and
    [calloc] then return null with the state untouched, but [realloc] hands
    the null pointer to [memcpy] and faults instead of returning null. *)
Theorem realloc_miss_faults :
  mm_sbrk (normalize 24) s_full = Ok 0 s_full /\
  malloc 24 s_full = Ok 0 s_full /\
  calloc 1 24 s_full = Ok 0 s_full /\
  realloc 4128 24 s_full = Fault.
Proof. repeat split; vm_compute; reflexivity. Qed.

(** ** The extender on the initialised heap *)

Lemma extend_spec_witness :
  exists s',
    extend 32 s_init = Ok 4128 s' /\
    heap_lo s' = heap_lo s_init /\ heap_brk s' = heap_brk s_init + 32 /\
    head s' = head s_init /\
    load64 (mem s') (4128 - w) =
      hdr 32 (Z.testbit (load64 (mem s_init) (heap_brk s_init - 8)) 1) true /\
    get_size (4128 - w) s' = Ok 32 s' /\
    get_prev_alloc (4128 - w) s' =
      Ok (Z.b2z (Z.testbit (load64 (mem s_init) (heap_brk s_init - 8)) 1)) s' /\
    is_alloc (4128 - w) s' = Ok 1 s' /\
    get_size (4128 + 32 - w) s' = Ok 0 s' /\
    is_alloc (4128 + 32 - w) s' = Ok 1 s' /\
    (forall x, ~ (4128 - w <= x < 4128) -> ~ (4128 + 32 - w <= x < 4128 + 32) ->
               byte_at (mem s') x = byte_at (mem s_init) x).
Proof.
  apply (extend_spec s_init 32 4128 (after (mm_sbrk 32) s_init)).
  - vm_compute. reflexivity.
  - vm_compute. discriminate.
  - vm_compute. discriminate.
  - lia.
  - reflexivity.
  - vm_compute. reflexivity.
  - lia.
Defined.

(** ** Geometry of a block sequence *)

Lemma total_app b1 b2 : total (b1 ++ b2) = total b1 + total b2.
Proof. induction b1 as [| b r IH]; simpl; lia. Qed.

Lemma last_alloc_app b1 : forall pa b2,
  last_alloc pa (b1 ++ b2) = last_alloc (last_alloc pa b1) b2.
Proof. induction b1 as [| b r IH]; intros pa b2; simpl; [reflexivity | apply IH]. Qed.

Lemma sized_app b1 b2 : sized (b1 ++ b2) <-> sized b1 /\ sized b2.
Proof. apply Forall_app. Qed.

Lemma sized_total bs : sized bs -> 32 * Z.of_nat (length bs) <= total bs.
Proof.
  induction 1 as [| b r Hb _ IH]; simpl length; simpl total; [lia |].
  destruct Hb. lia.
Qed.

Lemma seg_sized m bs : forall a pa, seg m a pa bs -> sized bs.
Proof.
  induction bs as [| [sz al] r IH]; intros a pa H; [constructor |].
  destruct H as (_ & H1 & H2 & _ & H3).
  constructor; [split; assumption | eapply IH; eassumption].
Qed.

Lemma seg_app m b1 : forall a pa b2,
  seg m a pa (b1 ++ b2) <->
  seg m a pa b1 /\ seg m (a + total b1) (last_alloc pa b1) b2.
Proof.
  induction b1 as [| [sz al] r IH]; intros a pa b2; simpl.
  - rewrite Z.add_0_r. tauto.
  - rewrite IH. rewrite Z.add_assoc. tauto.
Qed.

Lemma seg_frame m m' bs : forall a pa,
  (forall x, a <= x < a + total bs -> byte_at m' x = byte_at m x) ->
  seg m a pa bs -> seg m' a pa bs.
Proof.
  induction bs as [| [sz al] r IH]; intros a pa Hx H; [exact I |].
  pose proof (seg_sized _ _ _ _ H) as Hs.
  apply Forall_cons in Hs as [[Hsz _] Hs]. simpl in Hsz.
  pose proof (sized_total r Hs) as Ht.
  destruct H as (H0 & H1 & H2 & H3 & H4). simpl in Hx.
  simpl. repeat split; try assumption.
  - rewrite <- H0. apply load64_ext. intros x Hr. apply Hx. lia.
  - intros Hal. etransitivity; [| exact (H3 Hal)]. apply load64_ext.
    intros x Hr. apply Hx. lia.
  - apply IH; [| exact H4]. intros x Hr. apply Hx. lia.
Qed.

Lemma block_at_app b1 : forall a b2 h sz al,
  block_at a (b1 ++ b2) h sz al <->
  block_at a b1 h sz al \/ block_at (a + total b1) b2 h sz al.
Proof.
  induction b1 as [| [s0 a0] r IH]; intros a b2 h sz al; simpl.
  - rewrite Z.add_0_r. tauto.
  - rewrite IH, Z.add_assoc. tauto.
Qed.

Lemma block_at_range bs : forall a h sz al,
  sized bs -> block_at a bs h sz al ->
  a <= h /\ h + sz <= a + total bs /\ 32 <= sz /\ sz mod 16 = 0.
Proof.
  induction bs as [| [s0 a0] r IH]; intros a h sz al Hs H; [destruct H |].
  apply Forall_cons in Hs as [[Hsz Hm] Hs]. simpl in Hsz, Hm.
  pose proof (sized_total r Hs) as Ht. simpl total.
  destruct H as [(-> & -> & ->) | H].
  - lia.
  - specialize (IH _ _ _ _ Hs H). lia.
Qed.

Lemma block_at_disjoint bs : forall a h1 sz1 al1 h2 sz2 al2,
  sized bs ->
  block_at a bs h1 sz1 al1 -> block_at a bs h2 sz2 al2 ->
  (h1 = h2 /\ sz1 = sz2 /\ al1 = al2) \/ h1 + sz1 <= h2 \/ h2 + sz2 <= h1.
Proof.
  induction bs as [| [s0 a0] r IH]; intros a h1 sz1 al1 h2 sz2 al2 Hs H1 H2;
    [destruct H1 |].
  apply Forall_cons in Hs as [[Hsz Hm] Hs]. simpl in Hsz, Hm.
  destruct H1 as [(-> & -> & ->) | H1], H2 as [(-> & -> & ->) | H2].
  - left. auto.
  - pose proof (block_at_range _ _ _ _ _ Hs H2). right. left. lia.
  - pose proof (block_at_range _ _ _ _ _ Hs H1). right. right. lia.
  - eapply IH; eassumption.
Qed.

Lemma block_at_split bs : forall a h sz al,
  block_at a bs h sz al ->
  exists b1 b2, bs = b1 ++ (sz, al) :: b2 /\ h = a + total b1.
Proof.
  induction bs as [| [s0 a0] r IH]; intros a h sz al H; [destruct H |].
  destruct H as [(-> & -> & ->) | H].
  - exists [], r. simpl. split; [reflexivity | lia].
  - destruct (IH _ _ _ _ H) as (b1 & b2 & -> & ->).
    exists ((s0, a0) :: b1), b2. simpl. split; [reflexivity | lia].
Qed.

Lemma block_at_mid a b1 sz al b2 :
  block_at a (b1 ++ (sz, al) :: b2) (a + total b1) sz al.
Proof. apply block_at_app. right. simpl. left. auto. Qed.

(** A block that records a free predecessor has one. *)
Lemma last_alloc_false b1 :
  last_alloc true b1 = false ->
  exists b1' psz, b1 = b1' ++ [(psz, false)].
Proof.
  induction b1 as [| b r IH] using rev_ind; simpl; [discriminate |].
  rewrite last_alloc_app. simpl. destruct b as [psz al]. simpl.
  intros ->. exists r, psz. reflexivity.
Qed.

Lemma no_adjacent_free_app b1 : forall pa b2,
  no_adjacent_free pa (b1 ++ b2) = true <->
  no_adjacent_free pa b1 = true /\
  no_adjacent_free (last_alloc pa b1) b2 = true.
Proof.
  induction b1 as [| [sz al] r IH]; intros pa b2; simpl.
  - tauto.
  - rewrite !andb_true_iff, IH. tauto.
Qed.

(** ** The blocks up to the epilogue *)

Lemma tail_app m b1 a pa b2 e :
  tail m a pa (b1 ++ b2) e <->
  seg m a pa b1 /\ tail m (a + total b1) (last_alloc pa b1) b2 e.
Proof.
  unfold tail. rewrite seg_app, total_app, last_alloc_app, Z.add_assoc. tauto.
Qed.

Lemma tail_sized m a pa bs e : tail m a pa bs e -> sized bs.
Proof. intros [H _]. eapply seg_sized, H. Qed.

Lemma tail_head m a pa bs e :
  tail m a pa bs e -> load64 m a = first_hdr pa bs.
Proof.
  intros (Hs & He & Hl). destruct bs as [| [sz al] r]; simpl in *.
  - replace a with e by lia. exact Hl.
  - apply Hs.
Qed.

Lemma tail_frame m m' a pa bs e :
  (forall x, a <= x < e + 8 -> byte_at m' x = byte_at m x) ->
  tail m a pa bs e -> tail m' a pa bs e.
Proof.
  intros Hx (Hs & He & Hl). pose proof (seg_sized _ _ _ _ Hs) as Hz.
  pose proof (sized_total _ Hz).
  split; [| split; [exact He |]].
  - eapply seg_frame; [| exact Hs]. intros x Hr. apply Hx. lia.
  - rewrite <- Hl. apply load64_ext. intros x Hr. apply Hx. lia.
Qed.

Lemma first_hdr_range pa bs :
  sized bs -> total bs + 3 < modulus -> 0 <= first_hdr pa bs < modulus.
Proof.
  intros Hz Ht. destruct bs as [| [sz al] r]; simpl.
  - apply hdr_range; rewrite ?modulus_eq; lia.
  - apply Forall_cons in Hz as [[Hsz _] Hz]. simpl in *.
    pose proof (sized_total _ Hz). apply hdr_range; lia.
Qed.

(** Rewriting the prev_alloc bit of the header that starts a suffix. *)
Lemma tail_retag m a pa pa' bs e :
  total bs + 3 < modulus ->
  tail m a pa bs e ->
  tail (store64 m a (first_hdr pa' bs)) a pa' bs e.
Proof.
  intros Ht (Hs & He & Hl). pose proof (seg_sized _ _ _ _ Hs) as Hz.
  pose proof (first_hdr_range pa' bs Hz Ht) as Hr.
  destruct bs as [| [sz al] r]; simpl in *.
  - split; [exact I |]. split; [exact He |].
    replace e with a by lia. rewrite load64_store64_eq.
    apply wrap_small, Hr.
  - apply Forall_cons in Hz as [[Hsz _] Hz]. simpl in Hsz.
    pose proof (sized_total _ Hz).
    destruct Hs as (H0 & H1 & H2 & H3 & H4).
    split; [| split; [exact He |]].
    + repeat split; try assumption.
      * rewrite load64_store64_eq. apply wrap_small, Hr.
      * intros Hal. rewrite load64_store64_ne by lia. auto.
      * eapply seg_frame; [| exact H4]. intros x Hx.
        apply byte_at_store64_out. lia.
    + rewrite load64_store64_ne by lia. exact Hl.
Qed.

Lemma Tiled_tail s bs :
  Tiled s bs -> tail (mem s) (first_block s) true bs (heap_brk s - 8).
Proof. intros H. destruct H. split; [| split]; assumption. Qed.

Lemma Tiled_sized s bs : Tiled s bs -> sized bs.
Proof. intros H. eapply seg_sized, (t_seg _ _ H). Qed.

(** Every block of the tiling lies in the region, and so does the header
    that follows it. *)
Lemma Tiled_block s bs h sz al :
  Tiled s bs -> block_at (first_block s) bs h sz al ->
  first_block s <= h /\ h + sz <= heap_brk s - 8 /\
  32 <= sz /\ sz mod 16 = 0 /\ heap_brk s <= modulus /\ 0 < heap_lo s.
Proof.
  intros Ht Hb. pose proof (block_at_range _ _ _ _ _ (Tiled_sized _ _ Ht) Hb).
  destruct Ht. unfold first_block in *. lia.
Qed.

(** The header, and for a free block the footer, of a block of the tiling. *)
Lemma seg_block m bs : forall a pa h sz al,
  seg m a pa bs -> block_at a bs h sz al ->
  exists pa', load64 m h = hdr sz pa' al /\
              (al = false -> load64 m (h + sz - 8) = sz).
Proof.
  intros a pa h sz al Hs Hb.
  destruct (block_at_split _ _ _ _ _ Hb) as (b1 & b2 & -> & ->).
  apply seg_app in Hs as [_ Hs]. simpl in Hs.
  destruct Hs as (H0 & _ & _ & H3 & _). eauto.
Qed.

(** ** Payloads that are left alone *)

Lemma kept_refl a bs m : kept a bs m m.
Proof. intros h sz x _ _. reflexivity. Qed.

Lemma kept_trans a bs m1 m2 m3 :
  kept a bs m1 m2 -> kept a bs m2 m3 -> kept a bs m1 m3.
Proof.
  intros H1 H2 h sz x Hb Hx. rewrite (H2 h sz x Hb Hx). exact (H1 h sz x Hb Hx).
Qed.

(** Fewer allocated blocks, fewer payloads to keep. *)
Lemma kept_sub a bs a' bs' m m' :
  (forall h sz, block_at a' bs' h sz true -> block_at a bs h sz true) ->
  kept a bs m m' -> kept a' bs' m m'.
Proof. intros Hsub Hk h sz x Hb Hx. exact (Hk h sz x (Hsub h sz Hb) Hx). Qed.

(** A change confined to a free block, or to the header word of a block,
    touches no payload of an allocated block. *)
Lemma kept_inside a bs m m' h0 sz0 al0 u v :
  sized bs -> block_at a bs h0 sz0 al0 ->
  h0 <= u -> v <= h0 + (if al0 then 8 else sz0) ->
  (forall x, ~ (u <= x < v) -> byte_at m' x = byte_at m x) ->
  kept a bs m m'.
Proof.
  intros Hz Hb0 Hu Hv Hfr h sz x Hb Hx. apply Hfr.
  pose proof (block_at_range _ _ _ _ _ Hz Hb0).
  destruct (block_at_disjoint _ _ _ _ _ _ _ _ Hz Hb Hb0)
    as [(He1 & He2 & He3) | Hd]; [rewrite <- He3 in Hv; lia |].
  destruct al0; lia.
Qed.

Lemma kept_store a bs m h0 sz0 al0 p v :
  sized bs -> block_at a bs h0 sz0 al0 ->
  h0 <= p -> p + 8 <= h0 + (if al0 then 8 else sz0) ->
  kept a bs m (store64 m p v).
Proof.
  intros Hz Hb0 Hp Hv. apply (kept_inside a bs m _ h0 sz0 al0 p (p + 8) Hz Hb0 Hp Hv).
  intros x Hx. apply byte_at_store64_out. lia.
Qed.

(** A change from the end of the blocks on touches no payload. *)
Lemma kept_beyond a bs m m' :
  sized bs ->
  (forall x, x < a + total bs -> byte_at m' x = byte_at m x) ->
  kept a bs m m'.
Proof.
  intros Hz Hfr h sz x Hb Hx. apply Hfr.
  pose proof (block_at_range _ _ _ _ _ Hz Hb). lia.
Qed.

(** A change confined to a run of blocks none of which is allocated, and to
    the header word after it, touches no payload. *)
Lemma kept_region a b1 mid b2 m m' :
  sized (b1 ++ mid ++ b2) ->
  (forall h sz, ~ block_at (a + total b1) mid h sz true) ->
  (forall x, ~ (a + total b1 <= x < a + total b1 + total mid + 8) ->
             byte_at m' x = byte_at m x) ->
  kept a (b1 ++ mid ++ b2) m m'.
Proof.
  intros Hz Hmid Hfr h sz x Hb Hx. apply Hfr.
  apply sized_app in Hz as [Hz1 Hz]. apply sized_app in Hz as [_ Hz2].
  rewrite !block_at_app in Hb. destruct Hb as [Hb | [Hb | Hb]].
  - pose proof (block_at_range _ _ _ _ _ Hz1 Hb). lia.
  - destruct (Hmid h sz Hb).
  - pose proof (block_at_range _ _ _ _ _ Hz2 Hb). lia.
Qed.

(** ** Circular doubly-linked lists in memory *)

Lemma last_cons_ne {A} (r : list A) : forall y x,
  List.last (y :: r) x = List.last r y.
Proof.
  induction r as [| z r IH]; intros y x; [reflexivity |].
  change (List.last (y :: z :: r) x) with (List.last (z :: r) x).
  rewrite (IH z x), (IH z y). reflexivity.
Qed.

Lemma chain_app m l1 : forall x l2,
  chain m x (l1 ++ l2) <-> chain m x l1 /\ chain m (List.last l1 x) l2.
Proof.
  induction l1 as [| y r IH]; intros x l2.
  - simpl. tauto.
  - change ((y :: r) ++ l2) with (y :: (r ++ l2)).
    change (chain m x (y :: r ++ l2))
      with (nxt m x = y /\ prv m y = x /\ chain m y (r ++ l2)).
    change (chain m x (y :: r))
      with (nxt m x = y /\ prv m y = x /\ chain m y r).
    rewrite IH, last_cons_ne. tauto.
Qed.

Lemma last_snoc {A} (l : list A) x d : List.last (l ++ [x]) d = x.
Proof. apply List.last_last. Qed.

Lemma cyc_rot1 m x r : cyc m (x :: r) <-> cyc m (r ++ [x]).
Proof.
  destruct r as [| y r']; [simpl; tauto |].
  change (cyc m (x :: y :: r')) with (chain m x ((y :: r') ++ [x])).
  change (cyc m ((y :: r') ++ [x])) with (chain m y ((r' ++ [x]) ++ [y])).
  rewrite (chain_app m (r' ++ [x])). rewrite last_snoc.
  simpl. tauto.
Qed.

Lemma cyc_rot m l1 : forall l2, cyc m (l1 ++ l2) <-> cyc m (l2 ++ l1).
Proof.
  induction l1 as [| x r IH]; intros l2.
  - rewrite app_nil_r. simpl. tauto.
  - change ((x :: r) ++ l2) with (x :: (r ++ l2)).
    rewrite cyc_rot1. rewrite <- app_assoc. rewrite IH.
    rewrite <- app_assoc. simpl. tauto.
Qed.

(** [chain m x l] reads the [next] of [x] and of all of [l] but its last
    node, and the [prev] of the nodes of [l]. *)
Lemma chain_frame m m' l : forall x,
  (forall y, y ∈ removelast (x :: l) -> nxt m' y = nxt m y) ->
  (forall y, y ∈ l -> prv m' y = prv m y) ->
  chain m x l -> chain m' x l.
Proof.
  induction l as [| y r IH]; intros x Hn Hp H; [exact I |].
  destruct H as (H1 & H2 & H3).
  split; [| split].
  - rewrite Hn; [exact H1 |]. simpl. left.
  - rewrite Hp; [exact H2 |]. left.
  - apply IH; [| | exact H3].
    + intros z Hz. apply Hn.
      change (removelast (x :: y :: r)) with (x :: removelast (y :: r)).
      right. exact Hz.
    + intros z Hz. apply Hp. right. exact Hz.
Qed.

Lemma elem_of_removelast {A} (l : list A) y : y ∈ removelast l -> y ∈ l.
Proof.
  induction l as [| z r IH]; simpl; [intros H; exact H |].
  destruct r as [| z' r']; [intros H; inversion H |].
  intros H. apply elem_of_cons in H as [-> | H]; [left | right; auto].
Qed.

Lemma removelast_not_last (l : list Z) y d :
  NoDup l -> y ∈ removelast l -> y <> List.last l d.
Proof.
  induction l as [| z r IH]; simpl; [intros _ H; inversion H |].
  destruct r as [| z' r']; [intros _ H; inversion H |].
  intros Hnd H. apply NoDup_cons in Hnd as [Hz Hnd].
  apply elem_of_cons in H as [-> | H].
  - intros Heq. apply Hz. rewrite Heq.
    clear. generalize z'. induction r' as [| q r IH]; intros z0; [left |].
    right. apply (IH q).
  - apply IH; assumption.
Qed.

Lemma last_elem_of (l : list Z) d : l <> [] -> List.last l d ∈ l.
Proof.
  induction l as [| z r IH]; [congruence |]. intros _.
  destruct r as [| z' r']; [left |].
  right. apply IH. discriminate.
Qed.


Lemma cyc_frame m m' l :
  (forall y b, y ∈ l -> y <= b < y + 16 -> byte_at m' b = byte_at m b) ->
  cyc m l -> cyc m' l.
Proof.
  intros Hb. destruct l as [| x r]; [auto |]. simpl. intros H.
  eapply chain_frame; [| | exact H].
  - intros y Hy. apply elem_of_removelast in Hy.
    unfold nxt. apply load64_ext. intros b Hr. apply (Hb y); [| lia].
    change (y ∈ x :: (r ++ [x])) in Hy. rewrite elem_of_cons, elem_of_app in Hy.
    rewrite elem_of_cons. rewrite list_elem_of_singleton in Hy. tauto.
  - intros y Hy. unfold prv. apply load64_ext. intros b Hr.
    apply (Hb y); [| lia].
    rewrite elem_of_app, list_elem_of_singleton in Hy.
    rewrite elem_of_cons. tauto.
Qed.

Lemma dll_frame m m' h l :
  (forall y b, y ∈ l -> y <= b < y + 16 -> byte_at m' b = byte_at m b) ->
  dll m h l -> dll m' h l.
Proof. intros Hb [H1 H2]. split; [exact H1 | eapply cyc_frame; eassumption]. Qed.

(** The neighbours of the first node of a cycle. *)
Lemma cyc_head m x r :
  cyc m (x :: r) ->
  nxt m x = List.hd x r /\ prv m x = List.last r x /\
  chain m x r /\ nxt m (List.last r x) = x.
Proof.
  simpl. rewrite chain_app. intros [H1 H2]. simpl in H2.
  destruct H2 as (H2 & H3 & _).
  split; [| auto].
  destruct r as [| y r']; [exact H2 | apply H1].
Qed.

(** *** Unlinking the first node of a cycle *)

Lemma cyc_remove_head m x r :
  NoDup (x :: r) -> r <> [] ->
  (forall y z, y ∈ x :: r -> z ∈ x :: r -> apart y z) ->
  cyc m (x :: r) ->
  cyc (store64 (store64 m (prv m x + 8) (nxt m x)) (nxt m x) (prv m x)) r.
Proof.
  intros Hnd Hne Hap Hc.
  destruct (cyc_head m x r Hc) as (Hn & Hp & Hch & Hl).
  destruct r as [| n r']; [congruence |]. clear Hne.
  simpl in Hn. rewrite Hn, Hp.
  rewrite (last_cons_ne r' n x). set (p := List.last r' n).
  assert (Hpin : p ∈ n :: r').
  { unfold p. rewrite <- (last_cons_ne r' n x). apply last_elem_of. discriminate. }
  pose proof (load64_range m (x + 8)) as Hnr. fold (nxt m x) in Hnr.
  rewrite Hn in Hnr.
  pose proof (load64_range m x) as Hpr. fold (prv m x) in Hpr.
  rewrite Hp, (last_cons_ne r' n x) in Hpr. fold p in Hpr.
  apply NoDup_cons in Hnd as [Hx Hnd].
  assert (Hapn : forall y, y ∈ n :: r' -> apart y n).
  { intros y Hy. apply Hap; right; [exact Hy | left]. }
  assert (Happ : forall y, y ∈ n :: r' -> apart y p).
  { intros y Hy. apply Hap; right; [exact Hy | exact Hpin]. }
  change (cyc ?mm (n :: r')) with (chain mm n (r' ++ [n])).
  apply chain_app. split.
  - destruct Hch as (_ & _ & Hch).
    eapply chain_frame; [| | exact Hch].
    + intros y Hy. pose proof (removelast_not_last _ _ x Hnd Hy) as Hyl.
      rewrite (last_cons_ne r' n x) in Hyl. fold p in Hyl.
      apply elem_of_removelast in Hy.
      unfold nxt. destruct (Hapn y Hy) as [Ha | Ha], (Happ y Hy) as [Hb | Hb];
        try congruence; rewrite !load64_store64_ne by lia; reflexivity.
    + intros y Hy. assert (Hyn : y <> n).
      { apply NoDup_cons in Hnd as [Hn' _]. intros ->. contradiction. }
      assert (Hy' : y ∈ n :: r') by (right; exact Hy).
      unfold prv. destruct (Hapn y Hy') as [Ha | Ha], (Happ y Hy') as [Hb | Hb];
        try congruence; rewrite !load64_store64_ne by lia; reflexivity.
  - fold p. simpl. split; [| split; [| exact I]].
    + unfold nxt. destruct (Happ n ltac:(left)) as [Hb | Hb].
      * rewrite load64_store64_ne by lia. rewrite load64_store64_eq.
        apply wrap_small. exact Hnr.
      * rewrite load64_store64_ne by lia. rewrite load64_store64_eq.
        apply wrap_small. exact Hnr.
    + unfold prv. rewrite load64_store64_eq. apply wrap_small. exact Hpr.
Qed.

(** *** Linking a node before the first *)

Lemma cyc_insert_last m first r new :
  NoDup (first :: r) -> new ∉ first :: r ->
  (forall y, y ∈ first :: r -> y + 16 <= new \/ new + 16 <= y) ->
  (forall y z, y ∈ first :: r -> z ∈ first :: r -> apart y z) ->
  0 <= new < modulus ->
  cyc m (first :: r) ->
  cyc (store64 (store64 (store64 (store64 m new (prv m first))
                                 (new + 8) first)
                        (prv m first + 8) new)
               first new)
      (first :: r ++ [new]).
Proof.
  intros Hnd Hnew Hsep Hap Hrange Hc.
  destruct (cyc_head m first r Hc) as (_ & Hp & Hch & Hl).
  rewrite Hp. set (last := List.last r first).
  assert (Hlin : last ∈ first :: r).
  { unfold last. rewrite <- (last_cons_ne r first 0).
    apply last_elem_of. discriminate. }
  assert (Hfin : first ∈ first :: r) by left.
  pose proof (load64_range m first) as Hlr. fold (prv m first) in Hlr.
  rewrite Hp in Hlr. fold last in Hlr.
  assert (Hfr : 0 <= first < modulus).
  { rewrite <- Hl. apply load64_range. }
  change (cyc ?mm (first :: r ++ [new]))
    with (chain mm first ((r ++ [new]) ++ [first])).
  rewrite <- app_assoc. apply chain_app. fold last. split.
  - eapply chain_frame; [| | exact Hch].
    + intros y Hy. pose proof (removelast_not_last _ _ 0 Hnd Hy) as Hyl.
      rewrite (last_cons_ne r first 0) in Hyl. fold last in Hyl.
      apply elem_of_removelast in Hy.
      unfold nxt.
      destruct (Hsep y Hy), (Hap y first Hy Hfin) as [Ha | Ha],
        (Hap y last Hy Hlin) as [Hb | Hb]; try congruence;
        rewrite !load64_store64_ne by lia; reflexivity.
    + intros y Hy. apply NoDup_cons in Hnd as [Hf _].
      assert (Hyf : y <> first) by (intros ->; contradiction).
      assert (Hy' : y ∈ first :: r) by (right; exact Hy).
      unfold prv.
      destruct (Hsep y Hy'), (Hap y first Hy' Hfin) as [Ha | Ha],
        (Hap y last Hy' Hlin) as [Hb | Hb]; try congruence;
        rewrite !load64_store64_ne by lia; reflexivity.
  - simpl. unfold nxt, prv.
    pose proof (Hsep first Hfin) as Hs1. pose proof (Hsep last Hlin) as Hs2.
    pose proof (Hap last first Hlin Hfin) as Hs3.
    split; [| split; [| split; [| split; [| exact I]]]].
    + rewrite load64_store64_ne by (destruct Hs3 as [-> | ?]; lia).
      rewrite load64_store64_eq. apply wrap_small, Hrange.
    + rewrite load64_store64_ne by lia.
      rewrite load64_store64_ne by lia.
      rewrite load64_store64_ne by lia.
      rewrite load64_store64_eq. apply wrap_small, Hlr.
    + rewrite load64_store64_ne by lia.
      rewrite load64_store64_ne by lia.
      rewrite load64_store64_eq. apply wrap_small, Hfr.
    + rewrite load64_store64_eq. apply wrap_small, Hrange.
Qed.

Lemma cyc_singleton m x :
  0 <= x < modulus ->
  cyc (store64 (store64 m x x) (x + 8) x) [x].
Proof.
  intros Hx. simpl. unfold nxt, prv. split; [| split; [| exact I]].
  - rewrite load64_store64_eq. apply wrap_small, Hx.
  - rewrite load64_store64_ne by lia. rewrite load64_store64_eq.
    apply wrap_small, Hx.
Qed.

(** ** Writes that stay inside a block *)

(** Bytes written strictly inside a block (after its header and, for a free
    block, before its footer) leave the tiling as it is. *)
Lemma Tiled_frame_inside s bs h sz al m' u v :
  Tiled s bs -> block_at (first_block s) bs h sz al ->
  h + 8 <= u -> v <= h + sz - (if al then 0 else 8) ->
  (forall x, ~ (u <= x < v) -> byte_at m' x = byte_at (mem s) x) ->
  Tiled (with_mem s m') bs.
Proof.
  intros Ht Hb Hu Hv Hx.
  pose proof (Tiled_block _ _ _ _ _ Ht Hb) as Hg.
  pose proof (Tiled_tail _ _ Ht) as Htl.
  destruct (block_at_split _ _ _ _ _ Hb) as (b1 & b2 & -> & ->).
  apply tail_app in Htl as [Hs1 Htl].
  change ((sz, al) :: b2) with ([(sz, al)] ++ b2) in Htl.
  apply tail_app in Htl as [Hs2 Htl]. simpl in Hs2, Htl.
  destruct Hs2 as (H0 & H1 & H2 & H3 & _).
  assert (Htl' : tail m' (first_block s) true (b1 ++ [(sz, al)] ++ b2)
                      (heap_brk s - 8)).
  { apply tail_app. split.
    - eapply seg_frame; [| exact Hs1]. intros x Hr. apply Hx. lia.
    - apply tail_app. simpl. split.
      + repeat split; try assumption.
        * rewrite <- H0. apply load64_ext. intros x Hr. apply Hx. lia.
        * intros Hal. subst al. etransitivity; [| exact (H3 eq_refl)].
          apply load64_ext. intros x Hr. apply Hx. lia.
      + eapply tail_frame; [| exact Htl]. intros x Hr. apply Hx.
        destruct al; lia. }
  destruct Htl' as (Ha & Hb' & Hc). destruct Ht.
  constructor; simpl; assumption.
Qed.

Lemma Tiled_store_inside s bs h sz al a v :
  Tiled s bs -> block_at (first_block s) bs h sz al ->
  h + 8 <= a -> a + 8 <= h + sz - (if al then 0 else 8) ->
  Tiled (with_mem s (store64 (mem s) a v)) bs.
Proof.
  intros Ht Hb Ha Hv. eapply (Tiled_frame_inside s bs h sz al _ a (a + 8)); eauto.
  intros x Hx. apply byte_at_store64_out. lia.
Qed.

Lemma Tiled_with_head s bs hd :
  Tiled s bs -> length hd = 16%nat -> Tiled (with_head s hd) bs.
Proof. intros Ht Hl. destruct Ht. constructor; simpl; assumption. Qed.

(** ** Nodes of the free lists *)

Section Nodes.
Variables (s : mstate) (bs : list block) (L : Z -> list Z).
Hypothesis Ht : Tiled s bs.
Hypothesis Hl : Lists s bs L.

Lemma free_block_node h sz :
  block_at (first_block s) bs h sz false ->
  valid s h /\ valid s (h + 8) /\ valid s (h + 16) /\
  0 < h /\ h + sz < modulus /\ 32 <= sz /\ sz mod 16 = 0.
Proof.
  intros Hb. pose proof (Tiled_block _ _ _ _ _ Ht Hb).
  unfold valid, first_block in *. lia.
Qed.

Lemma node_block c x :
  0 <= c < 16 -> x ∈ L c ->
  exists sz, block_at (first_block s) bs (x - 8) sz false /\
             get_index sz = c /\
             valid s (x - 8) /\ valid s x /\ valid s (x + 8) /\
             8 < x /\ x + 8 < modulus /\ 32 <= sz.
Proof.
  intros Hc Hx. destruct (l_sound _ _ _ Hl c x Hc Hx) as (sz & Hb & Hi).
  exists sz. pose proof (free_block_node _ _ Hb) as Hf.
  replace (x - 8 + 8) with x in Hf by lia.
  replace (x - 8 + 16) with (x + 8) in Hf by lia.
  intuition lia.
Qed.

Lemma nodes_apart c x c' y :
  0 <= c < 16 -> 0 <= c' < 16 -> x ∈ L c -> y ∈ L c' -> apart x y.
Proof.
  intros Hc Hc' Hx Hy.
  destruct (node_block c x Hc Hx) as (sz & Hb & _ & _ & _ & _ & _ & _ & Hsz).
  destruct (node_block c' y Hc' Hy) as (sz' & Hb' & _ & _ & _ & _ & _ & _ & Hsz').
  destruct (block_at_disjoint _ _ _ _ _ _ _ _ (Tiled_sized _ _ Ht) Hb Hb')
    as [(He & _) | Hd]; unfold apart; lia.
Qed.

Lemma node_class c x c' :
  0 <= c < 16 -> 0 <= c' < 16 -> x ∈ L c -> x ∈ L c' -> c = c'.
Proof.
  intros Hc Hc' Hx Hy.
  destruct (node_block c x Hc Hx) as (sz & Hb & Hi & _ & _ & _ & _ & _ & Hsz).
  destruct (node_block c' x Hc' Hy) as (sz' & Hb' & Hi' & _ & _ & _ & _ & _ & Hsz').
  destruct (block_at_disjoint _ _ _ _ _ _ _ _ (Tiled_sized _ _ Ht) Hb Hb')
    as [(_ & He & _) | Hd]; [congruence | lia].
Qed.

(** A node of a free block that is in no list is away from all of them. *)
Lemma fresh_node_apart h sz c y :
  block_at (first_block s) bs h sz false ->
  0 <= c < 16 -> y ∈ L c -> y <> h + 8 ->
  y + 16 <= h + 8 \/ h + 8 + 16 <= y.
Proof.
  intros Hb Hc Hy Hne.
  destruct (node_block c y Hc Hy) as (sz' & Hb' & _ & _ & _ & _ & _ & _ & Hsz').
  pose proof (free_block_node _ _ Hb).
  destruct (block_at_disjoint _ _ _ _ _ _ _ _ (Tiled_sized _ _ Ht) Hb Hb')
    as [(He & _) | Hd]; lia.
Qed.
End Nodes.


Lemma upd_same L c l : upd L c l c = l.
Proof. unfold upd. destruct (Z.eq_dec c c); congruence. Qed.

Lemma upd_other L c l c' : c' <> c -> upd L c l c' = L c'.
Proof. unfold upd. destruct (Z.eq_dec c' c); congruence. Qed.

Lemma with_head_id s : with_head s (head s) = s.
Proof. destruct s. reflexivity. Qed.

Lemma next_field_small x : 0 <= x + 8 < modulus -> next_field x = x + 8.
Proof. intros H. unfold next_field. apply wrap_small, H. Qed.

Lemma elem_of_mid_nodup (l1 l2 : list Z) x y :
  NoDup (l1 ++ x :: l2) ->
  (y ∈ l1 ++ l2 <-> y ∈ l1 ++ x :: l2 /\ y <> x).
Proof.
  intros Hnd. apply NoDup_app in Hnd as (_ & Hd & Hnd2).
  apply NoDup_cons in Hnd2 as [Hx2 _].
  rewrite !elem_of_app, elem_of_cons. split.
  - intros [H | H]; (split; [tauto |]); intros ->.
    + apply (Hd x H). left.
    + contradiction.
  - intros [[H | [H | H]] Hne]; tauto.
Qed.

Lemma NoDup_mid (l1 l2 : list Z) x : NoDup (l1 ++ x :: l2) -> NoDup (l1 ++ l2).
Proof.
  intros Hnd. apply NoDup_app in Hnd as (H1 & Hd & Hnd2).
  apply NoDup_cons in Hnd2 as [Hx2 H2].
  apply NoDup_app. split; [exact H1 |]. split; [| exact H2].
  intros y Hy Hy2. apply (Hd y Hy). right. exact Hy2.
Qed.

Lemma NoDup_rot (l1 l2 : list Z) : NoDup (l1 ++ l2) -> NoDup (l2 ++ l1).
Proof.
  rewrite !NoDup_app. intros (H1 & Hd & H2). split; [exact H2 |].
  split; [| exact H1]. intros y Hy Hy1. exact (Hd y Hy1 Hy).
Qed.

(** *** removenode *)

Lemma removenode_Lists_kept s bs L c x :
  Tiled s bs -> Lists s bs L -> 0 <= c < 16 -> x ∈ L c ->
  exists s' L',
    removenode x c s = Ok tt s' /\
    heap_lo s' = heap_lo s /\ heap_brk s' = heap_brk s /\
    heap_max s' = heap_max s /\
    Tiled s' bs /\ Lists s' bs L' /\
    (forall c' y, 0 <= c' < 16 -> (y ∈ L' c' <-> y ∈ L c' /\ y <> x)) /\
    kept (first_block s) bs (mem s) (mem s').
Proof.
  intros Ht Hl Hc Hx.
  destruct (list_elem_of_split _ _ Hx) as (l1 & l2 & HL).
  pose proof (l_dll _ _ _ Hl c Hc) as [Hh Hcyc].
  pose proof (l_nodup _ _ _ Hl c Hc) as Hnd.
  rewrite HL in Hh, Hcyc, Hnd.
  apply (cyc_rot (mem s) l1 (x :: l2)) in Hcyc.
  change ((x :: l2) ++ l1) with (x :: (l2 ++ l1)) in Hcyc.
  assert (Hnd' : NoDup (x :: (l2 ++ l1))) by (apply (NoDup_rot l1 (x :: l2)), Hnd).
  assert (Hin : forall y, y ∈ x :: (l2 ++ l1) -> y ∈ L c).
  { intros y Hy. rewrite HL. rewrite elem_of_cons, elem_of_app in Hy.
    rewrite elem_of_app, elem_of_cons. tauto. }
  destruct (cyc_head _ _ _ Hcyc) as (Hn & Hp & _ & _).
  destruct (node_block s bs L Ht Hl c x Hc Hx)
    as (szx & Hbx & Hix & Hvh & Hvx & Hvx8 & Hx0 & Hx8 & Hszx).
  unfold removenode, prev_field.
  rewrite (next_field_small x) by lia.
  rewrite (bind_ok _ _ _ _ _ (load_run s _ Hvx8)).
  rewrite (bind_ok _ _ _ _ _ (get_head_run s c Hc)).
  fold (nxt (mem s) x). rewrite Hn.
  remember (l2 ++ l1) as rest eqn:Hrest.
  destruct rest as [| n r'].
  - (* the only node of its list *)
    symmetry in Hrest. apply app_eq_nil in Hrest as [-> ->].
    simpl in Hh, HL. cbn [hd]. rewrite Hh.
    rewrite Z.eqb_refl. cbn [andb].
    exists (with_head s (<[Z.to_nat c := 0]> (head s))), (upd L c []).
    split; [apply set_head_run, Hc |].
    split; [reflexivity |]. split; [reflexivity |]. split; [reflexivity |].
    assert (Hlen : length (<[Z.to_nat c := 0]> (head s)) = 16%nat)
      by (rewrite length_insert; apply (t_heads _ _ Ht)).
    split; [apply Tiled_with_head; assumption |].
    split; [| split; [| apply kept_refl]].
    + constructor.
      * intros c' Hc'. rewrite head_at_set by (try lia; apply (t_heads _ _ Ht)).
        unfold upd. destruct (Z.eq_dec c c') as [<- | Hne].
        -- destruct (Z.eq_dec c c); [| congruence]. split; [reflexivity | exact I].
        -- destruct (Z.eq_dec c' c); [congruence |].
           apply (l_dll _ _ _ Hl c' Hc').
      * intros c' Hc'. unfold upd. destruct (Z.eq_dec c' c); [constructor |].
        apply (l_nodup _ _ _ Hl c' Hc').
      * intros c' y Hc' Hy. unfold upd in Hy.
        destruct (Z.eq_dec c' c); [inversion Hy |].
        apply (l_sound _ _ _ Hl c' y Hc' Hy).
    + intros c' y Hc'. unfold upd. destruct (Z.eq_dec c' c) as [-> | Hne].
      * rewrite HL. rewrite list_elem_of_singleton. split; [intros H; inversion H | tauto].
      * split; [| tauto]. intros Hy. split; [exact Hy |]. intros ->.
        apply Hne. eapply (node_class s bs L); eauto.
  - (* at least one other node *)
    cbn [hd].
    assert (Hnx : n <> x).
    { apply NoDup_cons in Hnd' as [Hxn _]. intros ->. apply Hxn. left. }
    destruct (Z.eqb_spec x n) as [| _]; [congruence |]. cbn [andb].
    set (p := List.last (n :: r') x) in *.
    assert (Hpin : p ∈ n :: r') by (apply last_elem_of; discriminate).
    assert (Hpx : p <> x).
    { apply NoDup_cons in Hnd' as [Hxn _]. intros Heq. apply Hxn.
      rewrite <- Heq. exact Hpin. }
    assert (HnL : n ∈ L c) by (apply Hin; right; left).
    assert (HpL : p ∈ L c) by (apply Hin; right; exact Hpin).
    destruct (node_block s bs L Ht Hl c n Hc HnL)
      as (szn & Hbn & _ & _ & Hvn & Hvn8 & Hn0 & Hn8 & Hszn).
    destruct (node_block s bs L Ht Hl c p Hc HpL)
      as (szp & Hbp & _ & _ & Hvp & Hvp8 & Hp0 & Hp8 & Hszp).
    pose proof (nodes_apart s bs L Ht Hl c x c p Hc Hc Hx HpL) as Hap_xp.
    pose proof (nodes_apart s bs L Ht Hl c x c n Hc Hc Hx HnL) as Hap_xn.
    set (hd' := if Z.eq_dec (head_at s c) x then <[Z.to_nat c := n]> (head s)
                else head s).
    set (s1 := with_head s hd').
    assert (Hstep : forall B (k : unit -> M B),
      bind (if head_at s c =? x then set_head c n else ret tt) k s = k tt s1).
    { intros B k. unfold s1, hd'.
      destruct (Z.eqb_spec (head_at s c) x) as [He | He];
        destruct (Z.eq_dec (head_at s c) x); try congruence.
      - rewrite (bind_ok _ _ _ _ _ (set_head_run s c n Hc)). reflexivity.
      - rewrite with_head_id. reflexivity. }
    rewrite Hstep.
    assert (Hvs1 : forall a, valid s a -> valid s1 a) by (intros a Ha; exact Ha).
    rewrite (bind_ok _ _ _ _ _ (load_run s1 _ (Hvs1 _ Hvx))).
    rewrite (bind_ok _ _ _ _ _ (load_run s1 _ (Hvs1 _ Hvx8))).
    change (mem s1) with (mem s).
    fold (nxt (mem s) x) (prv (mem s) x). rewrite Hn, Hp. cbn [hd].
    rewrite (next_field_small p) by lia.
    rewrite (bind_ok _ _ _ _ _ (store_run s1 _ _ (Hvs1 _ Hvp8))).
    set (s2 := with_mem s1 _).
    assert (Hvs2 : forall a, valid s a -> valid s2 a) by (intros a Ha; exact Ha).
    rewrite (bind_ok _ _ _ _ _ (load_run s2 _ (Hvs2 _ Hvx8))).
    rewrite (bind_ok _ _ _ _ _ (load_run s2 _ (Hvs2 _ Hvx))).
    assert (Hr1 : load64 (mem s2) (x + 8) = n).
    { unfold s2. simpl mem. rewrite load64_store64_ne by (unfold apart in *; lia).
      exact Hn. }
    assert (Hr2 : load64 (mem s2) x = p).
    { unfold s2. simpl mem. rewrite load64_store64_ne by (unfold apart in *; lia).
      exact Hp. }
    rewrite Hr1, Hr2.
    rewrite (store_run s2 n p (Hvs2 _ Hvn)).
    set (m' := store64 (mem s2) n p).
    exists (with_mem s2 m'), (upd L c (l1 ++ l2)).
    split; [reflexivity |].
    split; [reflexivity |]. split; [reflexivity |]. split; [reflexivity |].
    assert (Hlen : length hd' = 16%nat).
    { unfold hd'. destruct (Z.eq_dec _ _); [rewrite length_insert |];
        apply (t_heads _ _ Ht). }
    assert (Hcyc' : cyc m' (n :: r')).
    { unfold m', s2. simpl mem.
      pose proof (cyc_remove_head (mem s) x (n :: r') Hnd' ltac:(discriminate)) as Hrm.
      rewrite Hn, Hp in Hrm. cbn [hd] in Hrm. fold p in Hrm.
      apply Hrm; [| exact Hcyc].
      intros y z Hy Hz. eapply (nodes_apart s bs L); eauto. }
    split.
    { (* the tiling *)
      unfold m', s2.
      apply (Tiled_store_inside _ bs (n - 8) szn false);
        [| exact Hbn | lia | lia].
      apply (Tiled_store_inside s1 bs (p - 8) szp false);
        [| exact Hbp | lia | lia].
      apply Tiled_with_head; assumption. }
    split.
    { constructor.
      - intros c' Hc'. simpl mem.
        change (head_at (with_mem s2 m') c') with (head_at s1 c').
        unfold upd. destruct (Z.eq_dec c' c) as [-> | Hne].
        + (* the list the node left *)
          split.
          * unfold s1, hd'. destruct l1 as [| y l1'].
            -- simpl in Hh, Hrest. destruct (Z.eq_dec (head_at s c) x); [| congruence].
               rewrite head_at_set by (try lia; apply (t_heads _ _ Ht)).
               destruct (Z.eq_dec c c); [| congruence].
               rewrite app_nil_r in Hrest. simpl. rewrite <- Hrest. reflexivity.
            -- simpl in Hh. simpl.
               assert (Hyx : y <> x).
               { intros ->. simpl in Hnd. apply NoDup_cons in Hnd as [Hf _].
                 apply Hf. apply elem_of_app. right. left. }
               destruct (Z.eq_dec (head_at s c) x); [congruence |].
               rewrite with_head_id. exact Hh.
          * apply (cyc_rot m' l2 l1). rewrite <- Hrest. exact Hcyc'.
        + (* the other lists *)
          assert (Hhd : head_at s1 c' = head_at s c').
          { unfold s1, hd'. destruct (Z.eq_dec (head_at s c) x).
            - rewrite head_at_set by (try lia; apply (t_heads _ _ Ht)).
              destruct (Z.eq_dec c c'); congruence.
            - rewrite with_head_id. reflexivity. }
          rewrite Hhd.
          eapply dll_frame; [| apply (l_dll _ _ _ Hl c' Hc')].
          intros y b Hy Hb.
          assert (Hyp : y <> p) by (intros ->; apply Hne; eapply (node_class s bs L); eauto).
          assert (Hyn : y <> n) by (intros ->; apply Hne; eapply (node_class s bs L); eauto).
          pose proof (nodes_apart s bs L Ht Hl c' y c p Hc' Hc Hy HpL).
          pose proof (nodes_apart s bs L Ht Hl c' y c n Hc' Hc Hy HnL).
          unfold m', s2. simpl mem.
          rewrite !byte_at_store64_out by (unfold apart in *; lia). reflexivity.
      - intros c' Hc'. unfold upd. destruct (Z.eq_dec c' c) as [-> | Hne].
        + eapply NoDup_mid, Hnd.
        + apply (l_nodup _ _ _ Hl c' Hc').
      - intros c' y Hc' Hy. unfold upd in Hy.
        change (first_block (with_mem s2 m')) with (first_block s).
        destruct (Z.eq_dec c' c) as [-> | Hne].
        + apply (l_sound _ _ _ Hl c y Hc). rewrite HL.
          apply (elem_of_mid_nodup l1 l2 x y Hnd) in Hy. tauto.
        + apply (l_sound _ _ _ Hl c' y Hc' Hy). }
    split.
    { intros c' y Hc'. unfold upd. destruct (Z.eq_dec c' c) as [-> | Hne].
      + rewrite HL. apply elem_of_mid_nodup, Hnd.
      + split; [| tauto]. intros Hy. split; [exact Hy |]. intros ->.
        apply Hne. eapply (node_class s bs L); eauto. }
    unfold m', s2. simpl mem.
    pose proof (Tiled_sized _ _ Ht) as Hz.
    eapply kept_trans.
    { apply (kept_store _ bs (mem s) (p - 8) szp false (p + 8) n Hz Hbp); lia. }
    apply (kept_store _ bs _ (n - 8) szn false n p Hz Hbn); lia.
Qed.

Lemma removenode_Lists s bs L c x :
  Tiled s bs -> Lists s bs L -> 0 <= c < 16 -> x ∈ L c ->
  exists s' L',
    removenode x c s = Ok tt s' /\
    heap_lo s' = heap_lo s /\ heap_brk s' = heap_brk s /\
    heap_max s' = heap_max s /\
    Tiled s' bs /\ Lists s' bs L' /\
    (forall c' y, 0 <= c' < 16 -> (y ∈ L' c' <-> y ∈ L c' /\ y <> x)).
Proof.
  intros Ht Hl Hc Hx.
  destruct (removenode_Lists_kept s bs L c x Ht Hl Hc Hx)
    as (s' & L' & H1 & H2 & H3 & H4 & H5 & H6 & H7 & _).
  exists s', L'. auto 10.
Qed.

(** *** addnode *)

Lemma n2h_small x : 8 <= x < modulus -> n2h x = x - 8.
Proof. intros H. unfold n2h, decr, w. apply wrap_small. lia. Qed.

Lemma h2n_small h : 0 <= h -> h + 8 < modulus -> h2n h = h + 8.
Proof. intros H0 H. unfold h2n, incr, w. apply wrap_small. lia. Qed.

Lemma get_size_block s bs h sz al :
  Tiled s bs -> block_at (first_block s) bs h sz al ->
  get_size h s = Ok sz s.
Proof.
  intros Ht Hb. pose proof (Tiled_block _ _ _ _ _ Ht Hb) as Hg.
  destruct (seg_block _ _ _ _ _ _ _ (t_seg _ _ Ht) Hb) as (pa' & Hld & _).
  rewrite get_size_run by (unfold valid, first_block in *; lia).
  rewrite Hld, hdr_size by lia. reflexivity.
Qed.

Lemma addnode_Lists_kept s bs L x sz :
  Tiled s bs -> Lists s bs L ->
  block_at (first_block s) bs (x - 8) sz false ->
  (forall c, 0 <= c < 16 -> x ∉ L c) ->
  exists s' L',
    addnode x s = Ok tt s' /\
    heap_lo s' = heap_lo s /\ heap_brk s' = heap_brk s /\
    heap_max s' = heap_max s /\
    Tiled s' bs /\ Lists s' bs L' /\
    (forall c' y, 0 <= c' < 16 ->
       (y ∈ L' c' <-> y ∈ L c' \/ (y = x /\ c' = get_index sz))) /\
    kept (first_block s) bs (mem s) (mem s').
Proof.
  intros Ht Hl Hb Hfresh.
  pose proof (free_block_node s bs Ht _ _ Hb) as (Hvh & Hvx & Hvx8 & Hh0 & Hhm & Hsz & Hsz16).
  replace (x - 8 + 8) with x in Hvx by lia.
  replace (x - 8 + 16) with (x + 8) in Hvx8 by lia.
  set (c := get_index sz).
  assert (Hc : 0 <= c < 16) by (pose proof (get_index_range sz); unfold c; lia).
  unfold addnode, prev_field.
  rewrite n2h_small by lia.
  rewrite (bind_ok _ _ _ _ _ (get_size_block s bs _ _ _ Ht Hb)). fold c.
  rewrite (bind_ok _ _ _ _ _ (get_head_run s c Hc)).
  rewrite (next_field_small x) by lia.
  pose proof (l_dll _ _ _ Hl c Hc) as [Hh Hcyc].
  pose proof (l_nodup _ _ _ Hl c Hc) as Hnd.
  assert (Hsound : forall s' c' y,
    first_block s' = first_block s -> 0 <= c' < 16 ->
    y ∈ upd L c (L c ++ [x]) c' ->
    exists sz0, block_at (first_block s') bs (y - 8) sz0 false /\
                get_index sz0 = c').
  { intros s' c' y Hfb Hc' Hy. rewrite Hfb. unfold upd in Hy.
    destruct (Z.eq_dec c' c) as [-> | Hne].
    - apply elem_of_app in Hy as [Hy | Hy].
      + apply (l_sound _ _ _ Hl c y Hc Hy).
      + apply list_elem_of_singleton in Hy as ->. exists sz. auto.
    - apply (l_sound _ _ _ Hl c' y Hc' Hy). }
  assert (Hmem : forall c' y, 0 <= c' < 16 ->
    (y ∈ upd L c (L c ++ [x]) c' <-> y ∈ L c' \/ (y = x /\ c' = c))).
  { intros c' y Hc'. unfold upd. destruct (Z.eq_dec c' c) as [-> | Hne].
    - rewrite elem_of_app, list_elem_of_singleton. tauto.
    - tauto. }
  assert (HndL : forall c', 0 <= c' < 16 -> NoDup (upd L c (L c ++ [x]) c')).
  { intros c' Hc'. unfold upd. destruct (Z.eq_dec c' c) as [-> | Hne].
    - apply NoDup_app. split; [exact Hnd |]. split; [| apply NoDup_singleton].
      intros y Hy Hy'. apply list_elem_of_singleton in Hy' as ->.
      exact (Hfresh c Hc Hy).
    - apply (l_nodup _ _ _ Hl c' Hc'). }
  assert (Hsep : forall c' y, 0 <= c' < 16 -> y ∈ L c' ->
                              y + 16 <= x \/ x + 16 <= y).
  { intros c' y Hc' Hy.
    assert (Hne : y <> x - 8 + 8).
    { intros Heq. replace (x - 8 + 8) with x in Heq by lia. subst y.
      exact (Hfresh c' Hc' Hy). }
    pose proof (fresh_node_apart s bs L Ht Hl _ _ c' y Hb Hc' Hy Hne). lia. }
  remember (L c) as l eqn:HLc. symmetry in HLc.
  destruct l as [| first r].
  - (* the list was empty *)
    rewrite Hh, Z.eqb_refl.
    rewrite (bind_ok _ _ _ _ _ (set_head_run s c x Hc)).
    set (s1 := with_head s _).
    assert (Hvs1 : forall a, valid s a -> valid s1 a) by (intros a Ha; exact Ha).
    rewrite (bind_ok _ _ _ _ _ (store_run s1 _ _ (Hvs1 _ Hvx))).
    set (s2 := with_mem s1 _).
    rewrite (store_run s2 (x + 8) x (Hvs1 _ Hvx8)).
    set (s3 := with_mem s2 _).
    exists s3, (upd L c ([] ++ [x])).
    split; [reflexivity |].
    split; [reflexivity |]. split; [reflexivity |]. split; [reflexivity |].
    split.
    { unfold s3, s2.
      apply (Tiled_store_inside _ bs (x - 8) sz false); [| exact Hb | lia | lia].
      apply (Tiled_store_inside s1 bs (x - 8) sz false); [| exact Hb | lia | lia].
      apply Tiled_with_head; [exact Ht |].
      rewrite length_insert. apply (t_heads _ _ Ht). }
    split; [| split; [exact Hmem |]].
    2:{ unfold s3, s2. simpl mem. pose proof (Tiled_sized _ _ Ht) as Hz.
        eapply kept_trans.
        { apply (kept_store _ bs (mem s) (x - 8) sz false x x Hz Hb); lia. }
        apply (kept_store _ bs _ (x - 8) sz false (x + 8) x Hz Hb); lia. }
    constructor; [| exact HndL | intros c' y; apply (Hsound s3 c' y); reflexivity].
    intros c' Hc'.
    change (head_at s3 c') with (head_at s1 c'). unfold s1.
    rewrite head_at_set by (try lia; apply (t_heads _ _ Ht)).
    unfold upd. destruct (Z.eq_dec c c') as [<- | Hne].
    + destruct (Z.eq_dec c c); [| congruence]. simpl app.
      split; [reflexivity |]. apply cyc_singleton. lia.
    + destruct (Z.eq_dec c' c); [congruence |].
      eapply dll_frame; [| apply (l_dll _ _ _ Hl c' Hc')].
      intros y b Hy Hb'. pose proof (Hsep c' y Hc' Hy).
      unfold s3, s2. simpl mem.
      rewrite !byte_at_store64_out by lia. reflexivity.
  - (* insertion before the first node *)
    simpl in Hh.
    assert (HfL : first ∈ L c) by (rewrite HLc; left).
    destruct (node_block s bs L Ht Hl c first Hc HfL)
      as (szf & Hbf & _ & _ & Hvf & Hvf8 & Hf0 & Hf8 & Hszf).
    rewrite Hh. destruct (Z.eqb_spec first 0) as [| _]; [lia |].
    destruct (cyc_head _ _ _ Hcyc) as (_ & Hp & _ & _).
    set (last := List.last r first) in *.
    assert (HlL : last ∈ L c).
    { rewrite HLc. unfold last. rewrite <- (last_cons_ne r first 0).
      apply last_elem_of. discriminate. }
    destruct (node_block s bs L Ht Hl c last Hc HlL)
      as (szl & Hbl & _ & _ & Hvl & Hvl8 & Hl0 & Hl8 & Hszl).
    pose proof (Hsep c first Hc HfL) as Hsf.
    pose proof (Hsep c last Hc HlL) as Hsl.
    rewrite (bind_ok _ _ _ _ _ (load_run s _ Hvf)).
    fold (prv (mem s) first). rewrite Hp.
    rewrite (bind_ok _ _ _ _ _ (store_run s _ _ Hvx)).
    set (s1 := with_mem s _).
    assert (Hvs : forall s0 a, heap_lo s0 = heap_lo s -> heap_brk s0 = heap_brk s ->
                               valid s a -> valid s0 a).
    { intros s0 a H1 H2 Ha. unfold valid in *. lia. }
    rewrite (bind_ok _ _ _ _ _ (store_run s1 _ _ (Hvs s1 _ eq_refl eq_refl Hvx8))).
    set (s2 := with_mem s1 _).
    rewrite (bind_ok _ _ _ _ _ (load_run s2 _ (Hvs s2 _ eq_refl eq_refl Hvf))).
    assert (Hr : load64 (mem s2) first = last).
    { unfold s2, s1. simpl mem. rewrite !load64_store64_ne by lia. exact Hp. }
    rewrite Hr. rewrite (next_field_small last) by lia.
    rewrite (bind_ok _ _ _ _ _ (store_run s2 _ _ (Hvs s2 _ eq_refl eq_refl Hvl8))).
    set (s3 := with_mem s2 _).
    rewrite (store_run s3 first x (Hvs s3 _ eq_refl eq_refl Hvf)).
    set (s4 := with_mem s3 _).
    exists s4, (upd L c ((first :: r) ++ [x])).
    split; [reflexivity |].
    split; [reflexivity |]. split; [reflexivity |]. split; [reflexivity |].
    split.
    { unfold s4, s3, s2, s1.
      apply (Tiled_store_inside _ bs (first - 8) szf false); [| exact Hbf | lia | lia].
      apply (Tiled_store_inside _ bs (last - 8) szl false); [| exact Hbl | lia | lia].
      apply (Tiled_store_inside _ bs (x - 8) sz false); [| exact Hb | lia | lia].
      apply (Tiled_store_inside s bs (x - 8) sz false); [| exact Hb | lia | lia].
      exact Ht. }
    split; [| split; [exact Hmem |]].
    2:{ unfold s4, s3, s2, s1. simpl mem. pose proof (Tiled_sized _ _ Ht) as Hz.
        eapply kept_trans; [eapply kept_trans; [eapply kept_trans |] |].
        { apply (kept_store _ bs (mem s) (x - 8) sz false x last Hz Hb); lia. }
        { apply (kept_store _ bs _ (x - 8) sz false (x + 8) first Hz Hb); lia. }
        { apply (kept_store _ bs _ (last - 8) szl false (last + 8) x Hz Hbl); lia. }
        apply (kept_store _ bs _ (first - 8) szf false first x Hz Hbf); lia. }
    constructor; [| exact HndL | intros c' y; apply (Hsound s4 c' y); reflexivity].
    intros c' Hc'.
    change (head_at s4 c') with (head_at s c').
    unfold upd. destruct (Z.eq_dec c' c) as [-> | Hne].
    + rewrite Hh. split; [reflexivity |].
      change ((first :: r) ++ [x]) with (first :: r ++ [x]).
      pose proof (cyc_insert_last (mem s) first r x Hnd) as Hins.
      rewrite Hp in Hins. fold last in Hins.
      apply Hins; [| | | lia | exact Hcyc].
      * rewrite <- HLc. apply Hfresh, Hc.
      * intros y Hy. apply (Hsep c y Hc). rewrite HLc. exact Hy.
      * intros y z Hy Hz. apply (nodes_apart s bs L Ht Hl c y c z Hc Hc);
          rewrite HLc; assumption.
    + eapply dll_frame; [| apply (l_dll _ _ _ Hl c' Hc')].
      intros y b Hy Hb'. pose proof (Hsep c' y Hc' Hy).
      assert (Hyf : y <> first) by (intros ->; apply Hne; eapply (node_class s bs L); eauto).
      assert (Hyl : y <> last) by (intros ->; apply Hne; eapply (node_class s bs L); eauto).
      pose proof (nodes_apart s bs L Ht Hl c' y c first Hc' Hc Hy HfL).
      pose proof (nodes_apart s bs L Ht Hl c' y c last Hc' Hc Hy HlL).
      unfold s4, s3, s2, s1. simpl mem.
      rewrite !byte_at_store64_out by (unfold apart in *; lia). reflexivity.
Qed.

Lemma addnode_Lists s bs L x sz :
  Tiled s bs -> Lists s bs L ->
  block_at (first_block s) bs (x - 8) sz false ->
  (forall c, 0 <= c < 16 -> x ∉ L c) ->
  exists s' L',
    addnode x s = Ok tt s' /\
    heap_lo s' = heap_lo s /\ heap_brk s' = heap_brk s /\
    heap_max s' = heap_max s /\
    Tiled s' bs /\ Lists s' bs L' /\
    (forall c' y, 0 <= c' < 16 ->
       (y ∈ L' c' <-> y ∈ L c' \/ (y = x /\ c' = get_index sz))).
Proof.
  intros Ht Hl Hb Hfresh.
  destruct (addnode_Lists_kept s bs L x sz Ht Hl Hb Hfresh)
    as (s' & L' & H1 & H2 & H3 & H4 & H5 & H6 & H7 & _).
  exists s', L'. auto 10.
Qed.

(** ** Searching the free lists *)

(** The addresses of the blocks laid out from [a]. *)
Lemma block_addrs_spec bs : forall a h sz al,
  block_at a bs h sz al -> h ∈ block_addrs a bs.
Proof.
  induction bs as [| [s0 a0] r IH]; intros a h sz al H; [destruct H |].
  simpl. destruct H as [(-> & _) | H]; [left | right; eapply IH, H].
Qed.

Lemma block_addrs_length bs : forall a, length (block_addrs a bs) = length bs.
Proof. induction bs as [| [s0 a0] r IH]; intros a; simpl; [| rewrite IH]; reflexivity. Qed.

(** A list has no more nodes than the tiling has blocks, so the traversal
    budget is never exhausted. *)
Lemma list_length_bound s bs L c :
  Tiled s bs -> Lists s bs L -> 0 <= c < 16 ->
  (length (L c) < Z.to_nat (heap_brk s - heap_lo s))%nat.
Proof.
  intros Ht Hl Hc.
  assert (Hsub : (fun x => x - 8) <$> L c ⊆+ block_addrs (first_block s) bs).
  { apply NoDup_submseteq.
    - apply NoDup_fmap_2; [| apply (l_nodup _ _ _ Hl c Hc)].
      intros x y Hxy. lia.
    - intros h Hh. apply list_elem_of_fmap in Hh as (x & -> & Hx).
      destruct (l_sound _ _ _ Hl c x Hc Hx) as (sz & Hb & _).
      eapply block_addrs_spec, Hb. }
  apply submseteq_length in Hsub.
  rewrite length_fmap, block_addrs_length in Hsub.
  pose proof (sized_total bs (Tiled_sized _ _ Ht)).
  pose proof (t_end _ _ Ht). unfold first_block in *. lia.
Qed.

Section FindBlock.
Variables (s : mstate) (bs : list block) (L : Z -> list Z) (n : Z).
Hypothesis Ht : Tiled s bs.
Hypothesis Hl : Lists s bs L.

Lemma get_freeblock_loop_kept c : 0 <= c < 16 ->
  forall rem vis x fuel,
    L c = vis ++ x :: rem -> (length rem < fuel)%nat ->
    get_freeblock_loop fuel n c x s = Ok None s \/
    exists y s', get_freeblock_loop fuel n c x s = Ok (Some y) s' /\
                 unlinked s bs L n y s' /\
                 kept (first_block s) bs (mem s) (mem s').
Proof.
  intros Hc. induction rem as [| y rem' IH]; intros vis x fuel HL Hfuel.
  - destruct fuel as [| f]; [simpl in Hfuel; lia |].
    assert (Hx : x ∈ L c) by (rewrite HL; apply elem_of_app; right; left).
    destruct (node_block s bs L Ht Hl c x Hc Hx)
      as (szx & Hbx & Hix & Hvh & Hvx & Hvx8 & Hx0 & Hx8 & Hszx).
    simpl get_freeblock_loop. rewrite n2h_small by lia.
    rewrite (bind_ok _ _ _ _ _ (get_size_block s bs _ _ _ Ht Hbx)).
    destruct (Z.geb_spec szx n) as [Hge | Hlt].
    + right.
      destruct (removenode_Lists_kept s bs L c x Ht Hl Hc Hx)
        as (s' & L' & Hrun & H1 & H2 & H3 & Ht' & Hl' & Hm & Hk).
      exists x, s'. rewrite (bind_ok _ _ _ _ _ Hrun).
      split; [reflexivity |]. split; [| exact Hk]. exists c, szx, L'.
      refine (conj Hc (conj Hx (conj Hbx (conj _ (conj H1 (conj H2
              (conj H3 (conj Ht' (conj Hl' Hm))))))))); lia.
    + left. rewrite (next_field_small x) by lia.
      rewrite (bind_ok _ _ _ _ _ (load_run s _ Hvx8)).
      rewrite (bind_ok _ _ _ _ _ (get_head_run s c Hc)).
      pose proof (l_dll _ _ _ Hl c Hc) as [Hh Hcyc]. rewrite HL in Hh, Hcyc.
      apply (cyc_rot (mem s) vis [x]) in Hcyc. simpl in Hcyc.
      destruct (cyc_head _ _ _ Hcyc) as (Hn & _).
      fold (nxt (mem s) x). rewrite Hn.
      assert (Hhd : head_at s c = hd x vis) by (destruct vis; exact Hh).
      rewrite Hhd, Z.eqb_refl. reflexivity.
  - destruct fuel as [| f]; [simpl in Hfuel; lia |].
    assert (Hx : x ∈ L c) by (rewrite HL; apply elem_of_app; right; left).
    destruct (node_block s bs L Ht Hl c x Hc Hx)
      as (szx & Hbx & Hix & Hvh & Hvx & Hvx8 & Hx0 & Hx8 & Hszx).
    simpl get_freeblock_loop. rewrite n2h_small by lia.
    rewrite (bind_ok _ _ _ _ _ (get_size_block s bs _ _ _ Ht Hbx)).
    destruct (Z.geb_spec szx n) as [Hge | Hlt].
    + right.
      destruct (removenode_Lists_kept s bs L c x Ht Hl Hc Hx)
        as (s' & L' & Hrun & H1 & H2 & H3 & Ht' & Hl' & Hm & Hk).
      exists x, s'. rewrite (bind_ok _ _ _ _ _ Hrun).
      split; [reflexivity |]. split; [| exact Hk]. exists c, szx, L'.
      refine (conj Hc (conj Hx (conj Hbx (conj _ (conj H1 (conj H2
              (conj H3 (conj Ht' (conj Hl' Hm))))))))); lia.
    + rewrite (next_field_small x) by lia.
      rewrite (bind_ok _ _ _ _ _ (load_run s _ Hvx8)).
      rewrite (bind_ok _ _ _ _ _ (get_head_run s c Hc)).
      pose proof (l_dll _ _ _ Hl c Hc) as [Hh Hcyc]. rewrite HL in Hh, Hcyc.
      pose proof (l_nodup _ _ _ Hl c Hc) as Hnd. rewrite HL in Hnd.
      apply (cyc_rot (mem s) vis (x :: y :: rem')) in Hcyc. simpl in Hcyc.
      destruct Hcyc as (Hn & _).
      fold (nxt (mem s) x). rewrite Hn.
      assert (Hhd : head_at s c = hd x vis) by (destruct vis; exact Hh).
      assert (Hne : y <> hd x vis).
      { apply NoDup_app in Hnd as (_ & Hd & Hnd2).
        apply NoDup_cons in Hnd2 as [Hx2 _].
        destruct vis as [| v vis']; simpl.
        - intros ->. apply Hx2. left.
        - intros ->. apply (Hd v); [left | right; left]. }
      rewrite Hhd. destruct (Z.eqb_spec y (hd x vis)) as [| _]; [contradiction |].
      apply (IH (vis ++ [x]) y f).
      * rewrite <- app_assoc. exact HL.
      * simpl in Hfuel. lia.
Qed.

Lemma get_freeblock_loop_spec c : 0 <= c < 16 ->
  forall rem vis x fuel,
    L c = vis ++ x :: rem -> (length rem < fuel)%nat ->
    get_freeblock_loop fuel n c x s = Ok None s \/
    exists y s', get_freeblock_loop fuel n c x s = Ok (Some y) s' /\
                 unlinked s bs L n y s'.
Proof.
  intros Hc rem vis x fuel HL Hfuel.
  destruct (get_freeblock_loop_kept c Hc rem vis x fuel HL Hfuel)
    as [Hnone | (y & s' & Hrun & Hu & _)]; [left; exact Hnone |].
  right. exists y, s'. auto.
Qed.

Lemma get_freeblock_from_kept fuel :
  (forall c, 0 <= c < 16 -> (length (L c) <= fuel)%nat) ->
  forall k i, 0 <= i -> i + Z.of_nat k <= 16 ->
    get_freeblock_from k fuel n i s = Ok 0 s \/
    exists y s', get_freeblock_from k fuel n i s = Ok y s' /\
                 unlinked s bs L n y s' /\
                 kept (first_block s) bs (mem s) (mem s').
Proof.
  intros Hfuel. induction k as [| k IH]; intros i Hi Hk; [left; reflexivity |].
  assert (Hc : 0 <= i < 16) by lia.
  simpl get_freeblock_from.
  rewrite (bind_ok _ _ _ _ _ (get_head_run s i Hc)).
  pose proof (l_dll _ _ _ Hl i Hc) as [Hh _].
  destruct (L i) as [| x r] eqn:HLi.
  - rewrite Hh, Z.eqb_refl. apply IH; lia.
  - assert (Hx : x ∈ L i) by (rewrite HLi; left).
    destruct (node_block s bs L Ht Hl i x Hc Hx) as (_ & _ & _ & _ & _ & _ & Hx0 & _).
    rewrite Hh. destruct (Z.eqb_spec x 0) as [| _]; [lia |].
    pose proof (Hfuel i Hc) as Hf. rewrite HLi in Hf. simpl in Hf.
    destruct (get_freeblock_loop_kept i Hc r [] x fuel HLi ltac:(lia))
      as [Hnone | (y & s' & Hrun & Hu)].
    + rewrite (bind_ok _ _ _ _ _ Hnone). apply IH; lia.
    + right. exists y, s'. rewrite (bind_ok _ _ _ _ _ Hrun). auto.
Qed.

Lemma get_freeblock_from_spec fuel :
  (forall c, 0 <= c < 16 -> (length (L c) <= fuel)%nat) ->
  forall k i, 0 <= i -> i + Z.of_nat k <= 16 ->
    get_freeblock_from k fuel n i s = Ok 0 s \/
    exists y s', get_freeblock_from k fuel n i s = Ok y s' /\
                 unlinked s bs L n y s'.
Proof.
  intros Hfuel k i Hi Hk.
  destruct (get_freeblock_from_kept fuel Hfuel k i Hi Hk)
    as [Hnone | (y & s' & Hrun & Hu & _)]; [left; exact Hnone |].
  right. exists y, s'. auto.
Qed.

Lemma get_freeblock_kept :
  get_freeblock n s = Ok 0 s \/
  exists y s', get_freeblock n s = Ok y s' /\ unlinked s bs L n y s' /\
               kept (first_block s) bs (mem s) (mem s').
Proof.
  unfold get_freeblock, traversal_budget. unfold bind at 1.
  pose proof (get_index_range n) as Hr.
  apply get_freeblock_from_kept.
  - intros c Hc. pose proof (list_length_bound s bs L c Ht Hl Hc). lia.
  - lia.
  - unfold maxindex. lia.
Qed.

Lemma get_freeblock_spec :
  get_freeblock n s = Ok 0 s \/
  exists y s', get_freeblock n s = Ok y s' /\ unlinked s bs L n y s'.
Proof.
  unfold get_freeblock, traversal_budget. unfold bind at 1.
  pose proof (get_index_range n) as Hr.
  apply get_freeblock_from_spec.
  - intros c Hc. pose proof (list_length_bound s bs L c Ht Hl Hc). lia.
  - lia.
  - unfold maxindex. lia.
Qed.
End FindBlock.

(** ** Rewriting a run of blocks *)

(** The suffix of a tiling survives a change of the prev_alloc bit of its
    first header. *)
Lemma tail_retag_frame m m' a pa pa' bs e :
  tail m a pa bs e ->
  load64 m' a = first_hdr pa' bs ->
  (forall x, a + 8 <= x -> byte_at m' x = byte_at m x) ->
  tail m' a pa' bs e.
Proof.
  intros (Hs & He & Hl) Hh Hx. pose proof (seg_sized _ _ _ _ Hs) as Hz.
  destruct bs as [| [sz al] r]; simpl in *.
  - split; [exact I |]. split; [exact He |].
    replace e with a by lia. exact Hh.
  - apply Forall_cons in Hz as [[Hsz _] Hz]. simpl in Hsz.
    pose proof (sized_total _ Hz).
    destruct Hs as (H0 & H1 & H2 & H3 & H4).
    split; [| split; [exact He |]].
    + repeat split; try assumption.
      * intros Hal. etransitivity; [| exact (H3 Hal)]. apply load64_ext.
        intros x Hr. apply Hx. lia.
      * eapply seg_frame; [| exact H4]. intros x Hr. apply Hx. lia.
    + etransitivity; [| exact Hl]. apply load64_ext.
      intros x Hr. apply Hx. lia.
Qed.

Section Region.
Variables (s : mstate) (L : Z -> list Z).
Variables (b1 mid mid' b2 : list block) (m' : gmap Z Z).
Let h := first_block s + total b1.
Let pa := last_alloc true b1.

Hypothesis Ht : Tiled s (b1 ++ mid ++ b2).
Hypothesis Hl : Lists s (b1 ++ mid ++ b2) L.
Hypothesis Htot : total mid' = total mid.
Hypothesis Hseg : seg m' h pa mid'.
Hypothesis Hnext :
  load64 m' (h + total mid) = first_hdr (last_alloc pa mid') b2.
Hypothesis Hframe :
  forall x, ~ (h <= x < h + total mid + 8) -> byte_at m' x = byte_at (mem s) x.
Hypothesis Hnodes :
  forall c y sz, 0 <= c < 16 -> y ∈ L c -> ~ block_at h mid (y - 8) sz false.

Lemma region_Tiled : Tiled (with_mem s m') (b1 ++ mid' ++ b2).
Proof.
  pose proof (Tiled_tail _ _ Ht) as Htl.
  apply tail_app in Htl as [Hs1 Htl]. apply tail_app in Htl as [Hs2 Htl].
  fold h pa in Hs2, Htl.
  pose proof (seg_sized _ _ _ _ Hs1) as Hz1.
  pose proof (sized_total _ Hz1).
  pose proof (sized_total _ (seg_sized _ _ _ _ Hs2)).
  assert (Htl' : tail m' (first_block s) true (b1 ++ mid' ++ b2) (heap_brk s - 8)).
  { apply tail_app. split.
    - eapply seg_frame; [| exact Hs1]. intros x Hr. apply Hframe.
      unfold h. lia.
    - apply tail_app. fold h pa. split; [exact Hseg |]. rewrite Htot.
      eapply tail_retag_frame; [exact Htl | exact Hnext |].
      intros x Hr. apply Hframe. lia. }
  destruct Htl' as (Ha & Hb & Hc). destruct Ht.
  constructor; simpl; assumption.
Qed.

(** Where the blocks of the list nodes are: before or after the region. *)
Lemma region_node c y :
  0 <= c < 16 -> y ∈ L c ->
  exists sz, get_index sz = c /\ 32 <= sz /\
    (block_at (first_block s) b1 (y - 8) sz false /\ y - 8 + sz <= h \/
     block_at (h + total mid) b2 (y - 8) sz false /\ h + total mid <= y - 8).
Proof.
  intros Hc Hy. destruct (l_sound _ _ _ Hl c y Hc Hy) as (sz & Hb & Hi).
  pose proof (Tiled_sized _ _ Ht) as Hz.
  apply sized_app in Hz as [Hz1 Hz2]. apply sized_app in Hz2 as [_ Hz2].
  exists sz. split; [exact Hi |].
  apply block_at_app in Hb as [Hb | Hb].
  - pose proof (block_at_range _ _ _ _ _ Hz1 Hb). split; [lia |]. left.
    split; [exact Hb |]. unfold h. lia.
  - apply block_at_app in Hb as [Hb | Hb].
    + exfalso. exact (Hnodes c y sz Hc Hy Hb).
    + pose proof (block_at_range _ _ _ _ _ Hz2 Hb). split; [lia |]. right.
      split; [exact Hb |]. unfold h. lia.
Qed.

Lemma region_Lists : Lists (with_mem s m') (b1 ++ mid' ++ b2) L.
Proof.
  constructor.
  - intros c Hc. change (head_at (with_mem s m') c) with (head_at s c).
    eapply dll_frame; [| apply (l_dll _ _ _ Hl c Hc)].
    intros y b Hy Hb. simpl mem. apply Hframe.
    destruct (region_node c y Hc Hy) as (sz & _ & Hsz & [[_ Hr] | [_ Hr]]); lia.
  - intros c Hc. apply (l_nodup _ _ _ Hl c Hc).
  - intros c y Hc Hy.
    change (first_block (with_mem s m')) with (first_block s).
    destruct (region_node c y Hc Hy) as (sz & Hi & _ & [[Hb _] | [Hb _]]);
      exists sz; (split; [| exact Hi]).
    + apply block_at_app. left. exact Hb.
    + apply block_at_app. right. apply block_at_app. right.
      fold h. rewrite Htot. exact Hb.
Qed.
End Region.

(** Free blocks outside a rewritten region stay what they were. *)
Lemma block_at_region a b1 mid b2 h sz al :
  block_at a (b1 ++ mid ++ b2) h sz al <->
  block_at a b1 h sz al \/
  block_at (a + total b1) mid h sz al \/
  block_at (a + total b1 + total mid) b2 h sz al.
Proof. rewrite !block_at_app. tauto. Qed.

(** ** Reading the boundary tags of a tiled heap *)

Ltac step H := rewrite ?bind_assoc; rewrite (bind_ok _ _ _ _ _ H).

Lemma bind_ret {A B} (a : A) (k : A -> M B) s : bind (ret a) k s = k a s.
Proof. reflexivity. Qed.

Lemma make_h_run' s p sz pav alv pa al :
  pav = Z.b2z pa -> alv = Z.b2z al ->
  valid s p -> sz mod 16 = 0 -> 0 <= sz -> sz + 3 < modulus ->
  make_h p sz pav alv s =
  Ok p (with_mem s (store64 (mem s) p (hdr sz pa al))).
Proof. intros -> ->. apply make_h_run. Qed.

Lemma Tiled_mid s b1 mid b2 :
  Tiled s (b1 ++ mid ++ b2) ->
  let h := first_block s + total b1 in
  let pa := last_alloc true b1 in
  seg (mem s) h pa mid /\
  load64 (mem s) (h + total mid) = first_hdr (last_alloc pa mid) b2 /\
  first_block s <= h /\ h + total mid + total b2 = heap_brk s - 8 /\
  0 <= total b2 /\ heap_brk s <= modulus /\ 0 < heap_lo s.
Proof.
  intros Ht h pa. pose proof (Tiled_tail _ _ Ht) as Htl.
  apply tail_app in Htl as [Hs1 Htl]. apply tail_app in Htl as [Hs2 Htl].
  pose proof (sized_total _ (seg_sized _ _ _ _ Hs1)).
  pose proof (sized_total _ (tail_sized _ _ _ _ _ Htl)).
  pose proof (tail_head _ _ _ _ _ Htl) as Hh.
  destruct Htl as (_ & He & _). destruct Ht as [? [? ?] _ _ _ _].
  fold h in Hh, He. fold pa in Hh.
  repeat split; try assumption; unfold h; lia.
Qed.

Lemma get_prev_alloc_hdr s p sz pa al :
  valid s p -> load64 (mem s) p = hdr sz pa al -> sz mod 16 = 0 ->
  get_prev_alloc p s = Ok (Z.b2z pa) s.
Proof.
  intros Hv Hld Hsz. rewrite get_prev_alloc_run by exact Hv.
  rewrite Hld, hdr_prev by exact Hsz. reflexivity.
Qed.

Lemma is_alloc_hdr s p sz pa al :
  valid s p -> load64 (mem s) p = hdr sz pa al -> sz mod 16 = 0 ->
  is_alloc p s = Ok (Z.b2z al) s.
Proof.
  intros Hv Hld Hsz. rewrite is_alloc_run by exact Hv.
  rewrite Hld, hdr_alloc by exact Hsz. reflexivity.
Qed.

Lemma get_size_hdr s p sz pa al :
  valid s p -> load64 (mem s) p = hdr sz pa al -> sz mod 16 = 0 ->
  get_size p s = Ok sz s.
Proof.
  intros Hv Hld Hsz. rewrite get_size_run by exact Hv.
  rewrite Hld, hdr_size by exact Hsz. reflexivity.
Qed.

Lemma get_f_hdr s p sz pa al :
  valid s p -> load64 (mem s) p = hdr sz pa al -> sz mod 16 = 0 ->
  8 <= sz -> 0 <= p -> p + sz < modulus ->
  get_f p s = Ok (p + sz - 8) s.
Proof.
  intros Hv Hld Hsz H8 H0 Hm. unfold get_f.
  rewrite (bind_ok _ _ _ _ _ (get_size_hdr s p sz pa al Hv Hld Hsz)).
  unfold ret, incr, w. rewrite (wrap_small (sz - 8)) by lia.
  rewrite wrap_small by lia. f_equal. lia.
Qed.

(** From a footer back to the header of its block. *)
Lemma get_h_footer s f sz :
  valid s f -> load64 (mem s) f = sz -> sz mod 16 = 0 ->
  8 <= sz -> sz - 8 <= f -> f < modulus ->
  get_h f s = Ok (f - (sz - 8)) s.
Proof.
  intros Hv Hld Hsz H8 H0 Hm. unfold get_h.
  rewrite <- (hdr_footer sz) in Hld.
  rewrite (bind_ok _ _ _ _ _ (get_size_hdr s f sz _ _ Hv Hld Hsz)).
  unfold ret, decr, w. rewrite (wrap_small (sz - 8)) by lia.
  rewrite wrap_small by lia. reflexivity.
Qed.

Lemma incr_small p sz : 0 <= p + sz < modulus -> incr p sz = p + sz.
Proof. intros H. unfold incr. apply wrap_small, H. Qed.

Lemma decr_small p sz : 0 <= p - sz < modulus -> decr p sz = p - sz.
Proof. intros H. unfold decr. apply wrap_small, H. Qed.

(** ** allocate *)

Section Allocate.
Variables (s : mstate) (L : Z -> list Z) (b1 b2 : list block) (S n : Z).
Let h := first_block s + total b1.
Let pa := last_alloc true b1.

Hypothesis Ht : Tiled s (b1 ++ [(S, false)] ++ b2).
Hypothesis Hl : Lists s (b1 ++ [(S, false)] ++ b2) L.
Hypothesis Hfresh : forall c, 0 <= c < 16 -> (h + 8) ∉ L c.
Hypothesis Hn : 32 <= n <= S.
Hypothesis Hn16 : n mod 16 = 0.

Lemma allocate_facts :
  load64 (mem s) h = hdr S pa false /\ S mod 16 = 0 /\
  load64 (mem s) (h + S) = first_hdr false b2 /\
  first_block s <= h /\ h + S + total b2 = heap_brk s - 8 /\
  0 <= total b2 /\ heap_brk s <= modulus /\ 0 < heap_lo s.
Proof.
  destruct (Tiled_mid s b1 [(S, false)] b2 Ht) as (Hs & Hnx & Hg).
  fold h pa in Hs, Hnx, Hg. simpl in Hs, Hnx, Hg.
  rewrite Z.add_0_r in Hnx, Hg.
  destruct Hs as (H0 & H1 & H2 & _). repeat split; try tauto; lia.
Qed.

Lemma allocate_nodes c y sz :
  0 <= c < 16 -> y ∈ L c -> ~ block_at h [(S, false)] (y - 8) sz false.
Proof.
  intros Hc Hy [(He & _) | []]. apply (Hfresh c Hc).
  replace (h + 8) with y by lia. exact Hy.
Qed.

(** The block is split: [n] bytes are allocated, the rest stays free. *)
Lemma allocate_none h0 sz0 : ~ block_at h [(S, false)] h0 sz0 true.
Proof. intros [(_ & _ & Hal) | []]. discriminate. Qed.

Lemma allocate_split_kept :
  32 <= S - n ->
  exists s' L',
    allocate h n s = Ok (h + 8) s' /\
    heap_lo s' = heap_lo s /\ heap_brk s' = heap_brk s /\
    heap_max s' = heap_max s /\
    Tiled s' (b1 ++ [(n, true); (S - n, false)] ++ b2) /\
    Lists s' (b1 ++ [(n, true); (S - n, false)] ++ b2) L' /\
    (forall c' y, 0 <= c' < 16 ->
       (y ∈ L' c' <-> y ∈ L c' \/ (y = h + n + 8 /\ c' = get_index (S - n)))) /\
    kept (first_block s) (b1 ++ [(S, false)] ++ b2) (mem s) (mem s').
Proof.
  intros Hsplit.
  destruct allocate_facts as (Hld & HS16 & Hnx & Hg1 & Hg2 & Hg3 & Hg4 & Hg5).
  unfold first_block in Hg1.
  assert (Hv : forall a, h <= a -> a + 8 <= h + S + 8 -> valid s a)
    by (intros a H1 H2; unfold valid; lia).
  unfold allocate.
  step (get_size_hdr s h S pa false (Hv h ltac:(lia) ltac:(lia)) Hld HS16).
  rewrite (wrap_small (S - n)) by lia.
  change (4 * w) with 32.
  destruct (Z.geb_spec (S - n) 32) as [_ | Hc]; [| lia].
  rewrite (incr_small h n) by lia.
  step (get_f_hdr s h S pa false (Hv h ltac:(lia) ltac:(lia)) Hld HS16
          ltac:(lia) ltac:(lia) ltac:(lia)).
  step (get_prev_alloc_hdr s h S pa false (Hv h ltac:(lia) ltac:(lia)) Hld HS16).
  pose (m1 := store64 (mem s) h (hdr n pa true)).
  pose (m2 := store64 m1 (h + n) (hdr (S - n) true false)).
  pose (m3 := store64 m2 (h + S - 8) (S - n)).
  step (make_h_run' s h n _ 1 pa true eq_refl eq_refl
          (Hv h ltac:(lia) ltac:(lia)) Hn16 ltac:(lia) ltac:(lia)).
  step (make_h_run' (with_mem s m1) (h + n) (S - n) 1 0 true false eq_refl eq_refl
          (Hv (h + n) ltac:(lia) ltac:(lia)) ltac:(zlia) ltac:(lia) ltac:(lia)).
  step (make_f_run (with_mem s m2) (h + S - 8) (S - n)
          (Hv (h + S - 8) ltac:(lia) ltac:(lia)) ltac:(lia)).
  change (with_mem (with_mem s m2) _) with (with_mem s m3).
  rewrite (h2n_small (h + n)) by lia.
  assert (Hld1 : load64 m3 h = hdr n pa true).
  { unfold m3, m2, m1. rewrite !load64_store64_ne by lia.
    rewrite load64_store64_eq. apply wrap_small, hdr_range; lia. }
  assert (Hld2 : load64 m3 (h + n) = hdr (S - n) true false).
  { unfold m3, m2. rewrite !load64_store64_ne by lia.
    rewrite load64_store64_eq. apply wrap_small, hdr_range; lia. }
  assert (Hld3 : load64 m3 (h + S - 8) = S - n).
  { unfold m3. rewrite load64_store64_eq. apply wrap_small. lia. }
  assert (Hfr : forall x, ~ (h <= x < h + S) -> byte_at m3 x = byte_at (mem s) x).
  { intros x Hx. unfold m3, m2, m1. rewrite !byte_at_store64_out by lia.
    reflexivity. }
  assert (Hseg : seg m3 h pa [(n, true); (S - n, false)]).
  { simpl. replace (h + n + (S - n) - 8) with (h + S - 8) by lia.
    repeat split; try assumption; try lia; try zlia; try discriminate. }
  assert (Hnext : load64 m3 (h + total [(S, false)])
                  = first_hdr (last_alloc pa [(n, true); (S - n, false)]) b2).
  { simpl. rewrite Z.add_0_r. rewrite <- Hnx. apply load64_ext.
    intros x Hx. apply Hfr. lia. }
  assert (Htot : total [(n, true); (S - n, false)] = total [(S, false)])
    by (simpl; lia).
  assert (Hframe : forall x, ~ (h <= x < h + total [(S, false)] + 8) ->
                             byte_at m3 x = byte_at (mem s) x).
  { intros x Hx. apply Hfr. simpl in Hx. lia. }
  pose proof (region_Tiled s b1 [(S, false)] _ b2 m3 Ht Htot Hseg Hnext Hframe) as Ht3.
  pose proof (region_Lists s L b1 [(S, false)] _ b2 m3 Ht Hl Htot Hframe allocate_nodes)
    as Hl3.
  assert (Hb3 : block_at (first_block (with_mem s m3))
                  (b1 ++ [(n, true); (S - n, false)] ++ b2)
                  (h + n + 8 - 8) (S - n) false).
  { apply block_at_region. right. left. simpl. right. left.
    unfold h, first_block. simpl. split; [lia | auto]. }
  assert (Hfresh3 : forall c, 0 <= c < 16 -> (h + n + 8) ∉ L c).
  { intros c Hc Hy.
    destruct (region_node s L b1 [(S, false)] b2 Ht Hl allocate_nodes c _ Hc Hy)
      as (sz & _ & Hsz & [[_ Hr] | [_ Hr]]); fold h in Hr; simpl in Hr; lia. }
  destruct (addnode_Lists_kept _ _ L (h + n + 8) (S - n) Ht3 Hl3 Hb3 Hfresh3)
    as (s' & L' & Hrun & H1 & H2 & H3 & Ht' & Hl' & Hm & Hk).
  exists s', L'. step Hrun. rewrite (incr_small h w) by (unfold w; lia).
  split; [reflexivity |].
  refine (conj H1 (conj H2 (conj H3 (conj Ht' (conj Hl' (conj Hm _)))))).
  apply (kept_trans _ _ _ m3).
  - apply kept_region; [apply (Tiled_sized _ _ Ht) | exact allocate_none |
                        exact Hframe].
  - refine (kept_sub _ _ _ _ _ _ _ Hk). intros h0 sz0 Hb0.
    change (first_block (with_mem s m3)) with (first_block s).
    apply block_at_region in Hb0 as [Hb0 | [Hb0 | Hb0]]; apply block_at_region.
    + left. exact Hb0.
    + destruct (allocate_none _ _ Hb0).
    + right. right. rewrite Htot. exact Hb0.
Qed.

Lemma allocate_split :
  32 <= S - n ->
  exists s' L',
    allocate h n s = Ok (h + 8) s' /\
    heap_lo s' = heap_lo s /\ heap_brk s' = heap_brk s /\
    heap_max s' = heap_max s /\
    Tiled s' (b1 ++ [(n, true); (S - n, false)] ++ b2) /\
    Lists s' (b1 ++ [(n, true); (S - n, false)] ++ b2) L' /\
    (forall c' y, 0 <= c' < 16 ->
       (y ∈ L' c' <-> y ∈ L c' \/ (y = h + n + 8 /\ c' = get_index (S - n)))).
Proof.
  intros Hsplit.
  destruct (allocate_split_kept Hsplit)
    as (s' & L' & H1 & H2 & H3 & H4 & H5 & H6 & H7 & _).
  exists s', L'. auto 10.
Qed.

(** The block is consumed whole, and the successor learns about it. *)
Lemma allocate_whole_kept :
  S - n < 32 ->
  exists s',
    allocate h n s = Ok (h + 8) s' /\
    heap_lo s' = heap_lo s /\ heap_brk s' = heap_brk s /\
    heap_max s' = heap_max s /\
    Tiled s' (b1 ++ [(S, true)] ++ b2) /\
    Lists s' (b1 ++ [(S, true)] ++ b2) L /\
    kept (first_block s) (b1 ++ [(S, false)] ++ b2) (mem s) (mem s').
Proof.
  intros Hwhole.
  destruct allocate_facts as (Hld & HS16 & Hnx & Hg1 & Hg2 & Hg3 & Hg4 & Hg5).
  unfold first_block in Hg1.
  assert (Hv : forall a, h <= a -> a + 8 <= h + S + 8 -> valid s a)
    by (intros a H1 H2; unfold valid; lia).
  unfold allocate.
  step (get_size_hdr s h S pa false (Hv h ltac:(lia) ltac:(lia)) Hld HS16).
  rewrite (wrap_small (S - n)) by lia.
  change (4 * w) with 32.
  destruct (Z.geb_spec (S - n) 32) as [Hc | _]; [lia |].
  step (get_prev_alloc_hdr s h S pa false (Hv h ltac:(lia) ltac:(lia)) Hld HS16).
  pose (m1 := store64 (mem s) h (hdr S pa true)).
  step (make_h_run' s h S _ 1 pa true eq_refl eq_refl
          (Hv h ltac:(lia) ltac:(lia)) HS16 ltac:(lia) ltac:(lia)).
  rewrite (incr_small h S) by lia.
  assert (Hz2 : sized b2).
  { pose proof (Tiled_sized _ _ Ht) as Hz. apply sized_app in Hz as [_ Hz].
    apply sized_app in Hz as [_ Hz]. exact Hz. }
  assert (Hnx1 : load64 m1 (h + S) = first_hdr false b2).
  { unfold m1. rewrite load64_store64_ne by lia. exact Hnx. }
  pose (m2 := store64 m1 (h + S) (first_hdr true b2)).
  assert (Hrun : exists r, set_prev_alloc (h + S) (with_mem s m1)
                           = Ok r (with_mem s m2)).
  { destruct b2 as [| [sz2 al2] r2]; simpl in Hnx1; eexists.
    - apply (set_prev_alloc_run (with_mem s m1) (h + S) 0 false true);
        [apply Hv; lia | exact Hnx1 | reflexivity].
    - apply Forall_cons in Hz2 as [[Hsz2 Hm2] _]. simpl in Hsz2, Hm2.
      apply (set_prev_alloc_run (with_mem s m1) (h + S) sz2 false al2);
        [apply Hv; lia | exact Hnx1 | exact Hm2]. }
  destruct Hrun as (r & Hrun). step Hrun.
  exists (with_mem s m2). rewrite (incr_small h w) by (unfold w; lia).
  split; [reflexivity |].
  split; [reflexivity |]. split; [reflexivity |]. split; [reflexivity |].
  assert (Hrange : 0 <= first_hdr true b2 < modulus).
  { apply first_hdr_range; [exact Hz2 | lia]. }
  assert (Hseg : seg m2 h pa [(S, true)]).
  { simpl. repeat split; try lia; try discriminate.
    unfold m2, m1. rewrite load64_store64_ne by lia.
    rewrite load64_store64_eq. apply wrap_small, hdr_range; lia. }
  assert (Hnext : load64 m2 (h + total [(S, false)])
                  = first_hdr (last_alloc pa [(S, true)]) b2).
  { simpl. rewrite Z.add_0_r. unfold m2. rewrite load64_store64_eq.
    apply wrap_small, Hrange. }
  assert (Hframe : forall x, ~ (h <= x < h + total [(S, false)] + 8) ->
                             byte_at m2 x = byte_at (mem s) x).
  { intros x Hx. simpl in Hx. unfold m2, m1.
    rewrite !byte_at_store64_out by lia. reflexivity. }
  split; [| split].
  - apply (region_Tiled s b1 [(S, false)] [(S, true)] b2 m2 Ht eq_refl Hseg Hnext Hframe).
  - apply (region_Lists s L b1 [(S, false)] [(S, true)] b2 m2 Ht Hl eq_refl Hframe allocate_nodes).
  - apply kept_region; [apply (Tiled_sized _ _ Ht) | exact allocate_none |
                        exact Hframe].
Qed.

Lemma allocate_whole :
  S - n < 32 ->
  exists s',
    allocate h n s = Ok (h + 8) s' /\
    heap_lo s' = heap_lo s /\ heap_brk s' = heap_brk s /\
    heap_max s' = heap_max s /\
    Tiled s' (b1 ++ [(S, true)] ++ b2) /\
    Lists s' (b1 ++ [(S, true)] ++ b2) L.
Proof.
  intros Hwhole.
  destruct (allocate_whole_kept Hwhole)
    as (s' & H1 & H2 & H3 & H4 & H5 & H6 & _).
  exists s'. auto 10.
Qed.
End Allocate.

(** ** Release and coalescing *)

Lemma first_hdr_decode pa bs :
  first_hdr pa bs = hdr (next_size bs) pa (next_alloc bs).
Proof. destruct bs as [| [sz al] r]; reflexivity. Qed.

Lemma sized_next_size bs :
  sized bs -> next_size bs mod 16 = 0 /\ 0 <= next_size bs <= total bs.
Proof.
  intros Hz. destruct bs as [| [sz al] r]; simpl; [split; [reflexivity | lia] |].
  apply Forall_cons in Hz as [[H1 H2] Hz]. simpl in H1, H2.
  pose proof (sized_total _ Hz). split; [exact H2 | lia].
Qed.

(** The last phase of every case: the run [mid] of blocks has been rewritten
    in [m'] as one free block, and that block is put on its list. *)
(** Payloads kept with respect to a run of blocks are kept with respect to
    the one free block that replaces the run. *)
Lemma kept_merge a b1 mid b2 T m m' :
  total mid = T ->
  kept a (b1 ++ mid ++ b2) m m' -> kept a (b1 ++ [(T, false)] ++ b2) m m'.
Proof.
  intros HT. apply kept_sub. intros h sz Hb.
  apply block_at_region in Hb as [Hb | [Hb | Hb]]; apply block_at_region.
  - left. exact Hb.
  - simpl in Hb. destruct Hb as [(_ & _ & Hal) | []]. discriminate.
  - right. right. simpl in Hb. rewrite Z.add_0_r in Hb. rewrite HT. exact Hb.
Qed.

Section Finish.
Variables (s : mstate) (L : Z -> list Z).
Variables (b1 mid b2 : list block) (m' : gmap Z Z) (T : Z).
Let h := first_block s + total b1.
Let pa := last_alloc true b1.

Hypothesis HTeq : total mid = T.
Hypothesis Ht : Tiled s (b1 ++ mid ++ b2).
Hypothesis Hl : Lists s (b1 ++ mid ++ b2) L.
Hypothesis HT : 32 <= T /\ T mod 16 = 0.
Hypothesis Hhdr : load64 m' h = hdr T pa false.
Hypothesis Hftr : load64 m' (h + T - 8) = T.
Hypothesis Hnext : load64 m' (h + T) = first_hdr false b2.
Hypothesis Hframe :
  forall x, ~ (h <= x < h + T + 8) -> byte_at m' x = byte_at (mem s) x.
Hypothesis Hnodes :
  forall c y sz, 0 <= c < 16 -> y ∈ L c -> ~ block_at h mid (y - 8) sz false.

Lemma coalesce_finish_kept :
  exists s' L',
    addnode (h + 8) (with_mem s m') = Ok tt s' /\
    heap_lo s' = heap_lo s /\ heap_brk s' = heap_brk s /\
    heap_max s' = heap_max s /\
    Tiled s' (b1 ++ [(T, false)] ++ b2) /\
    Lists s' (b1 ++ [(T, false)] ++ b2) L' /\
    (forall c' y, 0 <= c' < 16 ->
       (y ∈ L' c' <-> y ∈ L c' \/ (y = h + 8 /\ c' = get_index T))) /\
    kept (first_block s) (b1 ++ [(T, false)] ++ b2) (mem s) (mem s').
Proof.
  assert (Htot : total [(T, false)] = total mid) by (simpl; lia).
  rewrite <- HTeq in Hnext, Hframe.
  assert (Hseg : seg m' h pa [(T, false)]).
  { simpl. repeat split; try tauto. }
  pose proof (region_Tiled s b1 mid [(T, false)] b2 m' Ht Htot Hseg Hnext Hframe) as Ht'.
  pose proof (region_Lists s L b1 mid [(T, false)] b2 m' Ht Hl Htot Hframe Hnodes) as Hl'.
  assert (Hb : block_at (first_block (with_mem s m')) (b1 ++ [(T, false)] ++ b2)
                 (h + 8 - 8) T false).
  { apply block_at_region. right. left. simpl. left.
    unfold h, first_block. simpl. split; [lia | auto]. }
  assert (Hfresh : forall c, 0 <= c < 16 -> (h + 8) ∉ L c).
  { intros c Hc Hy.
    destruct (region_node s L b1 mid b2 Ht Hl Hnodes c _ Hc Hy)
      as (sz & _ & Hsz & [[_ Hr] | [_ Hr]]); fold h in Hr; lia. }
  destruct (addnode_Lists_kept _ _ L (h + 8) T Ht' Hl' Hb Hfresh)
    as (s' & L' & Hrun & H1 & H2 & H3 & Ht'' & Hl'' & Hm & Hk).
  exists s', L'.
  refine (conj Hrun (conj H1 (conj H2 (conj H3 (conj Ht'' (conj Hl''
         (conj Hm _))))))).
  apply (kept_trans _ _ _ m'); [| exact Hk].
  apply (kept_region (first_block s) b1 [(T, false)] b2).
  - apply (Tiled_sized _ _ Ht').
  - intros h0 sz0 [(_ & _ & Hal) | []]. discriminate.
  - intros x Hx. apply Hframe. fold h in Hx. simpl in Hx. lia.
Qed.
End Finish.

(** *** Both neighbours allocated *)

Section CaseA.
Variables (s : mstate) (L : Z -> list Z) (b1 b2 : list block) (sz : Z).
Let H := first_block s + total b1.

Hypothesis Ht : Tiled s (b1 ++ [(sz, true)] ++ b2).
Hypothesis Hl : Lists s (b1 ++ [(sz, true)] ++ b2) L.
Hypothesis Hpa : last_alloc true b1 = true.
Hypothesis Hna : next_alloc b2 = true.

Lemma free_hf_alone_kept :
  exists s' L',
    free_hf H s = Ok (H + 8) s' /\
    heap_lo s' = heap_lo s /\ heap_brk s' = heap_brk s /\
    heap_max s' = heap_max s /\
    Tiled s' (b1 ++ [(sz, false)] ++ b2) /\
    Lists s' (b1 ++ [(sz, false)] ++ b2) L' /\
    (forall c' y, 0 <= c' < 16 ->
       (y ∈ L' c' <-> y ∈ L c' \/ (y = H + 8 /\ c' = get_index sz))) /\
    kept (first_block s) (b1 ++ [(sz, false)] ++ b2) (mem s) (mem s').
Proof.
  destruct (Tiled_mid s b1 [(sz, true)] b2 Ht) as (Hs & Hnx & Hg1 & Hg2 & Hg3 & Hg4 & Hg5).
  fold H in Hs, Hnx, Hg1, Hg2. rewrite Hpa in Hs, Hnx.
  simpl in Hs, Hnx, Hg2. rewrite Z.add_0_r in Hnx, Hg2.
  destruct Hs as (Hld & Hsz & Hsz16 & _).
  rewrite first_hdr_decode, Hna in Hnx.
  assert (Hz2 : sized b2).
  { pose proof (Tiled_sized _ _ Ht) as Hz. apply sized_app in Hz as [_ Hz].
    apply sized_app in Hz as [_ Hz]. exact Hz. }
  destruct (sized_next_size b2 Hz2) as (Hns16 & Hns).
  unfold first_block in Hg1.
  assert (Hv : forall a, H - 8 <= a -> a + 8 <= H + sz + 8 -> valid s a)
    by (intros a H1 H2; unfold valid; lia).
  assert (HvH : valid s H) by (apply Hv; lia).
  assert (HvN : valid s (H + sz)) by (apply Hv; lia).
  assert (HvP : valid s (H - 8)) by (apply Hv; lia).
  assert (HvF : valid s (H + sz - 8)) by (apply Hv; lia).
  unfold free_hf, w.
  rewrite (decr_small H 8) by lia.
  step (get_f_hdr s H sz true true HvH Hld Hsz16
          ltac:(lia) ltac:(lia) ltac:(lia)).
  rewrite (incr_small (H + sz - 8) 8) by lia.
  replace (H + sz - 8 + 8) with (H + sz) by lia.
  step (get_prev_alloc_hdr s H sz true true HvH Hld Hsz16).
  step (is_alloc_hdr s (H + sz) _ true true HvN Hnx Hns16).
  step (get_size_hdr s H sz true true HvH Hld Hsz16).
  step (get_size_run s (H - 8) HvP).
  step (get_size_hdr s (H + sz) _ true true HvN Hnx Hns16).
  cbn [Z.b2z Z.eqb Pos.eqb andb].
  match goal with
  | |- context [wrap ?e] => replace (wrap e) with sz
      by (replace e with sz by lia; symmetry; apply wrap_small; lia)
  end.
  pose (m1 := store64 (mem s) H (hdr sz true false)).
  pose (m2 := store64 m1 (H + sz - 8) sz).
  pose (m3 := store64 m2 (H + sz) (hdr (next_size b2) false true)).
  step (make_h_run' s H sz 1 0 true false eq_refl eq_refl
          HvH Hsz16 ltac:(lia) ltac:(lia)).
  assert (Hld1 : load64 m1 H = hdr sz true false).
  { unfold m1. rewrite load64_store64_eq. apply wrap_small, hdr_range; lia. }
  step (get_f_hdr (with_mem s m1) H sz true false HvH Hld1 Hsz16
          ltac:(lia) ltac:(lia) ltac:(lia)).
  step (make_f_run (with_mem s m1) (H + sz - 8) sz
          HvF ltac:(lia)).
  assert (Hld2 : load64 m2 H = hdr sz true false).
  { unfold m2. rewrite load64_store64_ne by lia. exact Hld1. }
  step (get_f_hdr (with_mem s m2) H sz true false HvH Hld2 Hsz16
          ltac:(lia) ltac:(lia) ltac:(lia)).
  rewrite (incr_small (H + sz - 8) 8) by lia.
  replace (H + sz - 8 + 8) with (H + sz) by lia.
  assert (Hnx2 : load64 m2 (H + sz) = hdr (next_size b2) true true).
  { unfold m2, m1. rewrite !load64_store64_ne by lia. exact Hnx. }
  step (free_prev_alloc_run (with_mem s m2) (H + sz) _ true true
          HvN Hnx2 Hns16 ltac:(lia) ltac:(lia)).
  change (with_mem (with_mem s m2) _) with (with_mem s m3).
  rewrite ?bind_assoc, bind_ret.
  rewrite (h2n_small H) by lia.
  assert (Hnodes : forall c y sz0, 0 <= c < 16 -> y ∈ L c ->
                     ~ block_at H [(sz, true)] (y - 8) sz0 false).
  { intros c y sz0 _ _ [(_ & _ & Hal) | []]. discriminate. }
  destruct (coalesce_finish_kept s L b1 [(sz, true)] b2 m3 sz) as
    (s' & L' & Hrun & Hrest); fold H; try assumption.
  - simpl. lia.
  - split; assumption.
  - rewrite Hpa. unfold m3, m2. rewrite !load64_store64_ne by lia. exact Hld1.
  - unfold m3, m2. rewrite load64_store64_ne by lia.
    rewrite load64_store64_eq. apply wrap_small. lia.
  - rewrite first_hdr_decode, Hna. unfold m3. rewrite load64_store64_eq.
    apply wrap_small, hdr_range; lia.
  - intros x Hx. unfold m3, m2, m1. rewrite !byte_at_store64_out by lia.
    reflexivity.
  - exists s', L'. fold H in Hrun, Hrest. step Hrun.
    split; [reflexivity | exact Hrest].
Qed.

Lemma free_hf_alone :
  exists s' L',
    free_hf H s = Ok (H + 8) s' /\
    heap_lo s' = heap_lo s /\ heap_brk s' = heap_brk s /\
    heap_max s' = heap_max s /\
    Tiled s' (b1 ++ [(sz, false)] ++ b2) /\
    Lists s' (b1 ++ [(sz, false)] ++ b2) L' /\
    (forall c' y, 0 <= c' < 16 ->
       (y ∈ L' c' <-> y ∈ L c' \/ (y = H + 8 /\ c' = get_index sz))).
Proof.
  destruct free_hf_alone_kept
    as (s' & L' & H1 & H2 & H3 & H4 & H5 & H6 & H7 & _).
  exists s', L'. auto 10.
Qed.
End CaseA.

Lemma valid_same s s' a :
  heap_lo s' = heap_lo s -> heap_brk s' = heap_brk s -> valid s a -> valid s' a.
Proof. unfold valid. intros -> ->. auto. Qed.

Lemma first_block_same s s' : heap_lo s' = heap_lo s -> first_block s' = first_block s.
Proof. unfold first_block. intros ->. reflexivity. Qed.

(** *** Only the next block free *)

Section CaseC.
Variables (s : mstate) (L : Z -> list Z) (b1 b2 : list block) (sz nsz : Z).
Let H := first_block s + total b1.
Let N := H + sz.
Let T := sz + nsz.

Hypothesis Ht : Tiled s (b1 ++ [(sz, true); (nsz, false)] ++ b2).
Hypothesis Hl : Lists s (b1 ++ [(sz, true); (nsz, false)] ++ b2) L.
Hypothesis Hpa : last_alloc true b1 = true.
Hypothesis HN : (N + 8) ∈ L (get_index nsz).

Lemma free_hf_next_kept :
  exists s' L',
    free_hf H s = Ok (H + 8) s' /\
    heap_lo s' = heap_lo s /\ heap_brk s' = heap_brk s /\
    heap_max s' = heap_max s /\
    Tiled s' (b1 ++ [(T, false)] ++ b2) /\
    Lists s' (b1 ++ [(T, false)] ++ b2) L' /\
    (forall c' y, 0 <= c' < 16 ->
       (y ∈ L' c' <->
        (y ∈ L c' /\ y <> N + 8) \/ (y = H + 8 /\ c' = get_index T))) /\
    kept (first_block s) (b1 ++ [(T, false)] ++ b2) (mem s) (mem s').
Proof.
  destruct (Tiled_mid s b1 _ b2 Ht) as (Hs & _ & Hg1 & Hg2 & Hg3 & Hg4 & Hg5).
  fold H in Hs, Hg1, Hg2. rewrite Hpa in Hs.
  simpl in Hs, Hg2. rewrite Z.add_0_r in Hg2. fold N in Hs.
  destruct Hs as (Hld & Hsz & Hsz16 & _ & Hnx & Hnsz & Hnsz16 & _).
  unfold first_block in Hg1.
  assert (Hv : forall a, H - 8 <= a -> a + 8 <= H + sz + nsz + 8 -> valid s a)
    by (intros a H1 H2; unfold valid; lia).
  assert (HvH : valid s H) by (apply Hv; lia).
  assert (HvN : valid s N) by (apply Hv; unfold N; lia).
  assert (HvP : valid s (H - 8)) by (apply Hv; lia).
  assert (HvF : valid s (N + nsz - 8)) by (apply Hv; unfold N; lia).
  assert (Hc : 0 <= get_index nsz < 16) by (pose proof (get_index_range nsz); lia).
  unfold free_hf, w.
  rewrite (decr_small H 8) by lia.
  step (get_f_hdr s H sz true true HvH Hld Hsz16 ltac:(lia) ltac:(lia) ltac:(lia)).
  rewrite (incr_small (H + sz - 8) 8) by lia.
  replace (H + sz - 8 + 8) with N by (unfold N; lia).
  step (get_prev_alloc_hdr s H sz true true HvH Hld Hsz16).
  step (is_alloc_hdr s N nsz true false HvN Hnx Hnsz16).
  step (get_size_hdr s H sz true true HvH Hld Hsz16).
  step (get_size_run s (H - 8) HvP).
  step (get_size_hdr s N nsz true false HvN Hnx Hnsz16).
  cbn [Z.b2z Z.eqb Pos.eqb andb].
  rewrite (h2n_small N) by (unfold N; lia).
  destruct (removenode_Lists_kept s _ L _ (N + 8) Ht Hl Hc HN)
    as (s1 & L1 & Hrun1 & Hlo & Hbrk & Hmax & Ht1 & Hl1 & Hm1 & Hk1).
  step Hrun1.
  rewrite (wrap_small (sz + nsz)) by lia. fold T.
  pose proof (first_block_same s s1 Hlo) as Hfb.
  destruct (Tiled_mid s1 b1 _ b2 Ht1) as (Hs1 & Hnx1 & _).
  rewrite Hfb in Hs1, Hnx1. fold H in Hs1, Hnx1. rewrite Hpa in Hs1, Hnx1.
  simpl in Hs1, Hnx1. fold N in Hs1.
  destruct Hs1 as (Hld1 & _ & _ & _ & Hnh1 & _ & _ & Hnf1 & _).
  pose (m1 := store64 (mem s1) H (hdr T true false)).
  pose (m2 := store64 m1 (N + nsz - 8) T).
  assert (HT16 : T mod 16 = 0) by (unfold T; zlia).
  step (make_h_run' s1 H T 1 0 true false eq_refl eq_refl
          (valid_same s s1 _ Hlo Hbrk HvH) HT16 ltac:(unfold T; lia)
          ltac:(unfold T; lia)).
  assert (Hnh2 : load64 m1 N = hdr nsz true false).
  { unfold m1. rewrite load64_store64_ne by (unfold N; lia). exact Hnh1. }
  step (get_f_hdr (with_mem s1 m1) N nsz true false
          (valid_same s s1 _ Hlo Hbrk HvN) Hnh2 Hnsz16
          ltac:(lia) ltac:(unfold N; lia) ltac:(unfold N; lia)).
  step (make_f_run (with_mem s1 m1) (N + nsz - 8) T
          (valid_same s s1 _ Hlo Hbrk HvF) ltac:(unfold T; lia)).
  change (with_mem (with_mem s1 m1) _) with (with_mem s1 m2).
  rewrite ?bind_assoc, bind_ret.
  rewrite (h2n_small H) by lia.
  destruct (coalesce_finish_kept s1 L1 b1 [(sz, true); (nsz, false)] b2 m2 T) as
    (s' & L' & Hrun & H1 & H2 & H3 & Ht' & Hl' & Hm' & Hk');
    rewrite ?Hfb; fold H; try assumption.
  - simpl. unfold T. lia.
  - split; [unfold T; lia | exact HT16].
  - rewrite Hpa. unfold m2, m1. rewrite load64_store64_ne by (unfold N, T; lia).
    rewrite load64_store64_eq. apply wrap_small, hdr_range; unfold T; lia.
  - replace (H + T - 8) with (N + nsz - 8) by (unfold N, T; lia).
    unfold m2. rewrite load64_store64_eq. apply wrap_small. unfold T. lia.
  - replace (H + T) with (H + (sz + (nsz + 0))) by (unfold T; lia).
    rewrite <- Hnx1. unfold m2, m1.
    rewrite !load64_store64_ne by (unfold N, T; lia). reflexivity.
  - intros x Hx. unfold m2, m1.
    rewrite !byte_at_store64_out by (unfold N, T in *; lia). reflexivity.
  - intros c y sz0 Hc' Hy Hb. apply (Hm1 c y Hc') in Hy as [_ Hne].
    simpl in Hb. destruct Hb as [(_ & _ & Hal) | [(He & _) | []]];
      [discriminate | apply Hne; unfold N; lia].
  - exists s', L'. rewrite Hfb in Hrun, Hm'. fold H in Hrun, Hm'. step Hrun.
    split; [reflexivity |].
    split; [congruence |]. split; [congruence |]. split; [congruence |].
    split; [exact Ht' |]. split; [exact Hl' |].
    split; [intros c' y Hc'; rewrite (Hm' c' y Hc'), (Hm1 c' y Hc'); tauto |].
    rewrite Hfb in Hk'. refine (kept_trans _ _ _ _ _ _ Hk').
    refine (kept_merge _ _ _ _ T _ _ _ Hk1). simpl. unfold T. lia.
Qed.

Lemma free_hf_next :
  exists s' L',
    free_hf H s = Ok (H + 8) s' /\
    heap_lo s' = heap_lo s /\ heap_brk s' = heap_brk s /\
    heap_max s' = heap_max s /\
    Tiled s' (b1 ++ [(T, false)] ++ b2) /\
    Lists s' (b1 ++ [(T, false)] ++ b2) L' /\
    (forall c' y, 0 <= c' < 16 ->
       (y ∈ L' c' <->
        (y ∈ L c' /\ y <> N + 8) \/ (y = H + 8 /\ c' = get_index T))).
Proof.
  destruct free_hf_next_kept
    as (s' & L' & H1 & H2 & H3 & H4 & H5 & H6 & H7 & _).
  exists s', L'. auto 10.
Qed.
End CaseC.

(** *** Only the previous block free *)

Section CaseB.
Variables (s : mstate) (L : Z -> list Z) (b1 b2 : list block) (psz sz : Z).
Let P := first_block s + total b1.
Let H := P + psz.
Let N := H + sz.
Let T := psz + sz.
Let paP := last_alloc true b1.

Hypothesis Ht : Tiled s (b1 ++ [(psz, false); (sz, true)] ++ b2).
Hypothesis Hl : Lists s (b1 ++ [(psz, false); (sz, true)] ++ b2) L.
Hypothesis Hna : next_alloc b2 = true.
Hypothesis HP : (P + 8) ∈ L (get_index psz).

Lemma free_hf_prev_kept :
  exists s' L',
    free_hf H s = Ok (P + 8) s' /\
    heap_lo s' = heap_lo s /\ heap_brk s' = heap_brk s /\
    heap_max s' = heap_max s /\
    Tiled s' (b1 ++ [(T, false)] ++ b2) /\
    Lists s' (b1 ++ [(T, false)] ++ b2) L' /\
    (forall c' y, 0 <= c' < 16 ->
       (y ∈ L' c' <->
        (y ∈ L c' /\ y <> P + 8) \/ (y = P + 8 /\ c' = get_index T))) /\
    kept (first_block s) (b1 ++ [(T, false)] ++ b2) (mem s) (mem s').
Proof.
  destruct (Tiled_mid s b1 _ b2 Ht) as (Hs & Hnx & Hg1 & Hg2 & Hg3 & Hg4 & Hg5).
  fold P paP in Hs, Hnx, Hg1, Hg2.
  simpl in Hs, Hnx, Hg2. rewrite Z.add_0_r in Hnx, Hg2. fold H in Hs.
  destruct Hs as (Hpld & Hpsz & Hpsz16 & Hpf & Hld & Hsz & Hsz16 & _).
  specialize (Hpf eq_refl). fold H in Hpf.
  replace (P + (psz + sz)) with N in Hnx by (unfold N, H; lia).
  rewrite first_hdr_decode, Hna in Hnx.
  assert (Hz2 : sized b2).
  { pose proof (Tiled_sized _ _ Ht) as Hz. apply sized_app in Hz as [_ Hz].
    apply sized_app in Hz as [_ Hz]. exact Hz. }
  destruct (sized_next_size b2 Hz2) as (Hns16 & Hns).
  unfold first_block in Hg1.
  assert (Hv : forall a, P <= a -> a + 8 <= N + 8 -> valid s a)
    by (intros a H1 H2; unfold valid, N, H in *; lia).
  assert (HvP : valid s P) by (apply Hv; unfold N, H; lia).
  assert (HvH : valid s H) by (apply Hv; unfold N, H; lia).
  assert (HvN : valid s N) by (apply Hv; unfold N, H; lia).
  assert (HvPF : valid s (H - 8)) by (apply Hv; unfold N, H; lia).
  assert (HvF : valid s (H + sz - 8)) by (apply Hv; unfold N, H; lia).
  assert (Hc : 0 <= get_index psz < 16) by (pose proof (get_index_range psz); lia).
  assert (Hpfh : load64 (mem s) (H - 8) = hdr psz false false)
    by (rewrite hdr_footer; exact Hpf).
  assert (HgetP : forall s0, heap_lo s0 = heap_lo s -> heap_brk s0 = heap_brk s ->
            load64 (mem s0) (H - 8) = psz -> get_h (H - 8) s0 = Ok P s0).
  { intros s0 E1 E2 E3.
    rewrite (get_h_footer s0 (H - 8) psz (valid_same s s0 _ E1 E2 HvPF) E3 Hpsz16)
      by (unfold H; lia).
    f_equal. unfold H. lia. }
  unfold free_hf, w.
  rewrite (decr_small H 8) by (unfold H; lia).
  step (get_f_hdr s H sz false true HvH Hld Hsz16 ltac:(lia)
          ltac:(unfold H; lia) ltac:(unfold H; lia)).
  rewrite (incr_small (H + sz - 8) 8) by (unfold H; lia).
  replace (H + sz - 8 + 8) with N by (unfold N; lia).
  step (get_prev_alloc_hdr s H sz false true HvH Hld Hsz16).
  step (is_alloc_hdr s N _ true true HvN Hnx Hns16).
  step (get_size_hdr s H sz false true HvH Hld Hsz16).
  step (get_size_hdr s (H - 8) psz false false HvPF Hpfh Hpsz16).
  step (get_size_hdr s N _ true true HvN Hnx Hns16).
  cbn [Z.b2z Z.eqb Pos.eqb andb].
  step (HgetP s eq_refl eq_refl Hpf).
  rewrite (h2n_small P) by (unfold N, H in *; lia).
  destruct (removenode_Lists_kept s _ L _ (P + 8) Ht Hl Hc HP)
    as (s1 & L1 & Hrun1 & Hlo & Hbrk & Hmax & Ht1 & Hl1 & Hm1 & Hk1).
  step Hrun1.
  replace (wrap (sz + psz)) with T
    by (symmetry; unfold T; rewrite <- (wrap_small (psz + sz)) by (unfold N, H in *; lia);
        f_equal; lia).
  pose proof (first_block_same s s1 Hlo) as Hfb.
  destruct (Tiled_mid s1 b1 _ b2 Ht1) as (Hs1 & Hnx1 & _).
  rewrite Hfb in Hs1, Hnx1. fold P paP in Hs1, Hnx1.
  simpl in Hs1, Hnx1. rewrite Z.add_0_r in Hnx1. fold H in Hs1.
  destruct Hs1 as (Hpld1 & _ & _ & Hpf1 & Hld1 & _).
  specialize (Hpf1 eq_refl). fold H in Hpf1.
  replace (P + (psz + sz)) with N in Hnx1 by (unfold N, H; lia).
  rewrite first_hdr_decode, Hna in Hnx1.
  pose (m1 := store64 (mem s1) P (hdr T paP false)).
  pose (m2 := store64 m1 (H + sz - 8) T).
  pose (m3 := store64 m2 N (hdr (next_size b2) false true)).
  assert (HT16 : T mod 16 = 0) by (unfold T; zlia).
  assert (HTr : 32 <= T /\ T + 3 < modulus) by (unfold T, N, H in *; lia).
  step (HgetP s1 Hlo Hbrk Hpf1).
  step (HgetP s1 Hlo Hbrk Hpf1).
  step (get_prev_alloc_hdr s1 P psz paP false (valid_same s s1 _ Hlo Hbrk HvP)
          Hpld1 Hpsz16).
  step (make_h_run' s1 P T _ 0 paP false eq_refl eq_refl
          (valid_same s s1 _ Hlo Hbrk HvP) HT16 ltac:(lia) ltac:(lia)).
  assert (Hld2 : load64 m1 H = hdr sz false true).
  { unfold m1. rewrite load64_store64_ne by (unfold H; lia). exact Hld1. }
  step (get_f_hdr (with_mem s1 m1) H sz false true
          (valid_same s s1 _ Hlo Hbrk HvH) Hld2 Hsz16
          ltac:(lia) ltac:(unfold H; lia) ltac:(unfold H; lia)).
  step (make_f_run (with_mem s1 m1) (H + sz - 8) T
          (valid_same s s1 _ Hlo Hbrk HvF) ltac:(lia)).
  assert (Hnx2 : load64 m2 N = hdr (next_size b2) true true).
  { unfold m2, m1. rewrite !load64_store64_ne by (unfold N, H; lia). exact Hnx1. }
  step (free_prev_alloc_run (with_mem s1 m2) N _ true true
          (valid_same s s1 _ Hlo Hbrk HvN) Hnx2 Hns16 ltac:(lia)
          ltac:(unfold N, H in *; lia)).
  change (with_mem (with_mem s1 m2) _) with (with_mem s1 m3).
  assert (Hpf3 : load64 m3 (H - 8) = psz).
  { unfold m3, m2, m1. rewrite !load64_store64_ne by (unfold N, H; lia).
    exact Hpf1. }
  step (HgetP (with_mem s1 m3) Hlo Hbrk Hpf3).
  rewrite (h2n_small P) by (unfold N, H in *; lia).
  destruct (coalesce_finish_kept s1 L1 b1 [(psz, false); (sz, true)] b2 m3 T) as
    (s' & L' & Hrun & H1 & H2 & H3 & Ht' & Hl' & Hm' & Hk');
    rewrite ?Hfb; fold P paP; try assumption.
  - simpl. unfold T. lia.
  - split; [lia | exact HT16].
  - unfold m3, m2. rewrite !load64_store64_ne by (unfold N, H, T; lia).
    unfold m1. rewrite load64_store64_eq. apply wrap_small, hdr_range; lia.
  - replace (P + T - 8) with (H + sz - 8) by (unfold H, T; lia).
    unfold m3. rewrite load64_store64_ne by (unfold N; lia).
    unfold m2. rewrite load64_store64_eq. apply wrap_small. lia.
  - replace (P + T) with N by (unfold N, H, T; lia).
    rewrite first_hdr_decode, Hna. unfold m3. rewrite load64_store64_eq.
    apply wrap_small, hdr_range; unfold N, H in *; lia.
  - intros x Hx. unfold m3, m2, m1.
    rewrite !byte_at_store64_out by (unfold N, H, T in *; lia). reflexivity.
  - intros c y sz0 Hc' Hy Hb. apply (Hm1 c y Hc') in Hy as [_ Hne].
    simpl in Hb. destruct Hb as [(He & _) | [(_ & _ & Hal) | []]];
      [apply Hne; lia | discriminate].
  - exists s', L'. rewrite Hfb in Hrun, Hm'. fold P in Hrun, Hm'. step Hrun.
    split; [reflexivity |].
    split; [congruence |]. split; [congruence |]. split; [congruence |].
    split; [exact Ht' |]. split; [exact Hl' |].
    split; [intros c' y Hc'; rewrite (Hm' c' y Hc'), (Hm1 c' y Hc'); tauto |].
    rewrite Hfb in Hk'. refine (kept_trans _ _ _ _ _ _ Hk').
    refine (kept_merge _ _ _ _ T _ _ _ Hk1). simpl. unfold T. lia.
Qed.

Lemma free_hf_prev :
  exists s' L',
    free_hf H s = Ok (P + 8) s' /\
    heap_lo s' = heap_lo s /\ heap_brk s' = heap_brk s /\
    heap_max s' = heap_max s /\
    Tiled s' (b1 ++ [(T, false)] ++ b2) /\
    Lists s' (b1 ++ [(T, false)] ++ b2) L' /\
    (forall c' y, 0 <= c' < 16 ->
       (y ∈ L' c' <->
        (y ∈ L c' /\ y <> P + 8) \/ (y = P + 8 /\ c' = get_index T))).
Proof.
  destruct free_hf_prev_kept
    as (s' & L' & H1 & H2 & H3 & H4 & H5 & H6 & H7 & _).
  exists s', L'. auto 10.
Qed.
End CaseB.

(** *** Both neighbours free *)

Section CaseD.
Variables (s : mstate) (L : Z -> list Z) (b1 b2 : list block) (psz sz nsz : Z).
Let P := first_block s + total b1.
Let H := P + psz.
Let N := H + sz.
Let T := psz + sz + nsz.
Let paP := last_alloc true b1.

Hypothesis Ht : Tiled s (b1 ++ [(psz, false); (sz, true); (nsz, false)] ++ b2).
Hypothesis Hl : Lists s (b1 ++ [(psz, false); (sz, true); (nsz, false)] ++ b2) L.
Hypothesis HP : (P + 8) ∈ L (get_index psz).
Hypothesis HN : (N + 8) ∈ L (get_index nsz).

Lemma free_hf_both_kept :
  exists s' L',
    free_hf H s = Ok (P + 8) s' /\
    heap_lo s' = heap_lo s /\ heap_brk s' = heap_brk s /\
    heap_max s' = heap_max s /\
    Tiled s' (b1 ++ [(T, false)] ++ b2) /\
    Lists s' (b1 ++ [(T, false)] ++ b2) L' /\
    (forall c' y, 0 <= c' < 16 ->
       (y ∈ L' c' <->
        (y ∈ L c' /\ y <> P + 8 /\ y <> N + 8) \/
        (y = P + 8 /\ c' = get_index T))) /\
    kept (first_block s) (b1 ++ [(T, false)] ++ b2) (mem s) (mem s').
Proof.
  destruct (Tiled_mid s b1 _ b2 Ht) as (Hs & _ & Hg1 & Hg2 & Hg3 & Hg4 & Hg5).
  fold P paP in Hs, Hg1, Hg2.
  simpl in Hs, Hg2. rewrite Z.add_0_r in Hg2. fold H in Hs. fold N in Hs.
  destruct Hs as (Hpld & Hpsz & Hpsz16 & Hpf & Hld & Hsz & Hsz16 & _
                  & Hnx & Hnsz & Hnsz16 & _).
  specialize (Hpf eq_refl). fold H in Hpf.
  unfold first_block in Hg1.
  assert (Hv : forall a, P <= a -> a + 8 <= N + nsz + 8 -> valid s a)
    by (intros a H1 H2; unfold valid, N, H in *; lia).
  assert (HvP : valid s P) by (apply Hv; unfold N, H; lia).
  assert (HvH : valid s H) by (apply Hv; unfold N, H; lia).
  assert (HvN : valid s N) by (apply Hv; unfold N, H; lia).
  assert (HvPF : valid s (H - 8)) by (apply Hv; unfold N, H; lia).
  assert (HvF : valid s (N + nsz - 8)) by (apply Hv; unfold N, H; lia).
  assert (Hc : 0 <= get_index psz < 16) by (pose proof (get_index_range psz); lia).
  assert (Hcn : 0 <= get_index nsz < 16) by (pose proof (get_index_range nsz); lia).
  assert (Hpfh : load64 (mem s) (H - 8) = hdr psz false false)
    by (rewrite hdr_footer; exact Hpf).
  assert (HgetP : forall s0, heap_lo s0 = heap_lo s -> heap_brk s0 = heap_brk s ->
            load64 (mem s0) (H - 8) = psz -> get_h (H - 8) s0 = Ok P s0).
  { intros s0 E1 E2 E3.
    rewrite (get_h_footer s0 (H - 8) psz (valid_same s s0 _ E1 E2 HvPF) E3 Hpsz16)
      by (unfold H; lia).
    f_equal. unfold H. lia. }
  unfold free_hf, w.
  rewrite (decr_small H 8) by (unfold H; lia).
  step (get_f_hdr s H sz false true HvH Hld Hsz16 ltac:(lia)
          ltac:(unfold H; lia) ltac:(unfold N, H in *; lia)).
  rewrite (incr_small (H + sz - 8) 8) by (unfold N, H in *; lia).
  replace (H + sz - 8 + 8) with N by (unfold N; lia).
  step (get_prev_alloc_hdr s H sz false true HvH Hld Hsz16).
  step (is_alloc_hdr s N nsz true false HvN Hnx Hnsz16).
  step (get_size_hdr s H sz false true HvH Hld Hsz16).
  step (get_size_hdr s (H - 8) psz false false HvPF Hpfh Hpsz16).
  step (get_size_hdr s N nsz true false HvN Hnx Hnsz16).
  cbn [Z.b2z Z.eqb Pos.eqb andb].
  step (HgetP s eq_refl eq_refl Hpf).
  rewrite (h2n_small P) by (unfold N, H in *; lia).
  rewrite (h2n_small N) by (unfold N, H in *; lia).
  destruct (removenode_Lists_kept s _ L _ (P + 8) Ht Hl Hc HP)
    as (s1 & L1 & Hrun1 & Hlo1 & Hbrk1 & Hmax1 & Ht1 & Hl1 & Hm1 & Hk1).
  step Hrun1.
  assert (HN1 : (N + 8) ∈ L1 (get_index nsz)).
  { apply (Hm1 _ _ Hcn). split; [exact HN | unfold N, H; lia]. }
  destruct (removenode_Lists_kept s1 _ L1 _ (N + 8) Ht1 Hl1 Hcn HN1)
    as (s2 & L2 & Hrun2 & Hlo2 & Hbrk2 & Hmax2 & Ht2 & Hl2 & Hm2 & Hk2).
  rewrite (first_block_same s s1 Hlo1) in Hk2.
  pose proof (kept_trans _ _ _ _ _ Hk1 Hk2) as Hk12.
  step Hrun2.
  assert (Hlo : heap_lo s2 = heap_lo s) by congruence.
  assert (Hbrk : heap_brk s2 = heap_brk s) by congruence.
  replace (wrap (wrap (sz + psz) + nsz)) with T.
  2:{ rewrite (wrap_small (sz + psz)) by (unfold N, H in *; lia).
      rewrite wrap_small by (unfold N, H in *; lia). unfold T. lia. }
  pose proof (first_block_same s s2 Hlo) as Hfb.
  destruct (Tiled_mid s2 b1 _ b2 Ht2) as (Hs2 & Hnx2 & _).
  rewrite Hfb in Hs2, Hnx2. fold P paP in Hs2, Hnx2.
  simpl in Hs2, Hnx2. rewrite Z.add_0_r in Hnx2. fold H in Hs2. fold N in Hs2.
  destruct Hs2 as (Hpld2 & _ & _ & Hpf2 & _ & _ & _ & _ & Hnh2 & _).
  specialize (Hpf2 eq_refl). fold H in Hpf2.
  pose (m1 := store64 (mem s2) P (hdr T paP false)).
  pose (m2 := store64 m1 (N + nsz - 8) T).
  assert (HT16 : T mod 16 = 0) by (unfold T; zlia).
  assert (HTr : 32 <= T /\ T + 3 < modulus) by (unfold T, N, H in *; lia).
  step (get_prev_alloc_hdr s2 P psz paP false (valid_same s s2 _ Hlo Hbrk HvP)
          Hpld2 Hpsz16).
  step (make_h_run' s2 P T _ 0 paP false eq_refl eq_refl
          (valid_same s s2 _ Hlo Hbrk HvP) HT16 ltac:(lia) ltac:(lia)).
  assert (Hnh3 : load64 m1 N = hdr nsz true false).
  { unfold m1. rewrite load64_store64_ne by (unfold N, H; lia). exact Hnh2. }
  step (get_f_hdr (with_mem s2 m1) N nsz true false
          (valid_same s s2 _ Hlo Hbrk HvN) Hnh3 Hnsz16
          ltac:(lia) ltac:(unfold N, H; lia) ltac:(unfold N, H in *; lia)).
  step (make_f_run (with_mem s2 m1) (N + nsz - 8) T
          (valid_same s s2 _ Hlo Hbrk HvF) ltac:(lia)).
  change (with_mem (with_mem s2 m1) _) with (with_mem s2 m2).
  assert (Hpf3 : load64 m2 (H - 8) = psz).
  { unfold m2, m1. rewrite !load64_store64_ne by (unfold N, H; lia).
    exact Hpf2. }
  step (HgetP (with_mem s2 m2) Hlo Hbrk Hpf3).
  rewrite (h2n_small P) by (unfold N, H in *; lia).
  destruct (coalesce_finish_kept s2 L2 b1 [(psz, false); (sz, true); (nsz, false)]
              b2 m2 T)
    as (s' & L' & Hrun & H1 & H2 & H3 & Ht' & Hl' & Hm' & Hk');
    rewrite ?Hfb; fold P paP; try assumption.
  - simpl. unfold T. lia.
  - split; [lia | exact HT16].
  - unfold m2. rewrite !load64_store64_ne by (unfold N, H, T; lia).
    unfold m1. rewrite load64_store64_eq. apply wrap_small, hdr_range; lia.
  - replace (P + T - 8) with (N + nsz - 8) by (unfold N, H, T; lia).
    unfold m2. rewrite load64_store64_eq. apply wrap_small. lia.
  - replace (P + T) with (P + (psz + (sz + nsz))) by (unfold T; lia).
    rewrite <- Hnx2. unfold m2, m1.
    rewrite !load64_store64_ne by (unfold N, H, T; lia). reflexivity.
  - intros x Hx. unfold m2, m1.
    rewrite !byte_at_store64_out by (unfold N, H, T in *; lia). reflexivity.
  - intros c y sz0 Hc' Hy Hb. apply (Hm2 c y Hc') in Hy as [Hy Hne2].
    apply (Hm1 c y Hc') in Hy as [_ Hne1].
    simpl in Hb. destruct Hb as [(He & _) | [(_ & _ & Hal) | [(He & _) | []]]];
      [apply Hne1; lia | discriminate | apply Hne2; unfold N, H; lia].
  - exists s', L'. rewrite Hfb in Hrun, Hm'. fold P in Hrun, Hm'. step Hrun.
    split; [reflexivity |].
    split; [congruence |]. split; [congruence |]. split; [congruence |].
    split; [exact Ht' |]. split; [exact Hl' |].
    split; [intros c' y Hc';
            rewrite (Hm' c' y Hc'), (Hm2 c' y Hc'), (Hm1 c' y Hc'); tauto |].
    rewrite Hfb in Hk'. refine (kept_trans _ _ _ _ _ _ Hk').
    refine (kept_merge _ _ _ _ T _ _ _ Hk12). simpl. unfold T. lia.
Qed.

Lemma free_hf_both :
  exists s' L',
    free_hf H s = Ok (P + 8) s' /\
    heap_lo s' = heap_lo s /\ heap_brk s' = heap_brk s /\
    heap_max s' = heap_max s /\
    Tiled s' (b1 ++ [(T, false)] ++ b2) /\
    Lists s' (b1 ++ [(T, false)] ++ b2) L' /\
    (forall c' y, 0 <= c' < 16 ->
       (y ∈ L' c' <->
        (y ∈ L c' /\ y <> P + 8 /\ y <> N + 8) \/
        (y = P + 8 /\ c' = get_index T))).
Proof.
  destruct free_hf_both_kept
    as (s' & L' & H1 & H2 & H3 & H4 & H5 & H6 & H7 & _).
  exists s', L'. auto 10.
Qed.
End CaseD.

(** ** The invariants across the operations *)

Lemma naf_next_alloc b pa pa' :
  next_alloc b = true -> no_adjacent_free pa b = no_adjacent_free pa' b.
Proof.
  destruct b as [| [sz al] r]; simpl; [reflexivity |]. intros ->.
  rewrite !orb_true_r. reflexivity.
Qed.

Lemma naf_mono b pa :
  no_adjacent_free false b = true -> no_adjacent_free pa b = true.
Proof.
  destruct b as [| [sz al] r]; simpl; [reflexivity |].
  rewrite !andb_true_iff. intros [-> ->]. rewrite orb_true_r. auto.
Qed.

Lemma naf_false_next b :
  no_adjacent_free false b = true -> next_alloc b = true.
Proof.
  destruct b as [| [sz al] r]; simpl; [reflexivity |].
  rewrite andb_true_iff. tauto.
Qed.

Lemma sized_parts b1 mid b2 :
  sized (b1 ++ mid ++ b2) -> sized b1 /\ sized mid /\ sized b2.
Proof.
  intros Hz. apply sized_app in Hz as [H1 Hz]. apply sized_app in Hz as [H2 H3].
  auto.
Qed.

(** Completeness of the lists after a run [mid] became one free block whose
    node was added, the nodes of the free blocks of [mid] having left. *)
Lemma Complete_merged s s' L L' b1 mid b2 T :
  heap_lo s' = heap_lo s ->
  sized (b1 ++ mid ++ b2) -> total mid = T ->
  Complete s (b1 ++ mid ++ b2) L ->
  let h := first_block s + total b1 in
  (forall c y, 0 <= c < 16 ->
     y ∈ L c -> (y + 16 <= h + 8 \/ h + T + 8 <= y) -> y ∈ L' c) ->
  (h + 8) ∈ L' (get_index T) ->
  Complete s' (b1 ++ [(T, false)] ++ b2) L'.
Proof.
  intros Hlo Hz HT Hcomp h Hkeep Hnew h0 sz0 Hb.
  rewrite (first_block_same s s' Hlo) in Hb.
  destruct (sized_parts _ _ _ Hz) as (Hz1 & _ & Hz2).
  assert (Hc : 0 <= get_index sz0 < 16) by (pose proof (get_index_range sz0); lia).
  apply block_at_region in Hb as [Hb | [Hb | Hb]].
  - pose proof (block_at_range _ _ _ _ _ Hz1 Hb).
    apply (Hkeep _ _ Hc); [| fold h in H; unfold h; lia].
    apply Hcomp. apply block_at_region. left. exact Hb.
  - simpl in Hb. destruct Hb as [(-> & -> & _) | []]. exact Hnew.
  - simpl in Hb. rewrite Z.add_0_r in Hb.
    pose proof (block_at_range _ _ _ _ _ Hz2 Hb).
    apply (Hkeep _ _ Hc); [| unfold h; lia].
    apply Hcomp. apply block_at_region. right. right. rewrite HT. exact Hb.
Qed.

Lemma get_index_bounds sz : 0 <= get_index sz < 16.
Proof. pose proof (get_index_range sz). lia. Qed.

Ltac sizes Hz :=
  let H := fresh "Hzm" in
  destruct (sized_parts _ _ _ Hz) as (_ & H & _);
  repeat (let a := fresh "Hsz" in let b := fresh "Hsm" in
          apply Forall_cons in H as [[a b] H]; cbn [fst] in a, b).

(** *** free_hf *)

Lemma free_hf_Inv s bs L H sz :
  InvAt s bs L -> block_at (first_block s) bs H sz true ->
  exists r s' bs' L',
    free_hf H s = Ok r s' /\ InvAt s' bs' L' /\
    heap_lo s' = heap_lo s /\ heap_brk s' = heap_brk s /\
    heap_max s' = heap_max s.
Proof.
  intros [Ht Hnaf Hl Hcomp] Hb.
  destruct (block_at_split _ _ _ _ _ Hb) as (b1 & b2 & -> & ->).
  change ((sz, true) :: b2) with ([(sz, true)] ++ b2) in *.
  pose proof (Tiled_sized _ _ Ht) as Hz.
  apply no_adjacent_free_app in Hnaf as [Hnaf1 Hnaf2].
  simpl in Hnaf2.
  destruct (last_alloc true b1) eqn:Hpa, (next_alloc b2) eqn:Hna.
  - (* both neighbours allocated *)
    destruct (free_hf_alone s L b1 b2 sz Ht Hl Hpa Hna)
      as (s' & L' & Hrun & Hlo & Hbrk & Hmax & Ht' & Hl' & Hm).
    eexists; exists s', (b1 ++ [(sz, false)] ++ b2), L'.
    split; [exact Hrun |]. split; [| auto].
    constructor; [exact Ht' | | exact Hl' |].
    + apply no_adjacent_free_app. split; [exact Hnaf1 |]. rewrite Hpa. simpl.
      rewrite (naf_next_alloc b2 false true Hna). exact Hnaf2.
    + apply (Complete_merged s s' L L' b1 [(sz, true)] b2 sz Hlo Hz);
        [simpl; lia | exact Hcomp | |].
      * intros c y Hc Hy _. apply (Hm c y Hc). left. exact Hy.
      * apply (Hm _ _ (get_index_bounds sz)). right. auto.
  - (* only the next block free *)
    destruct b2 as [| [nsz nal] b2']; [discriminate |]. simpl in Hna. subst nal.
    change ([(sz, true)] ++ (nsz, false) :: b2')
      with ([(sz, true); (nsz, false)] ++ b2') in *.
    assert (HN : (first_block s + total b1 + sz + 8) ∈ L (get_index nsz)).
    { apply Hcomp. apply block_at_region. right. left. simpl. right. left. auto. }
    sizes Hz.
    destruct (free_hf_next s L b1 b2' sz nsz Ht Hl Hpa HN)
      as (s' & L' & Hrun & Hlo & Hbrk & Hmax & Ht' & Hl' & Hm).
    eexists; exists s', (b1 ++ [(sz + nsz, false)] ++ b2'), L'.
    split; [exact Hrun |]. split; [| auto].
    constructor; [exact Ht' | | exact Hl' |].
    + apply no_adjacent_free_app. split; [exact Hnaf1 |]. rewrite Hpa. simpl.
      simpl in Hnaf2. exact Hnaf2.
    + apply (Complete_merged s s' L L' b1 [(sz, true); (nsz, false)] b2' _ Hlo Hz);
        [simpl; lia | exact Hcomp | |].
      * intros c y Hc Hy Hr. apply (Hm c y Hc). left. split; [exact Hy | lia].
      * apply (Hm _ _ (get_index_bounds _)). right. auto.
  - (* only the previous block free *)
    destruct (last_alloc_false b1 Hpa) as (b1' & psz & ->).
    rewrite <- app_assoc in *. rewrite total_app in *. simpl total in *.
    change ([(psz, false)] ++ [(sz, true)] ++ b2)
      with ([(psz, false); (sz, true)] ++ b2) in *.
    replace (first_block s + (total b1' + (psz + 0)))
      with (first_block s + total b1' + psz) by lia.
    assert (HP : (first_block s + total b1' + 8) ∈ L (get_index psz)).
    { apply Hcomp. apply block_at_region. right. left. simpl. left. auto. }
    sizes Hz.
    destruct (free_hf_prev s L b1' b2 psz sz Ht Hl Hna HP)
      as (s' & L' & Hrun & Hlo & Hbrk & Hmax & Ht' & Hl' & Hm).
    eexists; exists s', (b1' ++ [(psz + sz, false)] ++ b2), L'.
    split; [exact Hrun |]. split; [| auto].
    apply no_adjacent_free_app in Hnaf1 as [Hnaf1 Hnaf1'].
    simpl in Hnaf1'. rewrite orb_false_r, andb_true_r in Hnaf1'.
    constructor; [exact Ht' | | exact Hl' |].
    + apply no_adjacent_free_app. split; [exact Hnaf1 |]. rewrite Hnaf1'. simpl.
      rewrite (naf_next_alloc b2 false true Hna). exact Hnaf2.
    + apply (Complete_merged s s' L L' b1' [(psz, false); (sz, true)] b2 _ Hlo Hz);
        [simpl; lia | exact Hcomp | |].
      * intros c y Hc Hy Hr. apply (Hm c y Hc). left. split; [exact Hy | lia].
      * apply (Hm _ _ (get_index_bounds _)). right. auto.
  - (* both neighbours free *)
    destruct b2 as [| [nsz nal] b2']; [discriminate |]. simpl in Hna. subst nal.
    destruct (last_alloc_false b1 Hpa) as (b1' & psz & ->).
    rewrite <- app_assoc in *. rewrite total_app in *. simpl total in *.
    change ([(psz, false)] ++ [(sz, true)] ++ (nsz, false) :: b2')
      with ([(psz, false); (sz, true); (nsz, false)] ++ b2') in *.
    replace (first_block s + (total b1' + (psz + 0)))
      with (first_block s + total b1' + psz) by lia.
    assert (HP : (first_block s + total b1' + 8) ∈ L (get_index psz)).
    { apply Hcomp. apply block_at_region. right. left. simpl. left. auto. }
    assert (HN : (first_block s + total b1' + psz + sz + 8) ∈ L (get_index nsz)).
    { apply Hcomp. apply block_at_region. right. left. simpl. right. right. left.
      split; [lia | auto]. }
    sizes Hz.
    destruct (free_hf_both s L b1' b2' psz sz nsz Ht Hl HP HN)
      as (s' & L' & Hrun & Hlo & Hbrk & Hmax & Ht' & Hl' & Hm).
    eexists; exists s', (b1' ++ [(psz + sz + nsz, false)] ++ b2'), L'.
    split; [exact Hrun |]. split; [| auto].
    apply no_adjacent_free_app in Hnaf1 as [Hnaf1 Hnaf1'].
    simpl in Hnaf1'. rewrite orb_false_r, andb_true_r in Hnaf1'.
    constructor; [exact Ht' | | exact Hl' |].
    + apply no_adjacent_free_app. split; [exact Hnaf1 |]. rewrite Hnaf1'. simpl.
      simpl in Hnaf2. exact Hnaf2.
    + apply (Complete_merged s s' L L' b1' [(psz, false); (sz, true); (nsz, false)]
               b2' _ Hlo Hz); [simpl; lia | exact Hcomp | |].
      * intros c y Hc Hy Hr. apply (Hm c y Hc). left.
        split; [exact Hy | lia].
      * apply (Hm _ _ (get_index_bounds _)). right. auto.
Qed.

(** *** Extension of the heap *)

Lemma hdr_bit1 sz pa al :
  sz mod 16 = 0 -> Z.testbit (hdr sz pa al) 1 = pa.
Proof.
  intros Hsz. pose proof (hdr_prev sz pa al Hsz) as H.
  rewrite bit1_b2z in H. destruct (Z.testbit (hdr sz pa al) 1), pa;
    simpl in H; congruence.
Qed.

Lemma extended_Inv s bs L n :
  InvAt s bs L -> 32 <= n -> n mod 16 = 0 -> heap_brk s + n <= heap_max s ->
  InvAt (extended s n) (bs ++ [(n, true)]) L.
Proof.
  intros [Ht Hnaf Hl Hcomp] Hn Hn16 Hroom.
  pose proof (Tiled_sized _ _ Ht) as Hz. pose proof (sized_total _ Hz) as Htot.
  destruct Ht as [Hlo [Hmax1 Hmax2] Hheads Hseg Hend Hepi].
  assert (HQ : Z.testbit (load64 (mem s) (heap_brk s - 8)) 1 = last_alloc true bs).
  { rewrite Hepi. apply hdr_bit1. reflexivity. }
  assert (Hfr : forall x, x < heap_brk s - 8 ->
                  byte_at (mem (extended s n)) x = byte_at (mem s) x).
  { intros x Hx. unfold extended. simpl mem.
    rewrite !byte_at_store64_out by lia. reflexivity. }
  assert (Hfb : first_block (extended s n) = first_block s) by reflexivity.
  constructor.
  - constructor.
    + exact Hlo.
    + unfold extended. simpl. lia.
    + exact Hheads.
    + rewrite Hfb. apply seg_app. split.
      * eapply seg_frame; [| exact Hseg]. intros x Hx. apply Hfr. lia.
      * rewrite Hend. cbn [seg]. repeat split; try lia; try discriminate.
        unfold extended. cbn [mem]. rewrite HQ.
        rewrite load64_store64_ne by lia. rewrite load64_store64_eq.
        apply wrap_small, hdr_range; unfold first_block in *; lia.
    + rewrite Hfb, total_app. cbn [total fst]. unfold extended. cbn [heap_brk]. lia.
    + rewrite last_alloc_app. cbn [last_alloc snd]. unfold extended.
      cbn [mem heap_brk].
      rewrite load64_store64_eq. reflexivity.
  - apply no_adjacent_free_app. split; [exact Hnaf |]. simpl.
    rewrite orb_true_r. reflexivity.
  - constructor.
    + intros c Hc. change (head_at (extended s n) c) with (head_at s c).
      eapply dll_frame; [| apply (l_dll _ _ _ Hl c Hc)].
      intros y b Hy Hb. apply Hfr.
      destruct (l_sound _ _ _ Hl c y Hc Hy) as (sz & Hblk & _).
      pose proof (block_at_range _ _ _ _ _ Hz Hblk). lia.
    + intros c Hc. apply (l_nodup _ _ _ Hl c Hc).
    + intros c y Hc Hy. rewrite Hfb.
      destruct (l_sound _ _ _ Hl c y Hc Hy) as (sz & Hblk & Hi).
      exists sz. split; [| exact Hi]. apply block_at_app. left. exact Hblk.
  - intros h sz Hblk. rewrite Hfb in Hblk.
    apply block_at_app in Hblk as [Hblk | Hblk]; [apply Hcomp, Hblk |].
    simpl in Hblk. destruct Hblk as [(_ & _ & Hal) | []]. discriminate.
Qed.

(** *** Writes into the payload of an allocated block *)

Lemma Inv_frame_payload s bs L h sz m' :
  InvAt s bs L -> block_at (first_block s) bs h sz true ->
  (forall x, ~ (h + 8 <= x < h + sz) -> byte_at m' x = byte_at (mem s) x) ->
  InvAt (with_mem s m') bs L.
Proof.
  intros [Ht Hnaf Hl Hcomp] Hb Hfr.
  pose proof (Tiled_sized _ _ Ht) as Hz.
  constructor; [| exact Hnaf | | exact Hcomp].
  - apply (Tiled_frame_inside s bs h sz true m' (h + 8) (h + sz)); auto; lia.
  - constructor.
    + intros c Hc. change (head_at (with_mem s m') c) with (head_at s c).
      eapply dll_frame; [| apply (l_dll _ _ _ Hl c Hc)].
      intros y b Hy Hyb. apply Hfr.
      destruct (l_sound _ _ _ Hl c y Hc Hy) as (sz' & Hblk & _).
      pose proof (block_at_range _ _ _ _ _ Hz Hblk).
      destruct (block_at_disjoint _ _ _ _ _ _ _ _ Hz Hb Hblk)
        as [(_ & _ & Hal) | Hd]; [discriminate | lia].
    + intros c Hc. apply (l_nodup _ _ _ Hl c Hc).
    + intros c y Hc Hy. apply (l_sound _ _ _ Hl c y Hc Hy).
Qed.

(** *** malloc *)

Lemma malloc_Inv s bs L size :
  InvAt s bs L ->
  malloc size s = Ok 0 s \/
  exists r s', malloc size s = Ok r s' /\ allocated s bs size r s'.
Proof.
  intros Hinv. pose proof Hinv as [Ht Hnaf Hl Hcomp].
  destruct (normalize_shape size) as (Hn & Hn16 & Hnm).
  pose proof (Tiled_sized _ _ Ht) as Hz. pose proof (sized_total _ Hz) as Htot.
  unfold malloc, finder.
  rewrite (bind_ok _ _ _ _ _ (eq_refl : mm_heap_lo s = Ok (heap_lo s) s)).
  destruct (get_freeblock_spec s bs L (normalize size) Ht Hl)
    as [Hmiss | (y & s1 & Hrun & Hu)].
  - (* no fitting free block: the heap is extended *)
    step Hmiss. rewrite Z.eqb_refl.
    pose proof Ht as [Hlo [Hmax1 Hmax2] _ _ Hend _]. unfold first_block in Hend.
    destruct (Z_le_dec (heap_brk s + normalize size) (heap_max s)) as [Hroom | Hfull].
    + right. exists (heap_brk s), (extended s (normalize size)).
      split; [apply extend_run; lia |].
      exists (bs ++ [(normalize size, true)]), L, (normalize size).
      split; [apply extended_Inv; assumption |].
      split; [reflexivity |].
      split.
      { apply block_at_app. right. simpl. left.
        unfold first_block, extended. simpl. split; [lia | auto]. }
      split; [lia |].
      intros h sz Hb. apply block_at_app. left. exact Hb.
    + left. apply extend_miss; lia.
  - (* a free block was found *)
    right. destruct Hu as (c & sz & L1 & Hc & Hy & Hb & Hfit & Hlo & Hbrk & Hmax
                           & Ht1 & Hl1 & Hm1).
    pose proof (Tiled_block _ _ _ _ _ Ht Hb) as Hg.
    step Hrun. destruct (Z.eqb_spec y 0) as [Hy0 | _];
      [unfold first_block in Hg; lia |].
    rewrite n2h_small by (unfold first_block in Hg; lia).
    destruct (block_at_split _ _ _ _ _ Hb) as (b1 & b2 & -> & Hh).
    change ((sz, false) :: b2) with ([(sz, false)] ++ b2) in *.
    pose proof (first_block_same s s1 Hlo) as Hfb.
    rewrite Hh, <- Hfb.
    assert (Hfresh : forall c0, 0 <= c0 < 16 -> (first_block s1 + total b1 + 8) ∉ L1 c0).
    { intros c0 Hc0 Hin. apply (Hm1 c0 _ Hc0) in Hin as [_ Hne].
      apply Hne. rewrite Hfb. lia. }
    apply no_adjacent_free_app in Hnaf as [Hnaf1 Hnaf2]. simpl in Hnaf2.
    rewrite orb_false_r in Hnaf2. apply andb_true_iff in Hnaf2 as [Hpa Hnaf2].
    assert (Hold : forall h0 sz0 mid',
              block_at (first_block s) (b1 ++ [(sz, false)] ++ b2) h0 sz0 true ->
              total mid' = sz ->
              block_at (first_block s1) (b1 ++ mid' ++ b2) h0 sz0 true).
    { intros h0 sz0 mid' Hb0 Hmid. rewrite Hfb.
      apply block_at_region in Hb0 as [Hb0 | [Hb0 | Hb0]];
        apply block_at_region.
      - left. exact Hb0.
      - simpl in Hb0. destruct Hb0 as [(_ & _ & Hal) | []]. discriminate.
      - right. right. simpl in Hb0. rewrite Z.add_0_r in Hb0. rewrite Hmid.
        exact Hb0. }
    assert (Hkeep : forall h0 sz0,
              block_at (first_block s) (b1 ++ [(sz, false)] ++ b2) h0 sz0 false ->
              h0 <> first_block s + total b1 ->
              (h0 + 8) ∈ L1 (get_index sz0)).
    { intros h0 sz0 Hb0 Hne. apply (Hm1 _ _ (get_index_bounds sz0)).
      split; [apply Hcomp, Hb0 | lia]. }
    destruct (sized_parts _ _ _ Hz) as (Hz1 & _ & Hz2).
    destruct (Z_le_dec 32 (sz - normalize size)) as [Hsplit | Hwhole].
    + destruct (allocate_split s1 L1 b1 b2 sz (normalize size) Ht1 Hl1 Hfresh
                  ltac:(lia) Hn16 Hsplit)
        as (s' & L' & Hrun' & Hlo' & Hbrk' & Hmax' & Ht' & Hl' & Hm').
      exists (first_block s1 + total b1 + 8), s'. split; [exact Hrun' |].
      exists (b1 ++ [(normalize size, true); (sz - normalize size, false)] ++ b2),
        L', (normalize size).
      pose proof (first_block_same s1 s' Hlo') as Hfb'.
      split; [| split; [congruence | split; [| split; [lia |]]]].
      * constructor; [exact Ht' | | exact Hl' |].
        -- apply no_adjacent_free_app. split; [exact Hnaf1 |]. simpl.
           rewrite orb_true_r. simpl. exact Hnaf2.
        -- intros h0 sz0 Hb0. rewrite Hfb', Hfb in Hb0.
           apply block_at_region in Hb0 as [Hb0 | [Hb0 | Hb0]].
           ++ pose proof (block_at_range _ _ _ _ _ Hz1 Hb0).
              apply (Hm' _ _ (get_index_bounds sz0)). left.
              apply Hkeep; [| lia]. apply block_at_region. left. exact Hb0.
           ++ simpl in Hb0.
              destruct Hb0 as [(_ & _ & Hal) | [(-> & -> & _) | []]];
                [discriminate |].
              apply (Hm' _ _ (get_index_bounds _)). right.
              split; [rewrite Hfb; lia | reflexivity].
           ++ simpl in Hb0.
              pose proof (block_at_range _ _ _ _ _ Hz2 Hb0).
              apply (Hm' _ _ (get_index_bounds sz0)). left.
              apply Hkeep; [| lia]. apply block_at_region. right. right.
              simpl. replace (first_block s + total b1 + (sz + 0))
                with (first_block s + total b1 +
                      (normalize size + (sz - normalize size + 0))) by lia.
              exact Hb0.
      * rewrite Hfb'. apply block_at_region. right. left. simpl. left.
        split; [lia | auto].
      * intros h0 sz0 Hb0. rewrite Hfb'. apply Hold; [exact Hb0 |]. simpl. lia.
    + destruct (allocate_whole s1 L1 b1 b2 sz (normalize size) Ht1 Hl1 Hfresh
                  ltac:(lia) ltac:(lia))
        as (s' & Hrun' & Hlo' & Hbrk' & Hmax' & Ht' & Hl').
      exists (first_block s1 + total b1 + 8), s'. split; [exact Hrun' |].
      exists (b1 ++ [(sz, true)] ++ b2), L1, sz.
      pose proof (first_block_same s1 s' Hlo') as Hfb'.
      split; [| split; [congruence | split; [| split; [lia |]]]].
      * constructor; [exact Ht' | | exact Hl' |].
        -- apply no_adjacent_free_app. split; [exact Hnaf1 |]. simpl.
           rewrite orb_true_r. simpl. apply naf_mono, Hnaf2.
        -- intros h0 sz0 Hb0. rewrite Hfb', Hfb in Hb0.
           apply block_at_region in Hb0 as [Hb0 | [Hb0 | Hb0]].
           ++ pose proof (block_at_range _ _ _ _ _ Hz1 Hb0).
              apply Hkeep; [| lia]. apply block_at_region. left. exact Hb0.
           ++ simpl in Hb0. destruct Hb0 as [(_ & _ & Hal) | []]. discriminate.
           ++ pose proof (block_at_range _ _ _ _ _ Hz2 Hb0).
              sizes Hz.
              apply Hkeep; [| simpl in *; lia]. apply block_at_region. right. right.
              exact Hb0.
      * rewrite Hfb'. apply block_at_region. right. left. simpl. left.
        split; [lia | auto].
      * intros h0 sz0 Hb0. rewrite Hfb'. apply Hold; [exact Hb0 |]. simpl. lia.
Qed.

(** *** The walk over a tiled heap *)

Lemma heap_walk_tail s bs : forall a pa fuel,
  tail (mem s) a pa bs (heap_brk s - 8) ->
  heap_lo s <= a -> 0 <= a -> heap_brk s <= modulus ->
  (length bs < fuel)%nat ->
  heap_walk fuel a s = Ok bs s.
Proof.
  induction bs as [| [sz al] r IH]; intros a pa fuel Htl Hlo H0 Hm Hfuel;
    (destruct fuel as [| f]; [simpl in Hfuel; lia |]).
  - destruct Htl as (_ & He & Hld). simpl in He.
    assert (Hv : valid s a) by (unfold valid; lia).
    replace (heap_brk s - 8) with a in Hld by lia.
    simpl heap_walk. step (get_size_hdr s a 0 pa true Hv Hld eq_refl). reflexivity.
  - pose proof (tail_sized _ _ _ _ _ Htl) as Hz.
    apply Forall_cons in Hz as [[Hsz Hsz16] Hz]. cbn [fst] in Hsz, Hsz16.
    pose proof (sized_total _ Hz) as Htot.
    change ((sz, al) :: r) with ([(sz, al)] ++ r) in Htl.
    apply tail_app in Htl as [Hs Htl]. simpl in Hs, Htl.
    rewrite Z.add_0_r in Htl.
    destruct Hs as (Hld & _). pose proof Htl as (_ & He & _).
    assert (Hv : valid s a) by (unfold valid; lia).
    simpl heap_walk. step (get_size_hdr s a sz pa al Hv Hld Hsz16).
    destruct (Z.eqb_spec sz 0) as [| _]; [lia |].
    step (is_alloc_hdr s a sz pa al Hv Hld Hsz16).
    rewrite (incr_small a sz) by lia.
    rewrite (bind_ok _ _ _ _ _ (IH (a + sz) al f Htl ltac:(lia) ltac:(lia) Hm
                                   ltac:(simpl in Hfuel; lia))).
    unfold ret. destruct al; reflexivity.
Qed.

Lemma Tiled_walk s bs : Tiled s bs -> walk s = Ok bs s.
Proof.
  intros Ht. pose proof (Tiled_tail _ _ Ht) as Htl.
  pose proof (sized_total _ (Tiled_sized _ _ Ht)).
  destruct Ht as [Hlo [Hmax1 Hmax2] _ _ Hend _].
  unfold walk, traversal_budget. unfold bind at 1.
  apply (heap_walk_tail s bs _ true); unfold first_block in *; try lia.
  exact Htl.
Qed.

Lemma Inv_coalesced s bs L : InvAt s bs L -> Inv s /\ fully_coalesced s.
Proof.
  intros Hinv. split; [exists bs, L; exact Hinv |].
  exists bs. split; [apply Tiled_walk, (inv_tiled _ _ _ Hinv) |].
  apply (inv_coalesced _ _ _ Hinv).
Qed.

(** *** free, realloc, calloc *)

Lemma free_Inv s bs L ptr :
  InvAt s bs L -> ptr = 0 \/ live s bs ptr ->
  exists s' bs' L', free ptr s = Ok tt s' /\ InvAt s' bs' L'.
Proof.
  intros Hinv [-> | (sz & Hb)].
  - exists s, bs, L. split; [reflexivity | exact Hinv].
  - pose proof (Tiled_block _ _ _ _ _ (inv_tiled _ _ _ Hinv) Hb) as Hg.
    unfold first_block in Hg.
    destruct (free_hf_Inv s bs L _ sz Hinv Hb)
      as (r & s' & bs' & L' & Hrun & Hinv' & _).
    exists s', bs', L'. split; [| exact Hinv'].
    unfold free. destruct (Z.eqb_spec ptr 0) as [| _]; [lia |].
    rewrite n2h_small by lia. step Hrun. reflexivity.
Qed.

Lemma memcpy_run s dst src n :
  0 < n -> heap_lo s <= dst -> dst + n <= heap_brk s ->
  heap_lo s <= src -> src + n <= heap_brk s ->
  memcpy dst src n s
  = Ok dst (with_mem s (copy_bytes (mem s) dst src (Z.to_nat n))).
Proof.
  intros Hn H1 H2 H3 H4. unfold memcpy, in_heap_range.
  destruct (Z.eqb_spec n 0) as [| _]; [lia |].
  repeat match goal with
         | |- context [?a <=? ?b] =>
             destruct (Z.leb_spec a b); [| lia]
         end.
  reflexivity.
Qed.

Lemma realloc_Inv s bs L oldptr size :
  InvAt s bs L -> 0 <= size < modulus -> live s bs oldptr ->
  size <> 0 -> size + 24 <= modulus ->
  (realloc oldptr size s = Fault /\ malloc size s = Ok 0 s) \/
  exists r s' bs' L', realloc oldptr size s = Ok r s' /\ InvAt s' bs' L'.
Proof.
  intros Hinv Hsize (osz & Hob) Hnz Hnw.
  pose proof (Tiled_block _ _ _ _ _ (inv_tiled _ _ _ Hinv) Hob) as Hog.
  unfold first_block in Hog.
  assert (Hp0 : oldptr <> 0) by lia.
  pose proof (inv_tiled _ _ _ Hinv) as Ht.
  assert (Hd : decr oldptr w = oldptr - 8) by (unfold w; apply decr_small; lia).
  destruct (malloc_Inv s bs L size Hinv) as [Hmiss | (r & s1 & Hrun & Ha)].
  - left. split; [| exact Hmiss].
    rewrite (realloc_unfold s oldptr size 0 s osz Hp0 Hnz Hmiss)
      by (rewrite Hd; apply (get_size_block s bs _ _ _ Ht Hob)).
    unfold bind, memcpy, in_heap_range.
    destruct (Z.eqb_spec (Z.min size osz) 0) as [| _]; [lia |].
    destruct (Z.leb_spec (heap_lo s) 0) as [| _]; [lia |]. reflexivity.
  - right. destruct Ha as (bs1 & L1 & szr & Hinv1 & Hlo1 & Hrb & Hfit & Hlive).
    pose proof (inv_tiled _ _ _ Hinv1) as Ht1.
    specialize (Hlive _ _ Hob).
    pose proof (Tiled_block _ _ _ _ _ Ht1 Hrb) as Hrg.
    pose proof (Tiled_block _ _ _ _ _ Ht1 Hlive) as Hog1.
    unfold first_block in Hrg, Hog1.
    rewrite (realloc_unfold s oldptr size r s1 osz Hp0 Hnz Hrun)
      by (rewrite Hd; apply (get_size_block s1 bs1 _ _ _ Ht1 Hlive)).
    rewrite normalize_no_wrap in Hfit by lia.
    assert (Hcap : size + 8 <= szr).
    { unfold align_up in Hfit. revert Hfit. zlia. }
    rewrite (bind_ok _ _ _ _ _
               (memcpy_run s1 r oldptr (Z.min size osz)
                  ltac:(lia) ltac:(lia) ltac:(lia) ltac:(lia) ltac:(lia))).
    eexists r, _, bs1, L1. split; [reflexivity |].
    apply (Inv_frame_payload s1 bs1 L1 (r - 8) szr _ Hinv1 Hrb).
    intros x Hx. apply byte_at_copy_out. lia.
Qed.

Lemma memset_run s dst c n :
  0 < n -> heap_lo s <= dst -> dst + n <= heap_brk s ->
  memset dst c n s
  = Ok dst (with_mem s (fill_bytes (mem s) dst c (Z.to_nat n))).
Proof.
  intros Hn H1 H2. unfold memset, in_heap_range.
  destruct (Z.eqb_spec n 0) as [| _]; [lia |].
  repeat match goal with
         | |- context [?a <=? ?b] =>
             destruct (Z.leb_spec a b); [| lia]
         end.
  reflexivity.
Qed.

Lemma calloc_Inv s bs L nmemb size :
  InvAt s bs L ->
  (calloc nmemb size s = Fault /\ modulus < wrap (size * nmemb) + 24) \/
  exists r s' bs' L', calloc nmemb size s = Ok r s' /\ InvAt s' bs' L'.
Proof.
  intros Hinv. unfold calloc. set (t := wrap (size * nmemb)).
  pose proof (wrap_range (size * nmemb)) as Htr. fold t in Htr.
  destruct (malloc_Inv s bs L t Hinv) as [Hmiss | (r & s1 & Hrun & Ha)].
  - right. exists 0, s, bs, L. step Hmiss. split; [reflexivity | exact Hinv].
  - destruct Ha as (bs1 & L1 & szr & Hinv1 & Hlo1 & Hrb & Hfit & _).
    pose proof (inv_tiled _ _ _ Hinv1) as Ht1.
    pose proof (Tiled_block _ _ _ _ _ Ht1 Hrb) as Hrg.
    unfold first_block in Hrg.
    step Hrun. destruct (Z.eqb_spec r 0) as [| _]; [lia |].
    destruct (Z.eq_dec t 0) as [Ht0 | Ht0].
    + right. exists r, s1, bs1, L1. unfold memset. rewrite Ht0. simpl.
      split; [reflexivity | exact Hinv1].
    + destruct (Z_le_dec (t + 24) modulus) as [Hnw | Hw].
      * right. rewrite normalize_no_wrap in Hfit by lia.
        assert (Hcap : t + 8 <= szr).
        { unfold align_up in Hfit. revert Hfit. zlia. }
        rewrite ?bind_assoc.
        rewrite (bind_ok _ _ _ _ _
                   (memset_run s1 r 0 t ltac:(lia) ltac:(lia) ltac:(lia))).
        eexists r, _, bs1, L1. split; [reflexivity |].
        apply (Inv_frame_payload s1 bs1 L1 (r - 8) szr _ Hinv1 Hrb).
        intros x Hx. apply byte_at_fill_out. lia.
      * left. split; [| lia].
        unfold bind, memset, in_heap_range.
        destruct (Z.eqb_spec t 0) as [| _]; [lia |].
        destruct (Z.leb_spec (r + t) (heap_brk s1)) as [Hc | _];
          [rewrite modulus_eq in *; lia |].
        rewrite andb_false_r. reflexivity.
Qed.

(** ** The public operations *)

Lemma public_ops_Inv s bs L c :
  InvAt s bs L -> valid_call s bs c -> no_wrap c ->
  match run c s with
  | Ok _ s' => exists bs' L', InvAt s' bs' L'
  | Fault => defect_fault c s
  | Timeout => False
  end.
Proof.
  intros Hinv Hv Hnw. destruct c as [size | ptr | oldptr size | nmemb size];
    simpl run; simpl in Hv, Hnw.
  - destruct (malloc_Inv s bs L size Hinv) as [-> | (r & s' & -> & Ha)].
    + exists bs, L. exact Hinv.
    + destruct Ha as (bs' & L' & _ & Hinv' & _). exists bs', L'. exact Hinv'.
  - destruct (free_Inv s bs L ptr Hinv Hv) as (s' & bs' & L' & Hrun & Hinv').
    rewrite (bind_ok _ _ _ _ _ Hrun). exists bs', L'. exact Hinv'.
  - destruct Hv as [Hsize [-> | Hlive]].
    + unfold realloc. rewrite Z.eqb_refl.
      destruct (malloc_Inv s bs L size Hinv) as [-> | (r & s' & -> & Ha)].
      * exists bs, L. exact Hinv.
      * destruct Ha as (bs' & L' & _ & Hinv' & _). exists bs', L'. exact Hinv'.
    + assert (Hp0 : oldptr <> 0).
      { destruct Hlive as (sz & Hb).
        pose proof (Tiled_block _ _ _ _ _ (inv_tiled _ _ _ Hinv) Hb) as Hg.
        unfold first_block in Hg. lia. }
      destruct (Z.eq_dec size 0) as [-> | Hnz].
      * unfold realloc. destruct (Z.eqb_spec oldptr 0) as [| _]; [contradiction |].
        rewrite Z.eqb_refl.
        destruct (free_Inv s bs L oldptr Hinv (or_intror Hlive))
          as (s' & bs' & L' & Hrun & Hinv').
        rewrite (bind_ok _ _ _ _ _ Hrun). exists bs', L'. exact Hinv'.
      * destruct (realloc_Inv s bs L oldptr size Hinv Hsize Hlive Hnz (Hnw Hp0))
          as [[-> Hmiss] | (r & s' & bs' & L' & -> & Hinv')].
        -- exact (conj Hp0 (conj Hnz Hmiss)).
        -- exists bs', L'. exact Hinv'.
  - destruct (calloc_Inv s bs L nmemb size Hinv)
      as [[-> Hw] | (r & s' & bs' & L' & -> & Hinv')].
    + exact Hw.
    + exists bs', L'. exact Hinv'.
Qed.

(** A public operation ([malloc], [free], [realloc], [calloc]) called as
    the C contract asks on a heap that satisfies the invariants, where a
    copying [realloc] is asked for at most 2^64 - 24 bytes, never exhausts a
    traversal; when it completes the invariants hold again, so that no two
    physically adjacent blocks between the prologue and the epilogue are
    both free; and it faults only in [realloc] after a missed [malloc] or in
    [calloc] on a wrapped request above 2^64 - 24. *)
Theorem public_ops_keep_coalescing s bs L c :
  InvAt s bs L -> valid_call s bs c -> no_wrap c ->
  match run c s with
  | Ok _ s' => Inv s' /\ fully_coalesced s'
  | Fault => defect_fault c s
  | Timeout => False
  end.
Proof.
  intros Hinv Hv Hnw. pose proof (public_ops_Inv s bs L c Hinv Hv Hnw) as H.
  destruct (run c s) as [r s' | |]; [| exact H | exact H].
  destruct H as (bs' & L' & Hinv'). eapply Inv_coalesced, Hinv'.
Qed.

(** ** The scenarios satisfy the invariants *)

Lemma class_cases c :
  0 <= c < 16 ->
  c = 0 \/ c = 1 \/ c = 2 \/ c = 3 \/ c = 4 \/ c = 5 \/ c = 6 \/ c = 7 \/
  c = 8 \/ c = 9 \/ c = 10 \/ c = 11 \/ c = 12 \/ c = 13 \/ c = 14 \/ c = 15.
Proof. lia. Qed.

Ltac each_class Hc :=
  apply class_cases in Hc;
  repeat (destruct Hc as [-> | Hc]); [.. | subst].

Lemma s_one_Inv : InvAt s_one bs_one no_nodes.
Proof.
  constructor.
  - constructor; try (vm_compute; intuition (reflexivity || discriminate)).
  - reflexivity.
  - constructor.
    + intros c Hc. each_class Hc; vm_compute; auto.
    + intros c Hc. apply NoDup_nil_2.
    + intros c x Hc Hx. inversion Hx.
  - intros h sz Hb. simpl in Hb. destruct Hb as [(_ & _ & Hal) | []]. discriminate.
Qed.

Lemma s_four_Inv : InvAt s_four bs_four nodes_four.
Proof.
  constructor.
  - constructor; try (vm_compute; intuition (reflexivity || discriminate)).
  - reflexivity.
  - constructor.
    + intros c Hc. each_class Hc; vm_compute; repeat split; auto.
    + intros c Hc. unfold nodes_four. destruct (c =? 0); [| constructor].
      apply NoDup_cons. split; [| apply NoDup_singleton].
      rewrite list_elem_of_singleton. lia.
    + intros c x Hc Hx. unfold nodes_four in Hx.
      destruct (Z.eqb_spec c 0) as [-> | Hne]; [| inversion Hx].
      exists 32. split; [| reflexivity].
      apply elem_of_cons in Hx as [-> | Hx];
        [| apply list_elem_of_singleton in Hx as ->]; vm_compute; tauto.
  - intros h sz Hb. change (first_block s_four) with 4120 in Hb.
    unfold bs_four in Hb. simpl in Hb.
    destruct Hb as [(_ & _ & Hal) | [(-> & -> & _) | [(_ & _ & Hal)
                   | [(-> & -> & _) | []]]]]; try discriminate;
      vm_compute; [left | right; left].
Qed.

Lemma s_four_live_c : live s_four bs_four 4208.
Proof. exists 32. vm_compute. tauto. Qed.

Lemma public_ops_keep_coalescing_witness :
  InvAt s_four bs_four nodes_four /\ valid_call s_four bs_four (Free 4208) /\
  no_wrap (Free 4208) /\
  walk (after (free 4208) s_four)
  = Ok [(48, true); (96, false)] (after (free 4208) s_four) /\
  match run (Free 4208) s_four with
  | Ok _ s' => Inv s' /\ fully_coalesced s'
  | Fault => defect_fault (Free 4208) s_four
  | Timeout => False
  end.
Proof.
  split; [exact s_four_Inv |]. split; [right; exact s_four_live_c |].
  split; [exact I |]. split; [vm_compute; reflexivity |].
  exact (public_ops_keep_coalescing s_four bs_four nodes_four (Free 4208)
           s_four_Inv (or_intror s_four_live_c) I).
Defined.

(** C4: the code does not do what the claim says.  The heap [s_four]
    (blocks of 48, 32, 32 and 32 bytes, the second and the fourth free)
    satisfies the invariants and 4128 is a live payload, yet after
    [realloc(4128, 2^64 - 8)] completes, two physically adjacent blocks are
    both free: the request was normalised to 32 bytes, the second block was
    handed out, and the 48 bytes copied into its 24-byte payload ran over
    the header of the third block at 4200, which now holds the caller's
    word 32 (size 32, alloc = 0) in place of 33; the walk of the heap finds
    the third and the fourth block both free. *)
Theorem realloc_overflow_breaks_coalescing :
  InvAt s_four bs_four nodes_four /\
  valid_call s_four bs_four (Realloc 4128 (modulus - 8)) /\
  exists q s',
    run (Realloc 4128 (modulus - 8)) s_four = Ok q s' /\
    normalize (modulus - 8) = 32 /\
    load64 (mem s_four) 4200 = hdr 32 false true /\
    load64 (mem s') 4200 = 32 /\
    walk s' = Ok [(48, true); (32, true); (32, false); (32, false)] s' /\
    ~ fully_coalesced s'.
Proof.
  split; [exact s_four_Inv |].
  split.
  { split; [rewrite modulus_eq; lia |]. right. exists 48. vm_compute. tauto. }
  set (s' := after (realloc 4128 (modulus - 8)) s_four).
  assert (Hrun : run (Realloc 4128 (modulus - 8)) s_four = Ok 4176 s')
    by (vm_compute; reflexivity).
  assert (Hw : walk s' = Ok [(48, true); (32, true); (32, false); (32, false)] s')
    by (vm_compute; reflexivity).
  assert (Hld : load64 (mem s') 4200 = 32) by (vm_compute; reflexivity).
  clearbody s'.
  exists 4176, s'. split; [exact Hrun |].
  split; [vm_compute; reflexivity |].
  split; [vm_compute; reflexivity |].
  split; [exact Hld |]. split; [exact Hw |].
  intros (bs & Hb & Hn). rewrite Hw in Hb. injection Hb as <-.
  discriminate Hn.
Qed.

(** ** calloc *)

Lemma s_init_Inv : InvAt s_init [] no_nodes.
Proof.
  constructor.
  - constructor; try (vm_compute; intuition (reflexivity || discriminate)).
  - reflexivity.
  - constructor.
    + intros c Hc. each_class Hc; vm_compute; auto.
    + intros c Hc. apply NoDup_nil_2.
    + intros c x Hc Hx. unfold no_nodes in Hx. apply not_elem_of_nil in Hx.
      contradiction.
  - intros h sz Hb. destruct Hb.
Qed.

Lemma s_full_Inv : InvAt s_full bs_one no_nodes.
Proof.
  constructor.
  - constructor; try (vm_compute; intuition (reflexivity || discriminate)).
  - reflexivity.
  - constructor.
    + intros c Hc. each_class Hc; vm_compute; auto.
    + intros c Hc. apply NoDup_nil_2.
    + intros c x Hc Hx. unfold no_nodes in Hx. apply not_elem_of_nil in Hx.
      contradiction.
  - intros h sz Hb. simpl in Hb. destruct Hb as [(_ & _ & Hal) | []]. discriminate.
Qed.

(** C10, as amended: [calloc(nmemb, size)] works on the product reduced
    modulo 2^64, [n], and makes no overflow check; on a heap that satisfies
    the invariants its outcome is the one [n] alone determines.  It asks
    [malloc] for [n] bytes.  When [malloc] misses, it returns the miss and
    has changed nothing.  When [malloc] returns a block and [n] is at most
    2^64 - 24, it returns that block's payload pointer with the [n] bytes
    from it zeroed and no other byte changed; the block has at least
    [n + 8] bytes and, when the product exceeds 2^64 - 1, fewer bytes than
    the product; the invariants hold again.  When [malloc] returns a block
    and [n] is above 2^64 - 24, the block was sized for a wrapped request
    and the zeroing of [n] bytes runs out of the heap: the call faults. *)
Theorem calloc_product_wraps s bs L nmemb size n :
  InvAt s bs L -> n = wrap (nmemb * size) ->
  (malloc n s = Ok 0 s /\ calloc nmemb size s = Ok 0 s) \/
  (exists p s1,
     malloc n s = Ok p s1 /\ p <> 0 /\
     if n + 24 <=? modulus then
       exists s' bs' L' szr,
         calloc nmemb size s = Ok p s' /\
         (forall i, 0 <= i < n -> byte_at (mem s') (p + i) = 0) /\
         (forall x, ~ (p <= x < p + n) -> byte_at (mem s') x = byte_at (mem s1) x) /\
         head s' = head s1 /\ heap_brk s' = heap_brk s1 /\
         InvAt s' bs' L' /\
         block_at (first_block s') bs' (p - 8) szr true /\
         n + 8 <= szr /\
         (modulus <= nmemb * size -> szr < nmemb * size)
     else calloc nmemb size s = Fault).
Proof.
  intros Hinv Hn. unfold calloc. rewrite (Z.mul_comm size nmemb), <- Hn.
  pose proof (wrap_range (nmemb * size)) as Hnr. rewrite <- Hn in Hnr.
  destruct (malloc_Inv s bs L n Hinv) as [Hmiss | (p & s1 & Hrun & Ha)].
  - left. split; [exact Hmiss |]. step Hmiss. reflexivity.
  - right. exists p, s1.
    destruct Ha as (bs1 & L1 & szr & Hinv1 & Hlo1 & Hpb & Hfit & _).
    pose proof (inv_tiled _ _ _ Hinv1) as Ht1.
    pose proof (Tiled_block _ _ _ _ _ Ht1 Hpb) as Hpg.
    unfold first_block in Hpg.
    assert (Hp0 : p <> 0) by lia.
    split; [exact Hrun |]. split; [exact Hp0 |].
    step Hrun. destruct (Z.eqb_spec p 0) as [| _]; [contradiction |].
    destruct (Z.leb_spec (n + 24) modulus) as [Hnw | Hw].
    + rewrite normalize_no_wrap in Hfit by lia.
      assert (Hcap : n + 8 <= szr).
      { unfold align_up in Hfit. revert Hfit. zlia. }
      destruct (Z.eq_dec n 0) as [Hn0 | Hn0].
      * exists s1, bs1, L1, szr. rewrite Hn0. unfold memset. simpl.
        split; [reflexivity |]. split; [intros i Hi; lia |].
        split; [reflexivity |]. split; [reflexivity |]. split; [reflexivity |].
        split; [exact Hinv1 |]. split; [exact Hpb |].
        split; [lia |]. rewrite modulus_eq in *. lia.
      * rewrite ?bind_assoc.
        rewrite (bind_ok _ _ _ _ _
                   (memset_run s1 p 0 n ltac:(lia) ltac:(lia) ltac:(lia))).
        eexists _, bs1, L1, szr. split; [reflexivity |].
        split.
        { intros i Hi. simpl. rewrite byte_at_fill_in by lia. reflexivity. }
        split; [intros x Hx; simpl; apply byte_at_fill_out; lia |].
        split; [reflexivity |]. split; [reflexivity |].
        split.
        { apply (Inv_frame_payload s1 bs1 L1 (p - 8) szr _ Hinv1 Hpb).
          intros x Hx. apply byte_at_fill_out. lia. }
        split; [exact Hpb |]. split; [exact Hcap |].
        rewrite modulus_eq in *. lia.
    + unfold bind, memset, in_heap_range.
      destruct (Z.eqb_spec n 0) as [| _]; [lia |].
      destruct (Z.leb_spec (p + n) (heap_brk s1)) as [Hc | _]; [lia |].
      rewrite andb_false_r. reflexivity.
Qed.

Lemma malloc_8_s_four : malloc 8 s_four = Ok 4176 (after (malloc 8) s_four).
Proof. vm_compute. reflexivity. Qed.

Lemma calloc_product_wraps_witness :
  modulus <= (2 ^ 61 + 1) * 8 /\ 8 = wrap ((2 ^ 61 + 1) * 8) /\
  malloc 8 s_four = Ok 4176 (after (malloc 8) s_four) /\
  byte_at (mem (after (malloc 8) s_four)) 4176 = 144 /\
  ((malloc 8 s_four = Ok 0 s_four /\ calloc (2 ^ 61 + 1) 8 s_four = Ok 0 s_four) \/
   (exists p s1,
      malloc 8 s_four = Ok p s1 /\ p <> 0 /\
      exists s' bs' L' szr,
        calloc (2 ^ 61 + 1) 8 s_four = Ok p s' /\
        (forall i, 0 <= i < 8 -> byte_at (mem s') (p + i) = 0) /\
        (forall x, ~ (p <= x < p + 8) -> byte_at (mem s') x = byte_at (mem s1) x) /\
        head s' = head s1 /\ heap_brk s' = heap_brk s1 /\
        InvAt s' bs' L' /\
        block_at (first_block s') bs' (p - 8) szr true /\
        8 + 8 <= szr /\
        (modulus <= (2 ^ 61 + 1) * 8 -> szr < (2 ^ 61 + 1) * 8))).
Proof.
  split; [vm_compute; discriminate |].
  split; [reflexivity |].
  split; [exact malloc_8_s_four |].
  split; [vm_compute; reflexivity |].
  exact (calloc_product_wraps s_four bs_four nodes_four (2 ^ 61 + 1) 8 8
           s_four_Inv eq_refl).
Defined.

(** C10, as stated, fails: an overflowing product does not always give a
    zeroed block.  On the exhausted heap, [calloc(2^63 + 8, 2)] has the
    product 2^64 + 16, which wraps to 16, and returns a miss.  On the
    initialised heap, [calloc(2, 2^64 - 4)] has the product 2^65 - 8, which
    wraps to 2^64 - 8; [malloc] sizes a 32-byte block for it and the zeroing
    of 2^64 - 8 bytes faults. *)
Lemma calloc_wrap_counterexample :
  InvAt s_full bs_one no_nodes /\
  modulus <= (2 ^ 63 + 8) * 2 /\
  calloc (2 ^ 63 + 8) 2 s_full = Ok 0 s_full /\
  InvAt s_init [] no_nodes /\
  modulus <= 2 * (modulus - 4) /\
  calloc 2 (modulus - 4) s_init = Fault.
Proof.
  split; [exact s_full_Inv |].
  split; [vm_compute; discriminate |].
  split; [vm_compute; reflexivity |].
  split; [exact s_init_Inv |].
  split; [vm_compute; discriminate |].
  vm_compute. reflexivity.
Qed.

(** ** Membership in a free list *)

Section Presence.
Variables (s : mstate) (bs : list block) (L : Z -> list Z).
Hypothesis Ht : Tiled s bs.
Hypothesis Hl : Lists s bs L.

Lemma check_presence_loop_spec c x : 0 <= c < 16 ->
  forall rem vis y fuel,
    L c = vis ++ y :: rem -> (length rem < fuel)%nat ->
    check_presence_loop fuel x c y s
    = Ok (bool_decide (x ∈ y :: rem)) s.
Proof.
  intros Hc. induction rem as [| z rem' IH]; intros vis y fuel HL Hfuel;
    (destruct fuel as [| f]; [simpl in Hfuel; lia |]).
  - simpl check_presence_loop.
    destruct (Z.eqb_spec y x) as [-> | Hne].
    + rewrite bool_decide_eq_true_2 by left. reflexivity.
    + assert (Hy : y ∈ L c) by (rewrite HL; apply elem_of_app; right; left).
      destruct (node_block s bs L Ht Hl c y Hc Hy)
        as (szy & _ & _ & _ & _ & Hvy8 & Hy0 & Hy8 & _).
      rewrite (next_field_small y) by lia.
      step (load_run s _ Hvy8). step (get_head_run s c Hc).
      pose proof (l_dll _ _ _ Hl c Hc) as [Hh Hcyc]. rewrite HL in Hh, Hcyc.
      apply (cyc_rot (mem s) vis [y]) in Hcyc. simpl in Hcyc.
      destruct (cyc_head _ _ _ Hcyc) as (Hn & _).
      fold (nxt (mem s) y). rewrite Hn.
      assert (Hhd : head_at s c = hd y vis) by (destruct vis; exact Hh).
      rewrite Hhd, Z.eqb_refl.
      rewrite bool_decide_eq_false_2; [reflexivity |].
      rewrite list_elem_of_singleton. congruence.
  - simpl check_presence_loop.
    destruct (Z.eqb_spec y x) as [-> | Hne].
    + rewrite bool_decide_eq_true_2 by left. reflexivity.
    + assert (Hy : y ∈ L c) by (rewrite HL; apply elem_of_app; right; left).
      destruct (node_block s bs L Ht Hl c y Hc Hy)
        as (szy & _ & _ & _ & _ & Hvy8 & Hy0 & Hy8 & _).
      rewrite (next_field_small y) by lia.
      step (load_run s _ Hvy8). step (get_head_run s c Hc).
      pose proof (l_dll _ _ _ Hl c Hc) as [Hh Hcyc]. rewrite HL in Hh, Hcyc.
      pose proof (l_nodup _ _ _ Hl c Hc) as Hnd. rewrite HL in Hnd.
      apply (cyc_rot (mem s) vis (y :: z :: rem')) in Hcyc. simpl in Hcyc.
      destruct Hcyc as (Hn & _). fold (nxt (mem s) y). rewrite Hn.
      assert (Hhd : head_at s c = hd y vis) by (destruct vis; exact Hh).
      assert (Hzne : z <> hd y vis).
      { apply NoDup_app in Hnd as (_ & Hd & Hnd2).
        apply NoDup_cons in Hnd2 as [Hx2 _].
        destruct vis as [| v vis']; simpl.
        - intros ->. apply Hx2. left.
        - intros ->. apply (Hd v); [left | right; left]. }
      rewrite Hhd. destruct (Z.eqb_spec z (hd y vis)) as [| _]; [contradiction |].
      rewrite (IH (vis ++ [y]) z f) by
        (try (rewrite <- app_assoc; exact HL); simpl in Hfuel; lia).
      f_equal. apply bool_decide_ext. rewrite (elem_of_cons (z :: rem') x y).
      split; [auto | intros [-> | H]; [congruence | exact H]].
Qed.

(** [check_presence] answers whether the node is on the list of the class. *)
Lemma check_presence_spec c x :
  0 <= c < 16 ->
  check_presence x c s = Ok (bool_decide (x ∈ L c)) s.
Proof.
  intros Hc. unfold check_presence. step (get_head_run s c Hc).
  pose proof (l_dll _ _ _ Hl c Hc) as [Hh _].
  destruct (L c) as [| y r] eqn:HLc.
  - rewrite Hh, Z.eqb_refl. rewrite bool_decide_eq_false_2; [reflexivity |].
    intros H. inversion H.
  - assert (Hy : y ∈ L c) by (rewrite HLc; left).
    destruct (node_block s bs L Ht Hl c y Hc Hy) as (_ & _ & _ & _ & _ & _ & Hy0 & _).
    rewrite Hh. destruct (Z.eqb_spec y 0) as [| _]; [lia |].
    unfold traversal_budget. unfold bind at 1.
    pose proof (list_length_bound s bs L c Ht Hl Hc) as Hlen.
    rewrite HLc in Hlen. simpl in Hlen.
    apply (check_presence_loop_spec c x Hc r [] y); [exact HLc | lia].
Qed.
End Presence.

(** ** The placement of a request in a chosen free block *)

(** C6: for a chosen free block of size [S] (already taken off its list)
    and a normalised request [n]: when [S - n >= 32] the header is rewritten
    with size [n], the prev_alloc bit as it was and alloc = 1, a free block
    of size [S - n] with prev_alloc = 1 and alloc = 0 starts at offset [n],
    its footer holds [S - n], and its node is on the list of class
    [get_index (S - n)]; when [S - n < 32] the header is rewritten with size
    [S], the prev_alloc bit as it was and alloc = 1, and the successor's
    header has its prev_alloc bit set.  The payload pointer is returned. *)
Theorem allocate_spec s L b1 b2 S n h pa :
  h = first_block s + total b1 ->
  pa = last_alloc true b1 ->
  Tiled s (b1 ++ [(S, false)] ++ b2) ->
  Lists s (b1 ++ [(S, false)] ++ b2) L ->
  (forall c, 0 <= c < 16 -> (h + 8) ∉ L c) ->
  32 <= n <= S -> n mod 16 = 0 ->
  load64 (mem s) h = hdr S pa false /\
  load64 (mem s) (h + S) = first_hdr false b2 /\
  exists s' bs' L',
    allocate h n s = Ok (h + 8) s' /\
    Tiled s' bs' /\ Lists s' bs' L' /\
    placed s' L' h S n pa b2.
Proof.
  intros -> -> Ht Hl Hfresh Hn Hn16.
  set (h := first_block s + total b1) in *. set (pa := last_alloc true b1).
  destruct (allocate_facts s b1 b2 S n Ht Hn) as (Hld & HS16 & Hnx & Hrest).
  fold h pa in Hld, Hnx.
  split; [exact Hld |]. split; [exact Hnx |].
  unfold placed. destruct (Z.leb_spec 32 (S - n)) as [Hsplit | Hwhole].
  - destruct (allocate_split s L b1 b2 S n Ht Hl Hfresh Hn Hn16 Hsplit)
      as (s' & L' & Hrun & Hlo & Hbrk & Hmax & Ht' & Hl' & Hm).
    fold h in Hrun, Hm.
    exists s', (b1 ++ [(n, true); (S - n, false)] ++ b2), L'.
    split; [exact Hrun |]. split; [exact Ht' |]. split; [exact Hl' |].
    destruct (Tiled_mid s' b1 _ b2 Ht') as (Hs & _).
    rewrite (first_block_same s s' Hlo) in Hs. fold h pa in Hs. simpl in Hs.
    destruct Hs as (H1 & _ & _ & _ & H2 & _ & _ & H3 & _).
    specialize (H3 eq_refl).
    replace (h + n + (S - n) - 8) with (h + S - 8) in H3 by lia.
    assert (Hin : (h + n + 8) ∈ L' (get_index (S - n))).
    { apply (Hm _ _ (get_index_bounds _)). right. auto. }
    split; [exact H1 |]. split; [exact H2 |]. split; [exact H3 |].
    split; [exact Hin |].
    rewrite (check_presence_spec s' _ L' Ht' Hl' _ _ (get_index_bounds _)).
    rewrite bool_decide_eq_true_2 by exact Hin. reflexivity.
  - destruct (allocate_whole s L b1 b2 S n Ht Hl Hfresh Hn Hwhole)
      as (s' & Hrun & Hlo & Hbrk & Hmax & Ht' & Hl').
    fold h in Hrun.
    exists s', (b1 ++ [(S, true)] ++ b2), L.
    split; [exact Hrun |]. split; [exact Ht' |]. split; [exact Hl' |].
    destruct (Tiled_mid s' b1 _ b2 Ht') as (Hs & Hnx' & _).
    rewrite (first_block_same s s' Hlo) in Hs, Hnx'. fold h pa in Hs, Hnx'.
    simpl in Hs, Hnx'. rewrite Z.add_0_r in Hnx'.
    destruct Hs as (H1 & _). auto.
Qed.

Lemma s_unlinked_Tiled : Tiled s_unlinked ([] ++ [(112, false)] ++ []).
Proof. constructor; try (vm_compute; intuition (reflexivity || discriminate)). Qed.

Lemma s_unlinked_Lists : Lists s_unlinked ([] ++ [(112, false)] ++ []) no_nodes.
Proof.
  constructor.
  - intros c Hc. each_class Hc; vm_compute; auto.
  - intros c Hc. apply NoDup_nil_2.
  - intros c x Hc Hx. inversion Hx.
Qed.

Lemma allocate_spec_witness :
  load64 (mem s_unlinked) 4120 = hdr 112 true false /\
  load64 (mem s_unlinked) (4120 + 112) = first_hdr false [] /\
  exists s' bs' L',
    allocate 4120 32 s_unlinked = Ok (4120 + 8) s' /\
    Tiled s' bs' /\ Lists s' bs' L' /\
    placed s' L' 4120 112 32 true [].
Proof.
  apply (allocate_spec s_unlinked no_nodes [] [] 112 32 4120 true).
  - vm_compute; reflexivity.
  - reflexivity.
  - exact s_unlinked_Tiled.
  - exact s_unlinked_Lists.
  - intros c Hc. unfold no_nodes. apply not_elem_of_nil.
  - lia.
  - reflexivity.
Defined.

(** * Further properties of the code *)

(** ** Pointer stepping *)

Lemma wrap_sub_add p n : 0 <= p < modulus -> wrap (wrap (p + n) - n) = p.
Proof.
  intros Hp. unfold wrap. rewrite Zminus_mod_idemp_l.
  replace (p + n - n) with p by lia. apply Z.mod_small, Hp.
Qed.

Lemma wrap_add_sub p n : 0 <= p < modulus -> wrap (wrap (p - n) + n) = p.
Proof.
  intros Hp. unfold wrap. rewrite Zplus_mod_idemp_l.
  replace (p - n + n) with p by lia. apply Z.mod_small, Hp.
Qed.

(** [incr] and [decr] are inverse to each other on every pointer, the
    wrap-around at the ends of the address space included; so are [h2n] and
    [n2h], which step by one word between a header and its node. *)
Theorem pointer_steps_invert p n :
  0 <= p < modulus ->
  decr (incr p n) n = p /\ incr (decr p n) n = p /\
  n2h (h2n p) = p /\ h2n (n2h p) = p.
Proof.
  intros Hp. unfold n2h, h2n, incr, decr.
  split; [apply wrap_sub_add, Hp |].
  split; [apply wrap_add_sub, Hp |].
  split; [apply wrap_sub_add, Hp | apply wrap_add_sub, Hp].
Qed.

Lemma pointer_steps_invert_witness :
  decr (incr (modulus - 4) 8) 8 = modulus - 4 /\
  incr (decr (modulus - 4) 8) 8 = modulus - 4 /\
  n2h (h2n (modulus - 4)) = modulus - 4 /\
  h2n (n2h (modulus - 4)) = modulus - 4.
Proof. apply (pointer_steps_invert (modulus - 4) 8). rewrite modulus_eq. lia. Defined.

(** ** Alignment *)

(** [aligned] holds of exactly the pointers that are multiples of 16: the
    wrap-around of [align] on the last fifteen addresses does not make any
    of them pass. *)
Theorem aligned_iff_multiple p :
  0 <= p < modulus -> (aligned p = true <-> p mod 16 = 0).
Proof.
  intros Hp. unfold aligned, align, ALIGNMENT, wrap. rewrite Z.eqb_eq.
  rewrite modulus_eq in *. split; intros H; zlia.
Qed.

Lemma aligned_iff_multiple_witness :
  aligned 4128 = true <-> 4128 mod 16 = 0.
Proof. apply (aligned_iff_multiple 4128). rewrite modulus_eq. lia. Defined.

(** [align] returns the least multiple of 16 that is not below its
    argument, as long as the sum [x + 15] does not wrap; it is then
    idempotent. *)
Theorem align_least_multiple x :
  0 <= x -> x + 15 < modulus ->
  align x mod 16 = 0 /\ x <= align x < x + 16 /\
  (forall y, x <= y -> y mod 16 = 0 -> align x <= y) /\
  align (align x) = align x.
Proof.
  intros H0 H1.
  assert (Ha : align x = 16 * ((x + 15) / 16)).
  { rewrite align_no_wrap by lia. unfold align_up. f_equal. f_equal. lia. }
  assert (Hm : align x mod 16 = 0) by (rewrite Ha; zlia).
  assert (Hr : x <= align x < x + 16) by (rewrite Ha; zlia).
  split; [exact Hm |]. split; [exact Hr |].
  split; [intros y Hy Hy16; rewrite Ha; zlia |].
  unfold align at 1. unfold ALIGNMENT, wrap. rewrite modulus_eq in *. zlia.
Qed.

Lemma align_least_multiple_witness :
  align 33 mod 16 = 0 /\ 33 <= align 33 < 33 + 16 /\
  (forall y, 33 <= y -> y mod 16 = 0 -> align 33 <= y) /\
  align (align 33) = align 33.
Proof. apply (align_least_multiple 33); [lia | rewrite modulus_eq; lia]. Defined.

(** The block size [malloc] works with leaves room for the header word and
    the request, wastes fewer than 24 bytes beyond the 32-byte floor, and is
    a multiple of 16. *)
Theorem normalize_fits n :
  0 <= n -> n + 24 <= modulus ->
  n + w <= normalize n /\ normalize n < Z.max 33 (n + 24) /\
  32 <= normalize n /\ normalize n mod 16 = 0.
Proof.
  intros H0 H1. rewrite normalize_no_wrap by lia.
  unfold align_up, w. zlia.
Qed.

Lemma normalize_fits_witness :
  100 + w <= normalize 100 /\ normalize 100 < Z.max 33 (100 + 24) /\
  32 <= normalize 100 /\ normalize 100 mod 16 = 0.
Proof. apply (normalize_fits 100); [lia | rewrite modulus_eq; lia]. Defined.

(** ** Boundary tags *)

Lemma with_mem_valid s m a : valid (with_mem s m) a <-> valid s a.
Proof. reflexivity. Qed.

(** A header written by [make_h] is read back field by field: [get_size]
    returns the size, [get_prev_alloc] and [is_alloc] the two bits; the
    word holds [size + 2 * prev_alloc + alloc], and nothing but its eight
    bytes changes. *)
Theorem header_round_trip s p sz pa al :
  valid s p -> sz mod 16 = 0 -> 0 <= sz -> sz + 3 < modulus ->
  exists s',
    make_h p sz (Z.b2z pa) (Z.b2z al) s = Ok p s' /\
    load64 (mem s') p = hdr sz pa al /\
    get_size p s' = Ok sz s' /\
    get_prev_alloc p s' = Ok (Z.b2z pa) s' /\
    is_alloc p s' = Ok (Z.b2z al) s' /\
    head s' = head s /\
    (forall x, ~ (p <= x < p + 8) -> byte_at (mem s') x = byte_at (mem s) x).
Proof.
  intros Hv Hsz H0 H1.
  exists (with_mem s (store64 (mem s) p (hdr sz pa al))).
  assert (Hld : load64 (store64 (mem s) p (hdr sz pa al)) p = hdr sz pa al).
  { rewrite load64_store64_eq. apply wrap_small, hdr_range; lia. }
  split; [apply make_h_run; assumption |].
  split; [exact Hld |].
  split; [apply (get_size_hdr _ _ sz pa al); assumption |].
  split; [apply (get_prev_alloc_hdr _ _ sz pa al); assumption |].
  split; [apply (is_alloc_hdr _ _ sz pa al); assumption |].
  split; [reflexivity |].
  intros x Hx. simpl. apply byte_at_store64_out. lia.
Qed.

Lemma header_round_trip_witness :
  exists s',
    make_h 4120 48 (Z.b2z true) (Z.b2z false) s_one = Ok 4120 s' /\
    load64 (mem s') 4120 = hdr 48 true false /\
    get_size 4120 s' = Ok 48 s' /\
    get_prev_alloc 4120 s' = Ok (Z.b2z true) s' /\
    is_alloc 4120 s' = Ok (Z.b2z false) s' /\
    head s' = head s_one /\
    (forall x, ~ (4120 <= x < 4120 + 8) ->
               byte_at (mem s') x = byte_at (mem s_one) x).
Proof.
  apply (header_round_trip s_one 4120 48 true false).
  - vm_compute. split; discriminate.
  - reflexivity.
  - lia.
  - rewrite modulus_eq. lia.
Defined.

(** The state [make_hf] leaves. *)
Lemma make_hf_run s p sz pa al :
  valid s p -> 0 < p -> 16 <= sz -> sz mod 16 = 0 ->
  p + sz <= heap_brk s -> heap_brk s <= modulus ->
  make_hf p sz (Z.b2z pa) (Z.b2z al) s =
  Ok p (with_mem s (store64 (store64 (mem s) p (hdr sz pa al))
                            (p + sz - 8) (hdr sz false al))).
Proof.
  intros Hv Hp H16 Hsz Hend Hmax.
  assert (Hsm : sz + 16 <= modulus) by (rewrite modulus_eq in *; zlia).
  set (s1 := with_mem s (store64 (mem s) p (hdr sz pa al))).
  assert (Hvf : valid s (p + sz - 8)) by (destruct Hv; split; lia).
  assert (Hmk : make_h p sz (Z.b2z pa) (Z.b2z al) s = Ok p s1)
    by (apply make_h_run; [assumption | assumption | lia | lia]).
  assert (Hld1 : load64 (mem s1) p = hdr sz pa al).
  { simpl. rewrite load64_store64_eq. apply wrap_small, hdr_range; lia. }
  assert (Hgf : get_f p s1 = Ok (p + sz - 8) s1).
  { unfold get_f.
    rewrite (bind_ok _ _ _ _ _ (get_size_hdr s1 p sz pa al Hv Hld1 Hsz)).
    unfold ret, incr, w. rewrite (wrap_small (sz - 8)) by lia.
    rewrite wrap_small by lia. f_equal. lia. }
  unfold make_hf. step Hmk. step Hgf. unfold make_f.
  replace (Z.lor sz (Z.b2z al)) with (hdr sz false al).
  - rewrite wrap_small by (apply hdr_range; lia).
    rewrite ?bind_assoc.
    rewrite (bind_ok _ _ _ _ _ (store_run s1 _ _ Hvf)). reflexivity.
  - rewrite <- (hdr_encode sz false al Hsz). simpl Z.b2z.
    rewrite Z.shiftl_0_l. apply Z.lor_0_r.
Qed.

(** [make_hf] writes a header and, at the last word of the block, a footer
    that holds the size and the alloc bit; [get_f] then leads from the
    header to the footer and [get_h] from the footer back to the header. *)
Theorem make_hf_round_trip s p sz pa al :
  valid s p -> 0 < p -> 16 <= sz -> sz mod 16 = 0 ->
  p + sz <= heap_brk s -> heap_brk s <= modulus ->
  exists s',
    make_hf p sz (Z.b2z pa) (Z.b2z al) s = Ok p s' /\
    load64 (mem s') p = hdr sz pa al /\
    load64 (mem s') (p + sz - 8) = hdr sz false al /\
    get_f p s' = Ok (p + sz - 8) s' /\
    get_h (p + sz - 8) s' = Ok p s' /\
    (forall x, ~ (p <= x < p + 8) -> ~ (p + sz - 8 <= x < p + sz) ->
               byte_at (mem s') x = byte_at (mem s) x).
Proof.
  intros Hv Hp H16 Hsz Hend Hmax.
  assert (Hsm : sz + 16 <= modulus) by (rewrite modulus_eq in *; zlia).
  assert (Hvf : valid s (p + sz - 8)) by (destruct Hv; split; lia).
  eexists. split; [apply make_hf_run; assumption |].
  match goal with |- load64 (mem ?t) _ = _ /\ _ => set (s2 := t) end.
  assert (Hld2 : load64 (mem s2) p = hdr sz pa al).
  { simpl. rewrite load64_store64_ne by lia.
    rewrite load64_store64_eq. apply wrap_small, hdr_range; lia. }
  assert (Hldf : load64 (mem s2) (p + sz - 8) = hdr sz false al).
  { simpl. rewrite load64_store64_eq. apply wrap_small, hdr_range; lia. }
  split; [exact Hld2 |]. split; [exact Hldf |].
  split.
  { unfold get_f.
    rewrite (bind_ok _ _ _ _ _ (get_size_hdr s2 p sz pa al Hv Hld2 Hsz)).
    unfold ret, incr, w. rewrite (wrap_small (sz - 8)) by lia.
    rewrite wrap_small by lia. f_equal. lia. }
  split.
  { unfold get_h.
    rewrite (bind_ok _ _ _ _ _
               (get_size_hdr s2 (p + sz - 8) sz false al Hvf Hldf Hsz)).
    unfold ret, decr, w. rewrite (wrap_small (sz - 8)) by lia.
    rewrite wrap_small by lia. f_equal. lia. }
  intros x Hx1 Hx2. simpl.
  rewrite byte_at_store64_out by lia. apply byte_at_store64_out. lia.
Qed.

Lemma make_hf_round_trip_witness :
  exists s',
    make_hf 4120 32 (Z.b2z true) (Z.b2z false) s_one = Ok 4120 s' /\
    load64 (mem s') 4120 = hdr 32 true false /\
    load64 (mem s') (4120 + 32 - 8) = hdr 32 false false /\
    get_f 4120 s' = Ok (4120 + 32 - 8) s' /\
    get_h (4120 + 32 - 8) s' = Ok 4120 s' /\
    (forall x, ~ (4120 <= x < 4120 + 8) -> ~ (4120 + 32 - 8 <= x < 4120 + 32) ->
               byte_at (mem s') x = byte_at (mem s_one) x).
Proof.
  apply (make_hf_round_trip s_one 4120 32 true false).
  - vm_compute. split; discriminate.
  - lia.
  - lia.
  - reflexivity.
  - vm_compute. discriminate.
  - vm_compute. discriminate.
Defined.

(** The mask [~0x1] clears the lowest bit of a word. *)
Lemma land_mask1 v :
  0 <= v < modulus -> Z.land v (mask_not 1) = 2 * (v / 2).
Proof.
  intros Hv.
  replace (mask_not 1) with (Z.land (Z.ones 64) (Z.lnot (Z.ones 1)))
    by reflexivity.
  rewrite Z.land_assoc, Z.land_ones by lia.
  change (2 ^ 64) with modulus. rewrite Z.mod_small by lia.
  rewrite <- Z.ldiff_land.
  rewrite Z.ldiff_ones_r by lia.
  rewrite Z.shiftl_mul_pow2, Z.shiftr_div_pow2 by lia.
  change (2 ^ 1) with 2. lia.
Qed.

(** [free_h] clears the alloc bit of a header and nothing else: the size and
    the prev_alloc bit read as before, the heads and every other byte are
    untouched, and a second application changes nothing. *)
Theorem free_h_clears_alloc s p :
  valid s p ->
  exists s',
    free_h p s = Ok p s' /\
    is_alloc p s' = Ok 0 s' /\
    (forall sz, get_size p s = Ok sz s -> get_size p s' = Ok sz s') /\
    (forall pa, get_prev_alloc p s = Ok pa s -> get_prev_alloc p s' = Ok pa s') /\
    head s' = head s /\
    (forall x, ~ (p <= x < p + 8) -> byte_at (mem s') x = byte_at (mem s) x) /\
    free_h p s' = Ok p s'.
Proof.
  intros Hv. pose proof (load64_range (mem s) p) as Hr.
  set (v := load64 (mem s) p) in *.
  set (s' := with_mem s (store64 (mem s) p (2 * (v / 2)))).
  assert (Hrun : free_h p s = Ok p s').
  { unfold free_h. step (load_run s p Hv). fold v. rewrite land_mask1 by exact Hr.
    step (store_run s p (2 * (v / 2)) Hv). reflexivity. }
  assert (Hld : load64 (mem s') p = 2 * (v / 2)).
  { simpl. rewrite load64_store64_eq. apply wrap_small. zlia. }
  exists s'. split; [exact Hrun |].
  split; [rewrite is_alloc_run by exact Hv; rewrite Hld; f_equal; zlia |].
  split.
  { intros sz Hsz. rewrite get_size_run in Hsz by exact Hv.
    injection Hsz as <-. rewrite get_size_run by exact Hv. rewrite Hld.
    fold v. f_equal. zlia. }
  split.
  { intros pa Hpa. rewrite get_prev_alloc_run in Hpa by exact Hv.
    injection Hpa as <-. rewrite get_prev_alloc_run by exact Hv. rewrite Hld.
    fold v. f_equal. zlia. }
  split; [reflexivity |].
  split; [intros x Hx; simpl; apply byte_at_store64_out; lia |].
  unfold free_h. step (load_run s' p Hv). rewrite Hld.
  rewrite land_mask1 by zlia.
  step (store_run s' p (2 * (2 * (v / 2) / 2)) Hv).
  replace (2 * (2 * (v / 2) / 2)) with (2 * (v / 2)) by zlia.
  unfold s'. simpl. unfold with_mem. simpl. rewrite store64_idem. reflexivity.
Qed.

Lemma free_h_clears_alloc_witness :
  exists s',
    free_h 4120 s_one = Ok 4120 s' /\
    is_alloc 4120 s' = Ok 0 s' /\
    (forall sz, get_size 4120 s_one = Ok sz s_one -> get_size 4120 s' = Ok sz s') /\
    (forall pa, get_prev_alloc 4120 s_one = Ok pa s_one ->
                get_prev_alloc 4120 s' = Ok pa s') /\
    head s' = head s_one /\
    (forall x, ~ (4120 <= x < 4120 + 8) ->
               byte_at (mem s') x = byte_at (mem s_one) x) /\
    free_h 4120 s' = Ok 4120 s'.
Proof.
  apply (free_h_clears_alloc s_one 4120). vm_compute. split; discriminate.
Defined.

(** ** Initialisation *)

(** On a provider whose region is still empty and can grow by 32 bytes,
    [mm_init] returns true and leaves the heap of the data model with no
    block: a padding word, the prologue (header and footer of size 16,
    alloc = 1), the epilogue (size 0, prev_alloc = 1, alloc = 1) in the
    last word, sixteen null heads; the invariants hold with the empty
    block sequence. *)
Theorem mm_init_establishes s :
  heap_brk s = heap_lo s -> 0 < heap_lo s ->
  heap_lo s + 32 <= heap_max s -> heap_max s <= modulus ->
  exists s',
    mm_init s = Ok true s' /\
    heap_lo s' = heap_lo s /\ heap_brk s' = heap_lo s + 32 /\
    head s' = replicate 16 0 /\
    load64 (mem s') (heap_lo s + 8) = hdr 16 false true /\
    load64 (mem s') (heap_lo s + 16) = hdr 16 false true /\
    load64 (mem s') (heap_lo s + 24) = hdr 0 true true /\
    InvAt s' [] no_nodes.
Proof.
  intros Hbrk Hlo Hroom Hmax. set (lo := heap_lo s) in *.
  set (s0 := MState lo (lo + 32) (heap_max s) (mem s) (replicate 16 0)).
  assert (Hsbrk : mm_sbrk (align (4 * w)) s
                  = Ok lo (MState lo (lo + 32) (heap_max s) (mem s) (head s))).
  { unfold mm_sbrk. change (align (4 * w)) with 32. rewrite Hbrk. fold lo.
    destruct (Z.leb_spec (lo + 32) (heap_max s)); [reflexivity | lia]. }
  assert (Hv8 : valid s0 (lo + 8)) by (unfold valid; simpl; lia).
  pose proof (make_hf_run s0 (lo + 8) 16 false true Hv8 ltac:(lia) ltac:(lia)
                eq_refl ltac:(simpl; lia) ltac:(simpl; lia)) as Hhf.
  match type of Hhf with _ = Ok _ ?t => set (s1 := t) in * end.
  assert (Hv24 : valid s1 (lo + 24)) by (unfold valid; simpl; lia).
  pose proof (make_h_run s1 (lo + 24) 0 true true Hv24 eq_refl ltac:(lia)
                ltac:(rewrite modulus_eq; lia)) as Hep.
  match type of Hep with _ = Ok _ ?t => set (s2 := t) in * end.
  assert (Hrun : mm_init s = Ok true s2).
  { unfold mm_init. step Hsbrk. unfold head_init at 1.
    rewrite ?bind_assoc. unfold bind at 1. cbn [with_head heap_lo heap_brk heap_max mem head].
    change (Z.to_nat maxindex) with 16%nat. fold s0.
    unfold incr, w. rewrite !wrap_small by lia.
    change (2 * 8) with 16. change (3 * 8) with 24.
    step Hhf. unfold make_epi. step Hep.
    destruct (Z.eqb_spec lo 0); [lia | reflexivity]. }
  assert (H8 : load64 (mem s2) (lo + 8) = hdr 16 false true).
  { simpl. rewrite !load64_store64_ne by lia.
    rewrite load64_store64_eq. reflexivity. }
  assert (H16 : load64 (mem s2) (lo + 16) = hdr 16 false true).
  { simpl. replace (lo + 8 + 16 - 8) with (lo + 16) by lia.
    rewrite load64_store64_ne by lia.
    rewrite load64_store64_eq. reflexivity. }
  assert (H24 : load64 (mem s2) (lo + 24) = hdr 0 true true).
  { simpl. rewrite load64_store64_eq. reflexivity. }
  exists s2. split; [exact Hrun |].
  split; [reflexivity |]. split; [reflexivity |]. split; [reflexivity |].
  split; [exact H8 |]. split; [exact H16 |]. split; [exact H24 |].
  constructor.
  - constructor; simpl; try lia; try reflexivity.
    + unfold first_block. simpl. fold lo. lia.
    + replace (lo + 32 - 8) with (lo + 24) by lia. exact H24.
  - reflexivity.
  - constructor.
    + intros c Hc. split; [| exact I]. unfold head_at.
      change (head s2) with (replicate 16 0).
      destruct (replicate 16 0 !! Z.to_nat c) as [v |] eqn:Hv; [| reflexivity].
      apply lookup_replicate in Hv as [-> _]. reflexivity.
    + intros c Hc. apply NoDup_nil_2.
    + intros c x Hc Hx. unfold no_nodes in Hx. apply not_elem_of_nil in Hx.
      contradiction.
  - intros h sz Hb. destruct Hb.
Qed.

Lemma mm_init_establishes_witness :
  exists s',
    mm_init (fresh 4096 4096) = Ok true s' /\
    heap_lo s' = heap_lo (fresh 4096 4096) /\
    heap_brk s' = heap_lo (fresh 4096 4096) + 32 /\
    head s' = replicate 16 0 /\
    load64 (mem s') (heap_lo (fresh 4096 4096) + 8) = hdr 16 false true /\
    load64 (mem s') (heap_lo (fresh 4096 4096) + 16) = hdr 16 false true /\
    load64 (mem s') (heap_lo (fresh 4096 4096) + 24) = hdr 0 true true /\
    InvAt s' [] no_nodes.
Proof.
  apply (mm_init_establishes (fresh 4096 4096)).
  - reflexivity.
  - simpl. lia.
  - simpl. lia.
  - simpl. rewrite modulus_eq. lia.
Defined.

(** What follows the provider's answer in [mm_init] cannot end in false. *)
Lemma mm_init_after_sbrk ptr s0 s' :
  8 < heap_lo s0 ->
  (head_init ;;
   make_hf (incr ptr 8) (2 * w) 0 1 ;;
   make_epi (incr ptr (3 * w)) ;;
   if ptr =? 0 then ret false else ret true) s0 <> Ok false s'.
Proof.
  intros Hlo. destruct (Z.eqb_spec ptr 0) as [-> | Hne].
  - change (incr 0 8) with 8.
    unfold head_init, make_hf, make_h, store, in_heap_range, bind.
    cbn [with_head heap_lo heap_brk].
    destruct (Z.leb_spec (heap_lo s0) 8); [lia |]. discriminate.
  - unfold bind.
    destruct (head_init s0) as [? ? | |]; try discriminate.
    destruct (make_hf _ _ _ _ _) as [? ? | |]; try discriminate.
    destruct (make_epi _ _) as [? ? | |]; discriminate.
Qed.

(** [mm_init] writes the prologue and the epilogue through the pointer the
    provider returned before it tests that pointer: when the provider cannot
    grant the 32 bytes, the writes go to the addresses 8 to 31, outside the
    region, and the call faults; it never returns false. *)
Theorem mm_init_miss_faults s :
  8 < heap_lo s ->
  (heap_max s < heap_brk s + 32 -> mm_init s = Fault) /\
  (forall s', mm_init s <> Ok false s').
Proof.
  intros Hlo. split.
  - intros Hfull. unfold mm_init, mm_sbrk. change (align (4 * w)) with 32.
    unfold bind at 1.
    destruct (Z.leb_spec (heap_brk s + 32) (heap_max s)); [lia |].
    change (incr 0 8) with 8.
    unfold head_init, make_hf, make_h, store, in_heap_range, bind.
    cbn [with_head heap_lo heap_brk].
    destruct (Z.leb_spec (heap_lo s) 8); [lia |]. reflexivity.
  - intros s'. unfold mm_init, mm_sbrk. unfold bind at 1.
    destruct (_ <=? _); apply mm_init_after_sbrk; exact Hlo.
Qed.

Lemma mm_init_miss_faults_witness :
  (heap_max (fresh 4096 16) < heap_brk (fresh 4096 16) + 32 ->
   mm_init (fresh 4096 16) = Fault) /\
  (forall s', mm_init (fresh 4096 16) <> Ok false s').
Proof. apply (mm_init_miss_faults (fresh 4096 16)). simpl. lia. Defined.

(** ** The free lists *)

(** On a heap whose lists are in order, [check_presence] says whether the
    node is on the list of the class: it returns true exactly for the nodes
    of that list, never runs past the list, and leaves the state alone. *)
Theorem check_presence_decides s bs L x c :
  Tiled s bs -> Lists s bs L -> 0 <= c < 16 ->
  exists b, check_presence x c s = Ok b s /\ (b = true <-> x ∈ L c).
Proof.
  intros Ht Hl Hc. exists (bool_decide (x ∈ L c)).
  split; [apply (check_presence_spec s bs L Ht Hl c x Hc) |].
  apply bool_decide_eq_true.
Qed.

Lemma check_presence_decides_witness :
  exists b, check_presence 4240 0 s_four = Ok b s_four /\
            (b = true <-> 4240 ∈ nodes_four 0).
Proof.
  apply (check_presence_decides s_four bs_four nodes_four 4240 0).
  - exact (inv_tiled _ _ _ s_four_Inv).
  - exact (inv_lists _ _ _ s_four_Inv).
  - lia.
Defined.

(** [addnode] puts the node of a free block that is on no list on the list
    of class [get_index size], where [check_presence] then finds it; the
    other lists keep their nodes and the tiling is untouched. *)
Theorem addnode_then_present s bs L x sz :
  Tiled s bs -> Lists s bs L ->
  block_at (first_block s) bs (x - 8) sz false ->
  (forall c, 0 <= c < 16 -> x ∉ L c) ->
  exists s' L',
    addnode x s = Ok tt s' /\
    Tiled s' bs /\ Lists s' bs L' /\
    (forall c y, 0 <= c < 16 ->
       (y ∈ L' c <-> y ∈ L c \/ (y = x /\ c = get_index sz))) /\
    check_presence x (get_index sz) s' = Ok true s' /\
    (forall c, 0 <= c < 16 -> c <> get_index sz ->
               check_presence x c s' = Ok false s').
Proof.
  intros Ht Hl Hb Hfresh.
  destruct (addnode_Lists s bs L x sz Ht Hl Hb Hfresh)
    as (s' & L' & Hrun & _ & _ & _ & Ht' & Hl' & Hm).
  exists s', L'. split; [exact Hrun |]. split; [exact Ht' |].
  split; [exact Hl' |]. split; [exact Hm |].
  split.
  - rewrite (check_presence_spec s' bs L' Ht' Hl' _ x (get_index_bounds sz)).
    rewrite bool_decide_eq_true_2; [reflexivity |].
    apply (Hm _ _ (get_index_bounds sz)). right. auto.
  - intros c Hc Hne.
    rewrite (check_presence_spec s' bs L' Ht' Hl' c x Hc).
    rewrite bool_decide_eq_false_2; [reflexivity |].
    intros Hin. apply (Hm c x Hc) in Hin as [Hin | [_ Heq]];
      [exact (Hfresh c Hc Hin) | contradiction].
Qed.

Lemma s_unlinked_block :
  block_at (first_block s_unlinked) ([] ++ [(112, false)] ++ [])
           (4128 - 8) 112 false.
Proof. left. vm_compute. auto. Qed.

Lemma addnode_then_present_witness :
  exists s' L',
    addnode 4128 s_unlinked = Ok tt s' /\
    Tiled s' ([] ++ [(112, false)] ++ []) /\
    Lists s' ([] ++ [(112, false)] ++ []) L' /\
    (forall c y, 0 <= c < 16 ->
       (y ∈ L' c <-> y ∈ no_nodes c \/ (y = 4128 /\ c = get_index 112))) /\
    check_presence 4128 (get_index 112) s' = Ok true s' /\
    (forall c, 0 <= c < 16 -> c <> get_index 112 ->
               check_presence 4128 c s' = Ok false s').
Proof.
  apply (addnode_then_present s_unlinked _ no_nodes 4128 112).
  - exact s_unlinked_Tiled.
  - exact s_unlinked_Lists.
  - exact s_unlinked_block.
  - intros c Hc. unfold no_nodes. apply not_elem_of_nil.
Defined.

(** [removenode] takes a node off the list it is on: [check_presence] no
    longer finds it, every other node stays where it was, and the tiling is
    untouched. *)
Theorem removenode_then_absent s bs L x c :
  Tiled s bs -> Lists s bs L -> 0 <= c < 16 -> x ∈ L c ->
  exists s' L',
    removenode x c s = Ok tt s' /\
    Tiled s' bs /\ Lists s' bs L' /\
    (forall c' y, 0 <= c' < 16 -> (y ∈ L' c' <-> y ∈ L c' /\ y <> x)) /\
    (forall c', 0 <= c' < 16 -> check_presence x c' s' = Ok false s') /\
    (forall c' y, 0 <= c' < 16 -> y <> x ->
                  check_presence y c' s' = Ok (bool_decide (y ∈ L c')) s').
Proof.
  intros Ht Hl Hc Hx.
  destruct (removenode_Lists s bs L c x Ht Hl Hc Hx)
    as (s' & L' & Hrun & _ & _ & _ & Ht' & Hl' & Hm).
  exists s', L'. split; [exact Hrun |]. split; [exact Ht' |].
  split; [exact Hl' |]. split; [exact Hm |].
  split.
  - intros c' Hc'.
    rewrite (check_presence_spec s' bs L' Ht' Hl' c' x Hc').
    rewrite bool_decide_eq_false_2; [reflexivity |].
    intros Hin. apply (Hm c' x Hc') in Hin as [_ Hne]. contradiction.
  - intros c' y Hc' Hne.
    rewrite (check_presence_spec s' bs L' Ht' Hl' c' y Hc').
    f_equal. apply bool_decide_ext. rewrite (Hm c' y Hc'). tauto.
Qed.

Lemma removenode_then_absent_witness :
  exists s' L',
    removenode 4176 0 s_four = Ok tt s' /\
    Tiled s' bs_four /\ Lists s' bs_four L' /\
    (forall c' y, 0 <= c' < 16 ->
                  (y ∈ L' c' <-> y ∈ nodes_four c' /\ y <> 4176)) /\
    (forall c', 0 <= c' < 16 -> check_presence 4176 c' s' = Ok false s') /\
    (forall c' y, 0 <= c' < 16 -> y <> 4176 ->
       check_presence y c' s' = Ok (bool_decide (y ∈ nodes_four c')) s').
Proof.
  apply (removenode_then_absent s_four bs_four nodes_four 4176 0).
  - exact (inv_tiled _ _ _ s_four_Inv).
  - exact (inv_lists _ _ _ s_four_Inv).
  - lia.
  - left.
Defined.

(** Putting a node on its list and taking it off again gives back lists
    with the nodes they had. *)
Theorem addnode_removenode_round_trip s bs L x sz :
  Tiled s bs -> Lists s bs L ->
  block_at (first_block s) bs (x - 8) sz false ->
  (forall c, 0 <= c < 16 -> x ∉ L c) ->
  exists s' L',
    (addnode x ;; removenode x (get_index sz)) s = Ok tt s' /\
    Tiled s' bs /\ Lists s' bs L' /\
    (forall c y, 0 <= c < 16 -> (y ∈ L' c <-> y ∈ L c)).
Proof.
  intros Ht Hl Hb Hfresh.
  destruct (addnode_Lists s bs L x sz Ht Hl Hb Hfresh)
    as (s1 & L1 & Hrun1 & _ & _ & _ & Ht1 & Hl1 & Hm1).
  assert (Hx1 : x ∈ L1 (get_index sz))
    by (apply (Hm1 _ _ (get_index_bounds sz)); right; auto).
  destruct (removenode_Lists s1 bs L1 _ x Ht1 Hl1 (get_index_bounds sz) Hx1)
    as (s2 & L2 & Hrun2 & _ & _ & _ & Ht2 & Hl2 & Hm2).
  exists s2, L2. split; [step Hrun1; exact Hrun2 |].
  split; [exact Ht2 |]. split; [exact Hl2 |].
  intros c y Hc. rewrite (Hm2 c y Hc), (Hm1 c y Hc). split.
  - intros [[Hy | [-> _]] Hne]; [exact Hy | contradiction].
  - intros Hy. split; [left; exact Hy |]. intros ->. exact (Hfresh c Hc Hy).
Qed.

Lemma addnode_removenode_round_trip_witness :
  exists s' L',
    (addnode 4128 ;; removenode 4128 (get_index 112)) s_unlinked = Ok tt s' /\
    Tiled s' ([] ++ [(112, false)] ++ []) /\
    Lists s' ([] ++ [(112, false)] ++ []) L' /\
    (forall c y, 0 <= c < 16 -> (y ∈ L' c <-> y ∈ no_nodes c)).
Proof.
  apply (addnode_removenode_round_trip s_unlinked _ no_nodes 4128 112).
  - exact s_unlinked_Tiled.
  - exact s_unlinked_Lists.
  - exact s_unlinked_block.
  - intros c Hc. unfold no_nodes. apply not_elem_of_nil.
Defined.

(** ** The search for a free block *)

Section Misses.
Variables (s : mstate) (bs : list block) (L : Z -> list Z) (n : Z).
Hypothesis Ht : Tiled s bs.
Hypothesis Hl : Lists s bs L.

(** The size a node's block has is the one its header gives. *)
Lemma node_size_unique h sz sz' :
  block_at (first_block s) bs h sz false ->
  block_at (first_block s) bs h sz' false -> sz = sz'.
Proof.
  intros Hb Hb'.
  pose proof (block_at_range _ _ _ _ _ (Tiled_sized _ _ Ht) Hb).
  pose proof (block_at_range _ _ _ _ _ (Tiled_sized _ _ Ht) Hb').
  destruct (block_at_disjoint _ _ _ _ _ _ _ _ (Tiled_sized _ _ Ht) Hb Hb')
    as [(_ & He & _) | Hd]; lia.
Qed.

(** A walk over a list that finds nothing has seen only blocks that are
    too small. *)
Lemma get_freeblock_loop_miss c : 0 <= c < 16 ->
  forall rem vis x fuel s',
    L c = vis ++ x :: rem -> (length rem < fuel)%nat ->
    get_freeblock_loop fuel n c x s = Ok None s' ->
    forall y sz, y ∈ x :: rem ->
                 block_at (first_block s) bs (y - 8) sz false -> sz < n.
Proof.
  intros Hc. induction rem as [| y0 rem' IH];
    intros vis x fuel s' HL Hfuel Hrun y sz Hy Hby.
  - destruct fuel as [| f]; [simpl in Hfuel; lia |].
    assert (Hx : x ∈ L c) by (rewrite HL; apply elem_of_app; right; left).
    destruct (node_block s bs L Ht Hl c x Hc Hx)
      as (szx & Hbx & Hix & Hvh & Hvx & Hvx8 & Hx0 & Hx8 & Hszx).
    simpl get_freeblock_loop in Hrun. rewrite n2h_small in Hrun by lia.
    rewrite (bind_ok _ _ _ _ _ (get_size_block s bs _ _ _ Ht Hbx)) in Hrun.
    destruct (Z.geb_spec szx n) as [Hge | Hlt].
    + destruct (removenode_Lists s bs L c x Ht Hl Hc Hx)
        as (s1 & L1 & Hrm & _).
      rewrite (bind_ok _ _ _ _ _ Hrm) in Hrun. discriminate Hrun.
    + apply list_elem_of_singleton in Hy as ->.
      rewrite (node_size_unique _ sz szx Hby Hbx). exact Hlt.
  - destruct fuel as [| f]; [simpl in Hfuel; lia |].
    assert (Hx : x ∈ L c) by (rewrite HL; apply elem_of_app; right; left).
    destruct (node_block s bs L Ht Hl c x Hc Hx)
      as (szx & Hbx & Hix & Hvh & Hvx & Hvx8 & Hx0 & Hx8 & Hszx).
    simpl get_freeblock_loop in Hrun. rewrite n2h_small in Hrun by lia.
    rewrite (bind_ok _ _ _ _ _ (get_size_block s bs _ _ _ Ht Hbx)) in Hrun.
    destruct (Z.geb_spec szx n) as [Hge | Hlt].
    + destruct (removenode_Lists s bs L c x Ht Hl Hc Hx)
        as (s1 & L1 & Hrm & _).
      rewrite (bind_ok _ _ _ _ _ Hrm) in Hrun. discriminate Hrun.
    + apply elem_of_cons in Hy as [-> | Hy].
      { rewrite (node_size_unique _ sz szx Hby Hbx). exact Hlt. }
      rewrite (next_field_small x) in Hrun by lia.
      rewrite (bind_ok _ _ _ _ _ (load_run s _ Hvx8)) in Hrun.
      rewrite (bind_ok _ _ _ _ _ (get_head_run s c Hc)) in Hrun.
      pose proof (l_dll _ _ _ Hl c Hc) as [Hh Hcyc]. rewrite HL in Hh, Hcyc.
      pose proof (l_nodup _ _ _ Hl c Hc) as Hnd. rewrite HL in Hnd.
      apply (cyc_rot (mem s) vis (x :: y0 :: rem')) in Hcyc. simpl in Hcyc.
      destruct Hcyc as (Hn & _).
      fold (nxt (mem s) x) in Hrun. rewrite Hn in Hrun.
      assert (Hhd : head_at s c = hd x vis) by (destruct vis; exact Hh).
      assert (Hne : y0 <> hd x vis).
      { apply NoDup_app in Hnd as (_ & Hd & Hnd2).
        apply NoDup_cons in Hnd2 as [Hx2 _].
        destruct vis as [| v vis']; simpl.
        - intros ->. apply Hx2. left.
        - intros ->. apply (Hd v); [left | right; left]. }
      rewrite Hhd in Hrun.
      destruct (Z.eqb_spec y0 (hd x vis)) as [| _]; [contradiction |].
      apply (IH (vis ++ [x]) y0 f s' ltac:(rewrite <- app_assoc; exact HL)
               ltac:(simpl in Hfuel; lia) Hrun y sz Hy Hby).
Qed.

Lemma get_freeblock_from_miss fuel :
  (forall c, 0 <= c < 16 -> (length (L c) <= fuel)%nat) ->
  forall k i s', 0 <= i -> i + Z.of_nat k <= 16 ->
    get_freeblock_from k fuel n i s = Ok 0 s' ->
    forall c y sz, i <= c < i + Z.of_nat k -> y ∈ L c ->
                   block_at (first_block s) bs (y - 8) sz false -> sz < n.
Proof.
  intros Hfuel. induction k as [| k IH]; intros i s' Hi Hk Hrun c y sz Hc Hy Hby;
    [lia |].
  assert (Hci : 0 <= i < 16) by lia.
  simpl get_freeblock_from in Hrun.
  rewrite (bind_ok _ _ _ _ _ (get_head_run s i Hci)) in Hrun.
  pose proof (l_dll _ _ _ Hl i Hci) as [Hh _].
  destruct (L i) as [| x r] eqn:HLi.
  - rewrite Hh, Z.eqb_refl in Hrun.
    destruct (Z.eq_dec c i) as [-> | Hne].
    + rewrite HLi in Hy. apply not_elem_of_nil in Hy. contradiction.
    + apply (IH (i + 1) s' ltac:(lia) ltac:(lia) Hrun c y sz); [lia | |];
        assumption.
  - assert (Hx : x ∈ L i) by (rewrite HLi; left).
    destruct (node_block s bs L Ht Hl i x Hci Hx)
      as (_ & _ & _ & _ & _ & _ & Hx0 & _).
    rewrite Hh in Hrun. destruct (Z.eqb_spec x 0) as [| _]; [lia |].
    pose proof (Hfuel i Hci) as Hf. rewrite HLi in Hf. simpl in Hf.
    destruct (get_freeblock_loop_spec s bs L n Ht Hl i Hci r [] x fuel HLi
                ltac:(lia)) as [Hnone | (y1 & s1 & Hr1 & Hu)].
    + rewrite (bind_ok _ _ _ _ _ Hnone) in Hrun.
      destruct (Z.eq_dec c i) as [-> | Hne].
      * rewrite HLi in Hy.
        apply (get_freeblock_loop_miss i Hci r [] x fuel s HLi ltac:(lia)
                 Hnone y sz Hy Hby).
      * apply (IH (i + 1) s' ltac:(lia) ltac:(lia) Hrun c y sz); [lia | |];
          assumption.
    + rewrite (bind_ok _ _ _ _ _ Hr1) in Hrun. injection Hrun as Hy1 _.
      destruct Hu as (c1 & sz1 & _ & Hc1 & Hy1in & _).
      destruct (node_block s bs L Ht Hl c1 y1 Hc1 Hy1in)
        as (_ & _ & _ & _ & _ & _ & Hpos & _).
      lia.
Qed.

Lemma get_freeblock_miss s' :
  get_freeblock n s = Ok 0 s' ->
  forall c y sz, get_index n <= c < 16 -> y ∈ L c ->
                 block_at (first_block s) bs (y - 8) sz false -> sz < n.
Proof.
  unfold get_freeblock, traversal_budget. unfold bind at 1.
  pose proof (get_index_range n) as Hr. intros Hrun c y sz Hc.
  assert (Hlen : forall c0, 0 <= c0 < 16 ->
            (length (L c0) <= Z.to_nat (heap_brk s - heap_lo s))%nat).
  { intros c0 Hc0. pose proof (list_length_bound s bs L c0 Ht Hl Hc0). lia. }
  refine (get_freeblock_from_miss _ Hlen _ (get_index n) s' _ _ Hrun c y sz _);
    unfold maxindex; lia.
Qed.
End Misses.

(** [get_freeblock] is a first-fit search over the lists of the classes
    from [get_index n] up: either it returns null, has changed nothing, and
    no node on those lists has a block of [n] bytes or more; or it returns
    a node whose free block has at least [n] bytes and has taken that node,
    and only that node, off its list. *)
Theorem get_freeblock_first_fit s bs L n :
  Tiled s bs -> Lists s bs L ->
  (get_freeblock n s = Ok 0 s /\
   forall c y sz, get_index n <= c < 16 -> y ∈ L c ->
                  block_at (first_block s) bs (y - 8) sz false -> sz < n) \/
  (exists y s', get_freeblock n s = Ok y s' /\ y <> 0 /\
                unlinked s bs L n y s').
Proof.
  intros Ht Hl.
  destruct (get_freeblock_spec s bs L n Ht Hl) as [Hmiss | (y & s' & Hrun & Hu)].
  - left. split; [exact Hmiss |].
    exact (get_freeblock_miss s bs L n Ht Hl s Hmiss).
  - right. exists y, s'. split; [exact Hrun |]. split; [| exact Hu].
    destruct Hu as (c & sz & _ & Hc & Hy & _).
    destruct (node_block s bs L Ht Hl c y Hc Hy)
      as (_ & _ & _ & _ & _ & _ & Hpos & _).
    lia.
Qed.

Lemma get_freeblock_first_fit_witness :
  (get_freeblock 32 s_four = Ok 0 s_four /\
   forall c y sz, get_index 32 <= c < 16 -> y ∈ nodes_four c ->
                  block_at (first_block s_four) bs_four (y - 8) sz false ->
                  sz < 32) \/
  (exists y s', get_freeblock 32 s_four = Ok y s' /\ y <> 0 /\
                unlinked s_four bs_four nodes_four 32 y s').
Proof.
  apply (get_freeblock_first_fit s_four bs_four nodes_four 32).
  - exact (inv_tiled _ _ _ s_four_Inv).
  - exact (inv_lists _ _ _ s_four_Inv).
Defined.

(** ** malloc *)

Lemma sized_total16 bs : sized bs -> total bs mod 16 = 0.
Proof.
  induction 1 as [| b r [_ Hb] _ IH]; simpl total; [reflexivity |]. zlia.
Qed.

(** The two ways of [malloc]: no free block fits and the heap is extended,
    if the provider has room; or a fitting free block is placed, the heap
    keeps its bounds and the payloads of the allocated blocks their bytes. *)
Lemma malloc_paths s bs L size :
  InvAt s bs L ->
  ((forall h sz, block_at (first_block s) bs h sz false -> sz < normalize size) /\
   (heap_max s < heap_brk s + normalize size /\ malloc size s = Ok 0 s \/
    heap_brk s + normalize size <= heap_max s /\
    malloc size s = Ok (heap_brk s) (extended s (normalize size)))) \/
  (exists h sz s',
     block_at (first_block s) bs h sz false /\ normalize size <= sz /\
     malloc size s = Ok (h + 8) s' /\
     heap_lo s' = heap_lo s /\ heap_brk s' = heap_brk s /\
     heap_max s' = heap_max s /\
     kept (first_block s) bs (mem s) (mem s')).
Proof.
  intros Hinv. pose proof Hinv as [Ht Hnaf Hl Hcomp].
  destruct (normalize_shape size) as (Hn & Hn16 & Hnm).
  pose proof (Tiled_sized _ _ Ht) as Hz. pose proof (sized_total _ Hz) as Htot.
  unfold malloc, finder.
  rewrite (bind_ok _ _ _ _ _ (eq_refl : mm_heap_lo s = Ok (heap_lo s) s)).
  destruct (get_freeblock_kept s bs L (normalize size) Ht Hl)
    as [Hmiss | (y & s1 & Hrun & Hu & Hk1)].
  - left. split.
    + intros h sz Hb. destruct (Z_lt_dec sz (normalize size)) as [| Hge];
        [assumption | exfalso].
      pose proof (Hcomp h sz Hb) as Hin.
      pose proof (get_index_mono (normalize size) sz ltac:(lia)).
      pose proof (get_index_bounds sz).
      assert (Hb' : block_at (first_block s) bs (h + 8 - 8) sz false)
        by (replace (h + 8 - 8) with h by lia; exact Hb).
      pose proof (get_freeblock_miss s bs L (normalize size) Ht Hl s Hmiss
                    (get_index sz) (h + 8) sz ltac:(lia) Hin Hb').
      lia.
    + step Hmiss. rewrite Z.eqb_refl.
      pose proof Ht as [Hlo [Hmax1 Hmax2] _ _ Hend _]. unfold first_block in Hend.
      destruct (Z_le_dec (heap_brk s + normalize size) (heap_max s)) as [Hroom | Hfull].
      * right. split; [exact Hroom | apply extend_run; lia].
      * left. split; [lia | apply extend_miss; lia].
  - right. destruct Hu as (c & sz & L1 & Hc & Hy & Hb & Hfit & Hlo & Hbrk & Hmax
                           & Ht1 & Hl1 & Hm1).
    pose proof (Tiled_block _ _ _ _ _ Ht Hb) as Hg.
    step Hrun. destruct (Z.eqb_spec y 0) as [Hy0 | _];
      [unfold first_block in Hg; lia |].
    rewrite n2h_small by (unfold first_block in Hg; lia).
    pose proof Hb as Hb0.
    destruct (block_at_split _ _ _ _ _ Hb) as (b1 & b2 & -> & Hh).
    change ((sz, false) :: b2) with ([(sz, false)] ++ b2) in *.
    pose proof (first_block_same s s1 Hlo) as Hfb.
    assert (Hfresh : forall c0, 0 <= c0 < 16 -> (first_block s1 + total b1 + 8) ∉ L1 c0).
    { intros c0 Hc0 Hin. apply (Hm1 c0 _ Hc0) in Hin as [_ Hne].
      apply Hne. rewrite Hfb. lia. }
    exists (y - 8), sz.
    destruct (Z_le_dec 32 (sz - normalize size)) as [Hsplit | Hwhole].
    + destruct (allocate_split_kept s1 L1 b1 b2 sz (normalize size) Ht1 Hl1 Hfresh
                  ltac:(lia) Hn16 Hsplit)
        as (s' & L' & Hrun' & Hlo' & Hbrk' & Hmax' & _ & _ & _ & Hk').
      exists s'. rewrite Hfb in Hrun', Hk'. rewrite <- Hh in Hrun'.
      split; [exact Hb0 |]. split; [exact Hfit |]. split; [exact Hrun' |].
      split; [congruence |]. split; [congruence |]. split; [congruence |].
      exact (kept_trans _ _ _ _ _ Hk1 Hk').
    + destruct (allocate_whole_kept s1 L1 b1 b2 sz (normalize size) Ht1 Hl1 Hfresh
                  ltac:(lia) ltac:(lia))
        as (s' & Hrun' & Hlo' & Hbrk' & Hmax' & _ & _ & Hk').
      exists s'. rewrite Hfb in Hrun', Hk'. rewrite <- Hh in Hrun'.
      split; [exact Hb0 |]. split; [exact Hfit |]. split; [exact Hrun' |].
      split; [congruence |]. split; [congruence |]. split; [congruence |].
      exact (kept_trans _ _ _ _ _ Hk1 Hk').
Qed.

(** What a call of [malloc] that returns leaves. *)
Lemma malloc_result s bs L size r s' :
  InvAt s bs L -> malloc size s = Ok r s' ->
  (r = 0 /\ s' = s \/ r <> 0 /\ allocated s bs size r s') /\
  kept (first_block s) bs (mem s) (mem s') /\
  heap_brk s <= heap_brk s'.
Proof.
  intros Hinv Hrun. pose proof Hinv as [Ht _ _ _].
  destruct (normalize_shape size) as (Hn & _ & _).
  split.
  - destruct (malloc_Inv s bs L size Hinv) as [H0 | (r0 & s0 & Hrun0 & Hal)].
    + rewrite H0 in Hrun. injection Hrun as <- <-. left. auto.
    + rewrite Hrun0 in Hrun. injection Hrun as <- <-. right.
      split; [| exact Hal].
      destruct Hal as (bs' & L' & szr & [Ht' _ _ _] & _ & Hb & _).
      pose proof (Tiled_block _ _ _ _ _ Ht' Hb). unfold first_block in *. lia.
  - destruct (malloc_paths s bs L size Hinv)
      as [(_ & [(_ & H0) | (Hroom & Hext)]) | (h & sz & s1 & _ & _ & Hrun1 & _ & Hbrk & _ & Hk)].
    + rewrite H0 in Hrun. injection Hrun as _ <-.
      split; [apply kept_refl | lia].
    + rewrite Hext in Hrun. injection Hrun as _ <-.
      split; [| simpl; lia].
      apply kept_beyond; [apply (Tiled_sized _ _ Ht) |].
      intros x Hx. rewrite (t_end _ _ Ht) in Hx. simpl.
      rewrite !byte_at_store64_out by lia. reflexivity.
    + rewrite Hrun1 in Hrun. injection Hrun as _ <-.
      split; [exact Hk | lia].
Qed.

(** A pointer that [malloc] returns on a heap in order whose base is a
    multiple of 16 is a multiple of 16 ([aligned]) and lies in the heap
    ([in_heap]); it is the payload of an allocated block of at least
    [size + 8] bytes that ends before the epilogue, the invariants hold
    again, and every block that was allocated still is, at its place and
    with its size. *)
Theorem malloc_returns_block s bs L size r s' :
  InvAt s bs L -> heap_lo s mod 16 = 0 ->
  0 <= size -> size + 24 <= modulus ->
  malloc size s = Ok r s' -> r <> 0 ->
  aligned r = true /\ in_heap r s' = Ok true s' /\
  exists bs' L' szr,
    InvAt s' bs' L' /\
    block_at (first_block s') bs' (r - 8) szr true /\
    size + 8 <= szr /\ r - 8 + szr <= heap_brk s' - 8 /\
    (forall h sz, block_at (first_block s) bs h sz true ->
                  block_at (first_block s') bs' h sz true).
Proof.
  intros Hinv Hlo16 H0 Hnw Hrun Hr.
  destruct (malloc_result s bs L size r s' Hinv Hrun) as ([[-> _] | [_ Hal]] & _);
    [contradiction |].
  destruct Hal as (bs' & L' & szr & Hinv' & Hlo & Hb & Hsz & Hold).
  pose proof Hinv' as [Ht' _ _ _].
  pose proof (Tiled_block _ _ _ _ _ Ht' Hb) as (Hg1 & Hg2 & Hg3 & Hg4 & Hg5 & Hg6).
  destruct (block_at_split _ _ _ _ _ Hb) as (b1 & b2 & Hbs & Hh).
  assert (Hz1 : total b1 mod 16 = 0).
  { apply sized_total16. pose proof (Tiled_sized _ _ Ht') as Hz.
    rewrite Hbs in Hz. apply sized_app in Hz as [Hz _]. exact Hz. }
  assert (Hfit : size + 8 <= normalize size).
  { rewrite normalize_no_wrap by lia. unfold align_up. zlia. }
  unfold first_block in *. rewrite Hlo in *.
  split.
  { unfold aligned, align, ALIGNMENT, wrap. apply Z.eqb_eq.
    rewrite modulus_eq in *. zlia. }
  split.
  { unfold in_heap, mm_heap_hi, mm_heap_lo, bind, ret. f_equal.
    apply andb_true_intro. split; [apply Z.leb_le | apply Z.geb_le]; lia. }
  exists bs', L', szr.
  split; [exact Hinv' |]. split; [exact Hb |].
  split; [lia |]. split; [lia |]. exact Hold.
Qed.

Lemma malloc_24_s_four : malloc 24 s_four = Ok 4176 (after (malloc 24) s_four).
Proof. vm_compute. reflexivity. Qed.

Lemma malloc_returns_block_witness :
  aligned 4176 = true /\
  in_heap 4176 (after (malloc 24) s_four) = Ok true (after (malloc 24) s_four) /\
  exists bs' L' szr,
    InvAt (after (malloc 24) s_four) bs' L' /\
    block_at (first_block (after (malloc 24) s_four)) bs' (4176 - 8) szr true /\
    24 + 8 <= szr /\ 4176 - 8 + szr <= heap_brk (after (malloc 24) s_four) - 8 /\
    (forall h sz, block_at (first_block s_four) bs_four h sz true ->
                  block_at (first_block (after (malloc 24) s_four)) bs' h sz true).
Proof.
  apply (malloc_returns_block s_four bs_four nodes_four 24 4176
           (after (malloc 24) s_four)).
  - exact s_four_Inv.
  - reflexivity.
  - lia.
  - rewrite modulus_eq. lia.
  - exact malloc_24_s_four.
  - lia.
Defined.

(** [malloc] writes into no payload of a block that is allocated when it
    is called: whatever it returns, those bytes are what they were. *)
Theorem malloc_keeps_payloads s bs L size r s' :
  InvAt s bs L -> malloc size s = Ok r s' ->
  forall h sz x, block_at (first_block s) bs h sz true ->
                 h + 8 <= x < h + sz ->
                 byte_at (mem s') x = byte_at (mem s) x.
Proof.
  intros Hinv Hrun.
  destruct (malloc_result s bs L size r s' Hinv Hrun) as (_ & Hk & _).
  exact Hk.
Qed.

Lemma s_four_block_a : block_at (first_block s_four) bs_four (4128 - 8) 48 true.
Proof. left. vm_compute. auto. Qed.

Lemma malloc_keeps_payloads_witness :
  byte_at (mem s_four) 4152 = 32 /\
  byte_at (mem (after (malloc 24) s_four)) 4152 = byte_at (mem s_four) 4152.
Proof.
  split; [vm_compute; reflexivity |].
  apply (malloc_keeps_payloads s_four bs_four nodes_four 24 4176
           (after (malloc 24) s_four) s_four_Inv malloc_24_s_four
           (4128 - 8) 48 4152 s_four_block_a).
  lia.
Defined.

(** When a free block of the heap is big enough for the request, [malloc]
    places the request in a free block that is big enough: it returns the
    payload of such a block and does not ask the provider for memory. *)
Theorem malloc_reuses_free_block s bs L size h sz :
  InvAt s bs L ->
  block_at (first_block s) bs h sz false -> normalize size <= sz ->
  exists r s' h' sz',
    malloc size s = Ok r s' /\ r <> 0 /\
    heap_lo s' = heap_lo s /\ heap_brk s' = heap_brk s /\
    heap_max s' = heap_max s /\
    block_at (first_block s) bs h' sz' false /\ normalize size <= sz' /\
    r = h' + 8.
Proof.
  intros Hinv Hb Hfit. pose proof Hinv as [Ht _ _ _].
  destruct (malloc_paths s bs L size Hinv)
    as [(Hno & _) | (h' & sz' & s' & Hb' & Hfit' & Hrun & Hlo & Hbrk & Hmax & _)].
  - pose proof (Hno h sz Hb). lia.
  - exists (h' + 8), s', h', sz'.
    pose proof (Tiled_block _ _ _ _ _ Ht Hb') as Hg. unfold first_block in Hg.
    repeat (split; [first [assumption | lia] |]). reflexivity.
Qed.

Lemma s_four_free_block : block_at (first_block s_four) bs_four 4168 32 false.
Proof. right. left. vm_compute. auto. Qed.

Lemma malloc_reuses_free_block_witness :
  exists r s' h' sz',
    malloc 24 s_four = Ok r s' /\ r <> 0 /\
    heap_lo s' = heap_lo s_four /\ heap_brk s' = heap_brk s_four /\
    heap_max s' = heap_max s_four /\
    block_at (first_block s_four) bs_four h' sz' false /\
    normalize 24 <= sz' /\ r = h' + 8.
Proof.
  apply (malloc_reuses_free_block s_four bs_four nodes_four 24 4168 32).
  - exact s_four_Inv.
  - exact s_four_free_block.
  - vm_compute. discriminate.
Defined.

(** When no free block is big enough, [malloc] asks the provider for exactly
    the normalised size: with room it returns the old break, where the new
    block's payload starts, and leaves the heap [extend] builds; without
    room it returns null and changes nothing. *)
Theorem malloc_without_fit s bs L size :
  InvAt s bs L ->
  (forall h sz, block_at (first_block s) bs h sz false -> sz < normalize size) ->
  (heap_brk s + normalize size <= heap_max s ->
   malloc size s = Ok (heap_brk s) (extended s (normalize size))) /\
  (heap_max s < heap_brk s + normalize size -> malloc size s = Ok 0 s).
Proof.
  intros Hinv Hno.
  destruct (malloc_paths s bs L size Hinv)
    as [(_ & [(Hfull & H0) | (Hroom & Hext)]) | (h & sz & s' & Hb & Hfit & _)].
  - split; [lia | intros _; exact H0].
  - split; [intros _; exact Hext | lia].
  - pose proof (Hno h sz Hb). lia.
Qed.

Lemma s_one_no_free h sz :
  block_at (first_block s_one) bs_one h sz false -> sz < normalize 24.
Proof. intros [(_ & _ & Hal) | []]. discriminate. Qed.

Lemma malloc_without_fit_witness :
  (heap_brk s_one + normalize 24 <= heap_max s_one ->
   malloc 24 s_one = Ok (heap_brk s_one) (extended s_one (normalize 24))) /\
  (heap_max s_one < heap_brk s_one + normalize 24 -> malloc 24 s_one = Ok 0 s_one).
Proof.
  apply (malloc_without_fit s_one bs_one no_nodes 24).
  - exact s_one_Inv.
  - exact s_one_no_free.
Defined.

(** A null result of [malloc] means that nothing happened: the state is the
    one before the call, no free block was big enough, and the provider
    could not grant the normalised size. *)
Theorem malloc_miss_unchanged s bs L size s' :
  InvAt s bs L -> malloc size s = Ok 0 s' ->
  s' = s /\
  (forall h sz, block_at (first_block s) bs h sz false -> sz < normalize size) /\
  heap_max s < heap_brk s + normalize size.
Proof.
  intros Hinv Hrun. pose proof Hinv as [Ht _ _ _].
  pose proof (sized_total _ (Tiled_sized _ _ Ht)).
  pose proof (t_end _ _ Ht) as Hend. pose proof (t_lo _ _ Ht).
  unfold first_block in Hend.
  destruct (malloc_paths s bs L size Hinv)
    as [(Hno & [(Hfull & Hnull) | (Hroom & Hext)]) | (h & sz & s1 & Hb & _ & Hrun1 & _)].
  - rewrite Hnull in Hrun. injection Hrun as <-. auto.
  - rewrite Hext in Hrun. injection Hrun as Hbrk _. lia.
  - rewrite Hrun1 in Hrun. injection Hrun as Hh _.
    pose proof (Tiled_block _ _ _ _ _ Ht Hb) as Hg. unfold first_block in Hg. lia.
Qed.

Lemma malloc_24_s_full : malloc 24 s_full = Ok 0 s_full.
Proof. vm_compute. reflexivity. Qed.

Lemma malloc_miss_unchanged_witness :
  s_full = s_full /\
  (forall h sz, block_at (first_block s_full) bs_one h sz false ->
                sz < normalize 24) /\
  heap_max s_full < heap_brk s_full + normalize 24.
Proof.
  apply (malloc_miss_unchanged s_full bs_one no_nodes 24 s_full).
  - exact s_full_Inv.
  - exact malloc_24_s_full.
Defined.

(** ** free *)

(** The release of an allocated block: the block and its free neighbours,
    the run [mid], become one free block; the rest of the tiling, the
    bounds of the heap and the payloads of the other allocated blocks stay
    as they are. *)
Lemma free_hf_paths s bs L H sz :
  InvAt s bs L -> block_at (first_block s) bs H sz true ->
  exists b1 mid b2 T s' L',
    bs = b1 ++ mid ++ b2 /\ total mid = T /\
    block_at (first_block s + total b1) mid H sz true /\
    (forall h0 sz0, block_at (first_block s + total b1) mid h0 sz0 true -> h0 = H) /\
    free_hf H s = Ok (first_block s + total b1 + 8) s' /\
    InvAt s' (b1 ++ [(T, false)] ++ b2) L' /\
    heap_lo s' = heap_lo s /\ heap_brk s' = heap_brk s /\
    heap_max s' = heap_max s /\
    kept (first_block s) (b1 ++ [(T, false)] ++ b2) (mem s) (mem s').
Proof.
  intros [Ht Hnaf Hl Hcomp] Hb.
  destruct (block_at_split _ _ _ _ _ Hb) as (b1 & b2 & -> & ->).
  change ((sz, true) :: b2) with ([(sz, true)] ++ b2) in *.
  pose proof (Tiled_sized _ _ Ht) as Hz.
  apply no_adjacent_free_app in Hnaf as [Hnaf1 Hnaf2].
  simpl in Hnaf2.
  destruct (last_alloc true b1) eqn:Hpa, (next_alloc b2) eqn:Hna.
  - (* both neighbours allocated *)
    destruct (free_hf_alone_kept s L b1 b2 sz Ht Hl Hpa Hna)
      as (s' & L' & Hrun & Hlo & Hbrk & Hmax & Ht' & Hl' & Hm & Hk).
    exists b1, [(sz, true)], b2, sz, s', L'.
    split; [reflexivity |]. split; [simpl; lia |].
    split; [left; auto |].
    split; [intros h0 sz0 [(-> & _) | []]; reflexivity |].
    split; [exact Hrun |]. split; [| auto].
    constructor; [exact Ht' | | exact Hl' |].
    + apply no_adjacent_free_app. split; [exact Hnaf1 |]. rewrite Hpa. simpl.
      rewrite (naf_next_alloc b2 false true Hna). exact Hnaf2.
    + apply (Complete_merged s s' L L' b1 [(sz, true)] b2 sz Hlo Hz);
        [simpl; lia | exact Hcomp | |].
      * intros c y Hc Hy _. apply (Hm c y Hc). left. exact Hy.
      * apply (Hm _ _ (get_index_bounds sz)). right. auto.
  - (* only the next block free *)
    destruct b2 as [| [nsz nal] b2']; [discriminate |]. simpl in Hna. subst nal.
    change ([(sz, true)] ++ (nsz, false) :: b2')
      with ([(sz, true); (nsz, false)] ++ b2') in *.
    assert (HN : (first_block s + total b1 + sz + 8) ∈ L (get_index nsz)).
    { apply Hcomp. apply block_at_region. right. left. simpl. right. left. auto. }
    sizes Hz.
    destruct (free_hf_next_kept s L b1 b2' sz nsz Ht Hl Hpa HN)
      as (s' & L' & Hrun & Hlo & Hbrk & Hmax & Ht' & Hl' & Hm & Hk).
    exists b1, [(sz, true); (nsz, false)], b2', (sz + nsz), s', L'.
    split; [reflexivity |]. split; [simpl; lia |].
    split; [left; auto |].
    split.
    { intros h0 sz0 [(-> & _) | [(_ & _ & Hal) | []]];
        [reflexivity | discriminate]. }
    split; [exact Hrun |]. split; [| auto].
    constructor; [exact Ht' | | exact Hl' |].
    + apply no_adjacent_free_app. split; [exact Hnaf1 |]. rewrite Hpa. simpl.
      simpl in Hnaf2. exact Hnaf2.
    + apply (Complete_merged s s' L L' b1 [(sz, true); (nsz, false)] b2' _ Hlo Hz);
        [simpl; lia | exact Hcomp | |].
      * intros c y Hc Hy Hr. apply (Hm c y Hc). left. split; [exact Hy | lia].
      * apply (Hm _ _ (get_index_bounds _)). right. auto.
  - (* only the previous block free *)
    destruct (last_alloc_false b1 Hpa) as (b1' & psz & ->).
    rewrite <- app_assoc in *. rewrite total_app in *. simpl total in *.
    change ([(psz, false)] ++ [(sz, true)] ++ b2)
      with ([(psz, false); (sz, true)] ++ b2) in *.
    replace (first_block s + (total b1' + (psz + 0)))
      with (first_block s + total b1' + psz) by lia.
    assert (HP : (first_block s + total b1' + 8) ∈ L (get_index psz)).
    { apply Hcomp. apply block_at_region. right. left. simpl. left. auto. }
    sizes Hz.
    destruct (free_hf_prev_kept s L b1' b2 psz sz Ht Hl Hna HP)
      as (s' & L' & Hrun & Hlo & Hbrk & Hmax & Ht' & Hl' & Hm & Hk).
    exists b1', [(psz, false); (sz, true)], b2, (psz + sz), s', L'.
    split; [reflexivity |]. split; [simpl; lia |].
    split; [right; left; auto |].
    split.
    { intros h0 sz0 [(_ & _ & Hal) | [(-> & _) | []]];
        [discriminate | reflexivity]. }
    split; [exact Hrun |]. split; [| auto].
    apply no_adjacent_free_app in Hnaf1 as [Hnaf1 Hnaf1'].
    simpl in Hnaf1'. rewrite orb_false_r, andb_true_r in Hnaf1'.
    constructor; [exact Ht' | | exact Hl' |].
    + apply no_adjacent_free_app. split; [exact Hnaf1 |]. rewrite Hnaf1'. simpl.
      rewrite (naf_next_alloc b2 false true Hna). exact Hnaf2.
    + apply (Complete_merged s s' L L' b1' [(psz, false); (sz, true)] b2 _ Hlo Hz);
        [simpl; lia | exact Hcomp | |].
      * intros c y Hc Hy Hr. apply (Hm c y Hc). left. split; [exact Hy | lia].
      * apply (Hm _ _ (get_index_bounds _)). right. auto.
  - (* both neighbours free *)
    destruct b2 as [| [nsz nal] b2']; [discriminate |]. simpl in Hna. subst nal.
    destruct (last_alloc_false b1 Hpa) as (b1' & psz & ->).
    rewrite <- app_assoc in *. rewrite total_app in *. simpl total in *.
    change ([(psz, false)] ++ [(sz, true)] ++ (nsz, false) :: b2')
      with ([(psz, false); (sz, true); (nsz, false)] ++ b2') in *.
    replace (first_block s + (total b1' + (psz + 0)))
      with (first_block s + total b1' + psz) by lia.
    assert (HP : (first_block s + total b1' + 8) ∈ L (get_index psz)).
    { apply Hcomp. apply block_at_region. right. left. simpl. left. auto. }
    assert (HN : (first_block s + total b1' + psz + sz + 8) ∈ L (get_index nsz)).
    { apply Hcomp. apply block_at_region. right. left. simpl. right. right. left.
      split; [lia | auto]. }
    sizes Hz.
    destruct (free_hf_both_kept s L b1' b2' psz sz nsz Ht Hl HP HN)
      as (s' & L' & Hrun & Hlo & Hbrk & Hmax & Ht' & Hl' & Hm & Hk).
    exists b1', [(psz, false); (sz, true); (nsz, false)], b2', (psz + sz + nsz), s', L'.
    split; [reflexivity |]. split; [simpl; lia |].
    split; [right; left; auto |].
    split.
    { intros h0 sz0 [(_ & _ & Hal) | [(-> & _) | [(_ & _ & Hal) | []]]];
        [discriminate | reflexivity | discriminate]. }
    split; [exact Hrun |]. split; [| auto].
    apply no_adjacent_free_app in Hnaf1 as [Hnaf1 Hnaf1'].
    simpl in Hnaf1'. rewrite orb_false_r, andb_true_r in Hnaf1'.
    constructor; [exact Ht' | | exact Hl' |].
    + apply no_adjacent_free_app. split; [exact Hnaf1 |]. rewrite Hnaf1'. simpl.
      simpl in Hnaf2. exact Hnaf2.
    + apply (Complete_merged s s' L L' b1' [(psz, false); (sz, true); (nsz, false)]
               b2' _ Hlo Hz); [simpl; lia | exact Hcomp | |].
      * intros c y Hc Hy Hr. apply (Hm c y Hc). left.
        split; [exact Hy | lia].
      * apply (Hm _ _ (get_index_bounds _)). right. auto.
Qed.

(** What [free] leaves of a heap in order, for the payload [p] of an
    allocated block of [sz] bytes. *)
Lemma free_result s bs L p sz :
  InvAt s bs L -> block_at (first_block s) bs (p - 8) sz true ->
  exists s' bs' L' h T,
    free p s = Ok tt s' /\ InvAt s' bs' L' /\
    heap_lo s' = heap_lo s /\ heap_brk s' = heap_brk s /\
    total bs' = total bs /\
    block_at (first_block s') bs' h T false /\
    h <= p - 8 /\ p - 8 + sz <= h + T /\
    (forall h0 sz0, block_at (first_block s') bs' h0 sz0 true <->
                    block_at (first_block s) bs h0 sz0 true /\ h0 <> p - 8) /\
    kept (first_block s') bs' (mem s) (mem s').
Proof.
  intros Hinv Hb. pose proof Hinv as [Ht _ _ _].
  pose proof (Tiled_block _ _ _ _ _ Ht Hb) as Hg. unfold first_block in Hg.
  destruct (free_hf_paths s bs L (p - 8) sz Hinv Hb)
    as (b1 & mid & b2 & T & s' & L' & -> & HT & Hmid & Huniq & Hrun & Hinv'
        & Hlo & Hbrk & Hmax & Hk).
  pose proof (first_block_same s s' Hlo) as Hfb.
  destruct (sized_parts _ _ _ (Tiled_sized _ _ Ht)) as (Hz1 & Hzm & Hz2).
  pose proof (block_at_range _ _ _ _ _ Hzm Hmid) as Hr.
  exists s', (b1 ++ [(T, false)] ++ b2), L', (first_block s + total b1), T.
  split.
  { unfold free. destruct (Z.eqb_spec p 0) as [| _]; [lia |].
    rewrite n2h_small by lia. step Hrun. reflexivity. }
  split; [exact Hinv' |]. split; [exact Hlo |]. split; [exact Hbrk |].
  split; [rewrite !total_app; simpl; lia |].
  split; [rewrite Hfb; apply block_at_region; right; left; left; auto |].
  split; [lia |]. split; [lia |].
  split; [| rewrite Hfb; exact Hk].
  intros h0 sz0. rewrite Hfb, !block_at_region. split.
  - intros [H1 | [H1 | H1]].
    + pose proof (block_at_range _ _ _ _ _ Hz1 H1). split; [auto | lia].
    + simpl in H1. destruct H1 as [(_ & _ & Hal) | []]. discriminate.
    + simpl in H1. rewrite Z.add_0_r in H1.
      pose proof (block_at_range _ _ _ _ _ Hz2 H1).
      split; [rewrite HT; auto | lia].
  - intros [[H1 | [H1 | H1]] Hne].
    + left. exact H1.
    + destruct (Hne (Huniq _ _ H1)).
    + right. right. simpl. rewrite Z.add_0_r. rewrite HT in H1. exact H1.
Qed.

(** [free] of the payload of an allocated block turns that block, together
    with its free neighbours, into one free block: the invariants hold
    again, the bounds of the heap and the bytes the blocks cover are the
    same, the block lies in a free block that is on the list of its class,
    the allocated blocks are the ones that were allocated apart from the
    released one, and their payloads keep their bytes. *)
Theorem free_releases_block s bs L p sz :
  InvAt s bs L -> block_at (first_block s) bs (p - 8) sz true ->
  exists s' bs' L' h T,
    free p s = Ok tt s' /\ InvAt s' bs' L' /\
    heap_lo s' = heap_lo s /\ heap_brk s' = heap_brk s /\
    total bs' = total bs /\
    block_at (first_block s') bs' h T false /\
    h <= p - 8 /\ p - 8 + sz <= h + T /\
    check_presence (h + 8) (get_index T) s' = Ok true s' /\
    (forall h0 sz0, block_at (first_block s') bs' h0 sz0 true <->
                    block_at (first_block s) bs h0 sz0 true /\ h0 <> p - 8) /\
    (forall h0 sz0 x, block_at (first_block s') bs' h0 sz0 true ->
                      h0 + 8 <= x < h0 + sz0 ->
                      byte_at (mem s') x = byte_at (mem s) x).
Proof.
  intros Hinv Hb.
  destruct (free_result s bs L p sz Hinv Hb)
    as (s' & bs' & L' & h & T & Hrun & Hinv' & Hlo & Hbrk & Htot & Hfree
        & Hh1 & Hh2 & Hiff & Hk).
  exists s', bs', L', h, T.
  repeat (split; [assumption |]).
  split; [| split; [exact Hiff | exact Hk]].
  pose proof Hinv' as [Ht' _ Hl' Hcomp'].
  rewrite (check_presence_spec s' bs' L' Ht' Hl' _ _ (get_index_bounds T)).
  rewrite bool_decide_eq_true_2; [reflexivity |]. apply Hcomp', Hfree.
Qed.

Lemma s_four_block_c : block_at (first_block s_four) bs_four (4208 - 8) 32 true.
Proof. right. right. left. vm_compute. auto. Qed.

Lemma free_releases_block_witness :
  walk (after (free 4208) s_four)
  = Ok [(48, true); (96, false)] (after (free 4208) s_four) /\
  exists s' bs' L' h T,
    free 4208 s_four = Ok tt s' /\ InvAt s' bs' L' /\
    heap_lo s' = heap_lo s_four /\ heap_brk s' = heap_brk s_four /\
    total bs' = total bs_four /\
    block_at (first_block s') bs' h T false /\
    h <= 4208 - 8 /\ 4208 - 8 + 32 <= h + T /\
    check_presence (h + 8) (get_index T) s' = Ok true s' /\
    (forall h0 sz0, block_at (first_block s') bs' h0 sz0 true <->
                    block_at (first_block s_four) bs_four h0 sz0 true /\
                    h0 <> 4208 - 8) /\
    (forall h0 sz0 x, block_at (first_block s') bs' h0 sz0 true ->
                      h0 + 8 <= x < h0 + sz0 ->
                      byte_at (mem s') x = byte_at (mem s_four) x).
Proof.
  split; [vm_compute; reflexivity |].
  exact (free_releases_block s_four bs_four nodes_four 4208 32
           s_four_Inv s_four_block_c).
Defined.

(** A block that was released serves the next request that fits in it, or
    another free block does: [malloc] after [free] returns a pointer and
    the heap does not grow. *)
Theorem free_then_malloc_reuses s bs L p sz size :
  InvAt s bs L -> block_at (first_block s) bs (p - 8) sz true ->
  normalize size <= sz ->
  exists r s',
    (free p ;; malloc size) s = Ok r s' /\ r <> 0 /\
    heap_lo s' = heap_lo s /\ heap_brk s' = heap_brk s /\
    exists bs' L', InvAt s' bs' L'.
Proof.
  intros Hinv Hb Hfit.
  destruct (free_result s bs L p sz Hinv Hb)
    as (s1 & bs1 & L1 & h & T & Hrun & Hinv1 & Hlo & Hbrk & _ & Hfree
        & Hh1 & Hh2 & _).
  pose proof Hinv1 as [Ht1 _ _ _].
  destruct (malloc_paths s1 bs1 L1 size Hinv1)
    as [(Hno & _) | (h' & sz' & s' & Hb' & _ & Hrun' & Hlo' & Hbrk' & _)].
  - pose proof (Hno h T Hfree). lia.
  - exists (h' + 8), s'. split; [step Hrun; exact Hrun' |].
    pose proof (Tiled_block _ _ _ _ _ Ht1 Hb') as Hg. unfold first_block in Hg.
    split; [lia |]. split; [congruence |]. split; [congruence |].
    destruct (malloc_result s1 bs1 L1 size _ _ Hinv1 Hrun')
      as ([[Hr0 _] | [_ Hal]] & _); [lia |].
    destruct Hal as (bs' & L' & _ & Hinv' & _). exists bs', L'. exact Hinv'.
Qed.

Lemma s_one_block : block_at (first_block s_one) bs_one (4128 - 8) 32 true.
Proof. left. vm_compute. auto. Qed.

Lemma free_then_malloc_reuses_witness :
  exists r s',
    (free 4128 ;; malloc 10) s_one = Ok r s' /\ r <> 0 /\
    heap_lo s' = heap_lo s_one /\ heap_brk s' = heap_brk s_one /\
    exists bs' L', InvAt s' bs' L'.
Proof.
  apply (free_then_malloc_reuses s_one bs_one no_nodes 4128 32 10).
  - exact s_one_Inv.
  - exact s_one_block.
  - vm_compute. discriminate.
Defined.

(** ** realloc *)

(** [realloc(p, 0)] with [p] the payload of an allocated block releases the
    block and returns null: the invariants hold again, [p] is no longer the
    payload of an allocated block, and the other allocated blocks are the
    ones there were. *)
Theorem realloc_zero_releases s bs L p sz :
  InvAt s bs L -> block_at (first_block s) bs (p - 8) sz true ->
  exists s' bs' L',
    realloc p 0 s = Ok 0 s' /\ InvAt s' bs' L' /\
    ~ live s' bs' p /\
    (forall h0 sz0, block_at (first_block s') bs' h0 sz0 true <->
                    block_at (first_block s) bs h0 sz0 true /\ h0 <> p - 8).
Proof.
  intros Hinv Hb. pose proof Hinv as [Ht _ _ _].
  pose proof (Tiled_block _ _ _ _ _ Ht Hb) as Hg. unfold first_block in Hg.
  destruct (free_result s bs L p sz Hinv Hb)
    as (s' & bs' & L' & h & T & Hrun & Hinv' & _ & _ & _ & _ & _ & _ & Hiff & _).
  exists s', bs', L'. split.
  { unfold realloc. destruct (Z.eqb_spec p 0) as [| _]; [lia |].
    rewrite Z.eqb_refl. step Hrun. reflexivity. }
  split; [exact Hinv' |]. split; [| exact Hiff].
  intros (sz0 & Hlive). apply Hiff in Hlive as [_ Hne]. apply Hne. reflexivity.
Qed.

Lemma realloc_zero_releases_witness :
  exists s' bs' L',
    realloc 4208 0 s_four = Ok 0 s' /\ InvAt s' bs' L' /\
    ~ live s' bs' 4208 /\
    (forall h0 sz0, block_at (first_block s') bs' h0 sz0 true <->
                    block_at (first_block s_four) bs_four h0 sz0 true /\
                    h0 <> 4208 - 8).
Proof.
  exact (realloc_zero_releases s_four bs_four nodes_four 4208 32
           s_four_Inv s_four_block_c).
Defined.

(** [memcpy] between ranges that do not overlap: the destination holds the
    bytes of the source. *)
Lemma byte_at_copy_in n : forall m dst src i,
  0 <= i < Z.of_nat n ->
  dst + Z.of_nat n <= src \/ src + Z.of_nat n <= dst ->
  byte_at (copy_bytes m dst src n) (dst + i) = byte_at m (src + i).
Proof.
  induction n as [| k IH]; intros m dst src i Hi Hd; [simpl in Hi; lia |].
  simpl copy_bytes. destruct (Z.eq_dec i 0) as [-> | Hi0].
  - rewrite !Z.add_0_r. rewrite byte_at_copy_out by lia.
    rewrite byte_at_insert. destruct (decide (dst = dst)); [| congruence].
    apply Z.mod_small, byte_at_range.
  - replace (dst + i) with (dst + 1 + (i - 1)) by lia.
    rewrite IH by lia. rewrite byte_at_insert.
    destruct (decide (dst = src + 1 + (i - 1))); [lia |]. f_equal. lia.
Qed.

(** The block [malloc] hands out is none of the blocks that were allocated. *)
Lemma malloc_fresh s bs L size r s' :
  InvAt s bs L -> malloc size s = Ok r s' -> r <> 0 ->
  forall h sz, block_at (first_block s) bs h sz true -> h <> r - 8.
Proof.
  intros Hinv Hrun Hr h sz Hb. pose proof Hinv as [Ht _ _ _].
  pose proof (Tiled_block _ _ _ _ _ Ht Hb) as Hg.
  destruct (malloc_paths s bs L size Hinv)
    as [(_ & [(_ & Hnull) | (_ & Hext)]) | (h' & sz' & s1 & Hb' & _ & Hrun1 & _)].
  - rewrite Hnull in Hrun. injection Hrun as <- _. contradiction.
  - rewrite Hext in Hrun. injection Hrun as <- _. lia.
  - rewrite Hrun1 in Hrun. injection Hrun as <- _.
    pose proof (block_at_range _ _ _ _ _ (Tiled_sized _ _ Ht) Hb').
    destruct (block_at_disjoint _ _ _ _ _ _ _ _ (Tiled_sized _ _ Ht) Hb Hb')
      as [(_ & _ & Hal) | Hd]; [discriminate | lia].
Qed.

(** A [realloc(p, size)] that returns, for the payload [p] of an allocated
    block of [osz] bytes and a size from 1 to 2^64 - 24: the pointer is not
    null and is the payload of an allocated block of at least [size + 8]
    bytes; its first [min(size, osz - 8)] bytes are the bytes the old
    payload had; every payload that was allocated before the call, the old
    one included, keeps its bytes; the invariants hold again; and the old
    block is still allocated. *)
Theorem realloc_copies_payload s bs L p osz size r s' :
  InvAt s bs L -> block_at (first_block s) bs (p - 8) osz true ->
  0 < size -> size + 24 <= modulus ->
  realloc p size s = Ok r s' ->
  r <> 0 /\
  (forall i, 0 <= i < Z.min size (osz - 8) ->
             byte_at (mem s') (r + i) = byte_at (mem s) (p + i)) /\
  (forall h sz x, block_at (first_block s) bs h sz true ->
                  h + 8 <= x < h + sz ->
                  byte_at (mem s') x = byte_at (mem s) x) /\
  exists bs' L' szr,
    InvAt s' bs' L' /\
    block_at (first_block s') bs' (r - 8) szr true /\ size + 8 <= szr /\
    block_at (first_block s') bs' (p - 8) osz true.
Proof.
  intros Hinv Hob Hsz Hnw Hrun. pose proof Hinv as [Ht _ _ _].
  pose proof (Tiled_block _ _ _ _ _ Ht Hob) as Hog. unfold first_block in Hog.
  assert (Hp0 : p <> 0) by lia.
  assert (Hnz : size <> 0) by lia.
  assert (Hd : decr p w = p - 8) by (unfold w; apply decr_small; lia).
  assert (Hm : exists r0 s1, malloc size s = Ok r0 s1).
  { destruct (malloc_Inv s bs L size Hinv) as [Hm | (r0 & s1 & Hm & _)]; eauto. }
  destruct Hm as (r0 & s1 & Hm).
  destruct (malloc_result s bs L size r0 s1 Hinv Hm) as (Hcase & Hk & _).
  destruct Hcase as [[-> ->] | [Hr0 Hal]].
  { exfalso.
    rewrite (realloc_unfold s p size 0 s osz Hp0 Hnz Hm) in Hrun
      by (rewrite Hd; apply (get_size_block s bs _ _ _ Ht Hob)).
    revert Hrun. unfold bind, memcpy, in_heap_range.
    destruct (Z.eqb_spec (Z.min size osz) 0) as [| _]; [lia |].
    destruct (Z.leb_spec (heap_lo s) 0) as [| _]; [lia |]. discriminate. }
  pose proof (malloc_fresh s bs L size r0 s1 Hinv Hm Hr0) as Hfresh.
  destruct Hal as (bs1 & L1 & szr & Hinv1 & Hlo1 & Hrb & Hfit & Hlive).
  pose proof (inv_tiled _ _ _ Hinv1) as Ht1.
  pose proof (Tiled_sized _ _ Ht1) as Hz1.
  pose proof (Hlive _ _ Hob) as Hob1.
  pose proof (Tiled_block _ _ _ _ _ Ht1 Hrb) as Hrg.
  pose proof (Tiled_block _ _ _ _ _ Ht1 Hob1) as Hog1.
  unfold first_block in Hrg, Hog1.
  rewrite (realloc_unfold s p size r0 s1 osz Hp0 Hnz Hm) in Hrun
    by (rewrite Hd; apply (get_size_block s1 bs1 _ _ _ Ht1 Hob1)).
  rewrite normalize_no_wrap in Hfit by lia.
  assert (Hcap : size + 8 <= szr).
  { unfold align_up in Hfit. revert Hfit. zlia. }
  rewrite (bind_ok _ _ _ _ _
             (memcpy_run s1 r0 p (Z.min size osz)
                ltac:(lia) ltac:(lia) ltac:(lia) ltac:(lia) ltac:(lia))) in Hrun.
  injection Hrun as <- <-.
  assert (Hapart : forall h sz, block_at (first_block s) bs h sz true ->
                     h + sz <= r0 - 8 \/ r0 - 8 + szr <= h).
  { intros h sz Hb. pose proof (Hfresh h sz Hb).
    destruct (block_at_disjoint _ _ _ _ _ _ _ _ Hz1 (Hlive _ _ Hb) Hrb)
      as [(He & _) | Hdj]; [contradiction | exact Hdj]. }
  split; [exact Hr0 |].
  split.
  { intros i Hi. simpl mem.
    rewrite byte_at_copy_in by (pose proof (Hapart _ _ Hob); lia).
    apply (Hk (p - 8) osz (p + i) Hob). lia. }
  split.
  { intros h sz x Hb Hx. simpl mem.
    rewrite byte_at_copy_out by (pose proof (Hapart _ _ Hb); lia).
    exact (Hk h sz x Hb Hx). }
  exists bs1, L1, szr.
  split.
  { apply (Inv_frame_payload s1 bs1 L1 (r0 - 8) szr _ Hinv1 Hrb).
    intros x Hx. apply byte_at_copy_out. lia. }
  split; [exact Hrb |]. split; [exact Hcap |]. exact Hob1.
Qed.

Lemma realloc_20_s_four :
  realloc 4128 20 s_four = Ok 4176 (after (realloc 4128 20) s_four).
Proof. vm_compute. reflexivity. Qed.

Lemma realloc_copies_payload_witness :
  4176 <> 0 /\
  (forall i, 0 <= i < Z.min 20 (48 - 8) ->
             byte_at (mem (after (realloc 4128 20) s_four)) (4176 + i)
             = byte_at (mem s_four) (4128 + i)) /\
  (forall h sz x, block_at (first_block s_four) bs_four h sz true ->
                  h + 8 <= x < h + sz ->
                  byte_at (mem (after (realloc 4128 20) s_four)) x
                  = byte_at (mem s_four) x) /\
  exists bs' L' szr,
    InvAt (after (realloc 4128 20) s_four) bs' L' /\
    block_at (first_block (after (realloc 4128 20) s_four)) bs' (4176 - 8) szr true /\
    20 + 8 <= szr /\
    block_at (first_block (after (realloc 4128 20) s_four)) bs' (4128 - 8) 48 true.
Proof.
  apply (realloc_copies_payload s_four bs_four nodes_four 4128 48 20 4176
           (after (realloc 4128 20) s_four)).
  - exact s_four_Inv.
  - exact s_four_block_a.
  - lia.
  - rewrite modulus_eq. lia.
  - exact realloc_20_s_four.
Defined.
